(** * CryptoScope backend, filter 3: incremental download of daily candles

    A shallow embedding of [backend/filter3_download_missing.py]:
    the window planner ([_normalize_last_date], [_compute_start_date],
    [fetch_worker]), the range fetcher ([yahoo_fetch_range_rows]), the
    persistence writer ([db_writer]) and the hand-off between the
    scheduler of [update_data] and the writer thread.

    Conventions.  A Python call that may raise returns a [result]; the
    clock, the network, pandas' date parser and the faults of the storage
    engine are explicit arguments.  A [datetime.date] is represented by its
    proleptic Gregorian ordinal ([date.toordinal()]), the number on which
    Python's ordering of dates and its [timedelta] arithmetic are defined. *)

From Stdlib Require Import ZArith List String Ascii Bool Lia.
From Stdlib Require Import Permutation Sorted.
From Stdlib Require Import Floats.SpecFloat.
Import ListNotations.
Open Scope string_scope.
Open Scope list_scope.
Open Scope Z_scope.

(** ** Exceptions and fallible computations *)

Inductive pyexn : Type :=
| TypeError | ValueError | KeyError | IndexError | AttributeError
| OverflowError
| RequestException     (* raised by requests: timeout, connection failure *)
| JSONDecodeError      (* raised by [resp.json()] on a body that is not JSON *)
| OperationalError.    (* raised by sqlite3: I/O error, disk full, locked *)

Inductive result (A : Type) : Type :=
| Ok (a : A)
| Raise (e : pyexn).
Arguments Ok {A} a.
Arguments Raise {A} e.

Definition bind {A B : Type} (m : result A) (k : A -> result B) : result B :=
  match m with
  | Ok a => k a
  | Raise e => Raise e
  end.

Notation "x <- m ;; k" := (bind m (fun x => k))
  (at level 61, m at next level, right associativity).

Definition raises {A : Type} (m : result A) : bool :=
  match m with Ok _ => false | Raise _ => true end.

(** ** Calendar dates

    The conversions between a civil date and its ordinal follow the
    reference implementation of [datetime] ([_ymd2ord], [_ord2ymd]). *)

Module PyDate.

Definition date := Z.

Definition MINORD : Z := 1.          (* date.min = 0001-01-01 *)
Definition MAXORD : Z := 3652059.    (* date.max = 9999-12-31 *)

Definition valid (d : date) : Prop := MINORD <= d <= MAXORD.

Definition in_range (n : Z) : bool := (MINORD <=? n) && (n <=? MAXORD).

Definition is_leap (year : Z) : bool :=
  (year mod 4 =? 0) && (negb (year mod 100 =? 0) || (year mod 400 =? 0)).

Definition days_before_year (year : Z) : Z :=
  let y := year - 1 in y * 365 + y / 4 - y / 100 + y / 400.

Definition DAYS_IN_MONTH : list Z :=
  [-1; 31; 28; 31; 30; 31; 30; 31; 31; 30; 31; 30; 31].

Definition DAYS_BEFORE_MONTH : list Z :=
  [-1; 0; 31; 59; 90; 120; 151; 181; 212; 243; 273; 304; 334].

Definition table (t : list Z) (month : Z) : Z := nth (Z.to_nat month) t (-1).

Definition days_in_month (year month : Z) : Z :=
  if (month =? 2) && is_leap year then 29 else table DAYS_IN_MONTH month.

Definition days_before_month (year month : Z) : Z :=
  table DAYS_BEFORE_MONTH month
  + (if (2 <? month) && is_leap year then 1 else 0).

Definition ymd2ord (year month day : Z) : Z :=
  days_before_year year + days_before_month year month + day.

Definition DI400Y : Z := 146097.
Definition DI100Y : Z := 36524.
Definition DI4Y : Z := 1461.

Definition ord2ymd (ordinal : Z) : Z * Z * Z :=
  let n := ordinal - 1 in
  let n400 := n / DI400Y in
  let n := n mod DI400Y in
  let year := n400 * 400 + 1 in
  let n100 := n / DI100Y in
  let n := n mod DI100Y in
  let n4 := n / DI4Y in
  let n := n mod DI4Y in
  let n1 := n / 365 in
  let n := n mod 365 in
  let year := year + n100 * 100 + n4 * 4 + n1 in
  if (n1 =? 4) || (n100 =? 4) then (year - 1, 12, 31)
  else
    let leapyear := (n1 =? 3) && (negb (n4 =? 24) || (n100 =? 3)) in
    let month := Z.shiftr (n + 50) 5 in
    let preceding :=
      table DAYS_BEFORE_MONTH month
      + (if (2 <? month) && leapyear then 1 else 0) in
    if n <? preceding then
      let month := month - 1 in
      let preceding :=
        preceding
        - (table DAYS_IN_MONTH month
           + (if (month =? 2) && leapyear then 1 else 0)) in
      (year, month, n - preceding + 1)
    else (year, month, n - preceding + 1).

(** [date(year, month, day)]; [ValueError] outside the calendar. *)
Definition mk (year month day : Z) : result date :=
  if (1 <=? year) && (year <=? 9999) && (1 <=? month) && (month <=? 12)
     && (1 <=? day) && (day <=? days_in_month year month)
  then Ok (ymd2ord year month day)
  else Raise ValueError.

(** [d + timedelta(days=n)]: [OverflowError] when the result leaves
    [date.min .. date.max] (this covers a [timedelta] too large to
    build, whose sum with a valid date is out of range as well). *)
Definition add_days (d : date) (n : Z) : result date :=
  if in_range (d + n) then Ok (d + n) else Raise OverflowError.

(** Decimal digits, least significant first taken [width] times. *)
Definition digit (n : Z) : ascii := ascii_of_nat (48 + Z.to_nat (n mod 10)).

Fixpoint zfill (width : nat) (n : Z) (acc : string) : string :=
  match width with
  | O => acc
  | S w => zfill w (n / 10) (String (digit n) acc)
  end.

(** [d.isoformat()], i.e. ["%04d-%02d-%02d"]. *)
Definition isoformat (d : date) : string :=
  let '(y, m, dd) := ord2ymd d in
  zfill 4 y (String "-" (zfill 2 m (String "-" (zfill 2 dd "")))).

(** The ordinal of 1970-01-01. *)
Definition EPOCH : date := 719163.

End PyDate.

Import PyDate.


(** ** Python values

    The values that [resp.json()] can return, and the scalars found in a
    column read by [pd.read_csv].  A [float] is an IEEE 754 binary64
    datum; a [str] is the sequence of its characters (code points below
    256); a [dict] is its list of entries, in insertion order. *)

Definition pyfloat := spec_float.

Definition float_of_Z (z : Z) : pyfloat := binary_normalize 53 1024 z 0 false.

Definition float_zero : pyfloat := S754_zero false.   (* the literal 0.0 *)

#[local] Set Warnings "-register-all".
Inductive pyval : Type :=
| PNone
| PBool (b : bool)
| PInt (z : Z)
| PFloat (f : pyfloat)
| PStr (s : string)
| PList (l : list pyval)
| PDict (kvs : list (string * pyval)).

Fixpoint dict_find (key : string) (kvs : list (string * pyval)) : option pyval :=
  match kvs with
  | [] => None
  | (k, v) :: rest => if String.eqb k key then Some v else dict_find key rest
  end.

(** [v[key]] for a string key. *)
Definition getitem (v : pyval) (key : string) : result pyval :=
  match v with
  | PDict kvs =>
      match dict_find key kvs with
      | Some x => Ok x
      | None => Raise KeyError
      end
  | _ => Raise TypeError
  end.

(** [v[0]]. *)
Definition getitem0 (v : pyval) : result pyval :=
  match v with
  | PList (x :: _) => Ok x
  | PList [] => Raise IndexError
  | PStr (String c _) => Ok (PStr (String c EmptyString))
  | PStr EmptyString => Raise IndexError
  | PDict _ => Raise KeyError          (* the keys of a decoded object are strings *)
  | _ => Raise TypeError
  end.

(** [v.get(key, default)]: only a [dict] has the method. *)
Definition py_get (v : pyval) (key : string) (default : pyval) : result pyval :=
  match v with
  | PDict kvs =>
      match dict_find key kvs with
      | Some x => Ok x
      | None => Ok default
      end
  | _ => Raise AttributeError
  end.

Definition truthy (v : pyval) : bool :=
  match v with
  | PNone => false
  | PBool b => b
  | PInt z => negb (z =? 0)
  | PFloat (S754_zero _) => false
  | PFloat _ => true
  | PStr EmptyString => false
  | PStr _ => true
  | PList [] => false
  | PList _ => true
  | PDict [] => false
  | PDict _ => true
  end.

(** [a or b]. *)
Definition py_or (a b : pyval) : pyval := if truthy a then a else b.

Fixpoint chars (s : string) : list pyval :=
  match s with
  | EmptyString => []
  | String c rest => PStr (String c EmptyString) :: chars rest
  end.

(** [iter(v)], as [zip] calls it on each argument. *)
Definition py_iter (v : pyval) : result (list pyval) :=
  match v with
  | PList l => Ok l
  | PStr s => Ok (chars s)
  | PDict kvs => Ok (map (fun kv => PStr (fst kv)) kvs)
  | _ => Raise TypeError
  end.

Definition is_none (v : pyval) : bool :=
  match v with PNone => true | _ => false end.

(** One element of [zip(timestamps, opens, highs, lows, closes, volumes)]. *)
Record candle : Type := mkcandle {
  c_t : pyval; c_o : pyval; c_h : pyval; c_l : pyval; c_c : pyval; c_v : pyval
}.

Fixpoint zip6 (ts os hs ls cs vs : list pyval) : list candle :=
  match ts, os, hs, ls, cs, vs with
  | t :: ts', o :: os', h :: hs', l :: ls', c :: cs', v :: vs' =>
      mkcandle t o h l c v :: zip6 ts' os' hs' ls' cs' vs'
  | _, _, _, _, _, _ => []
  end.

(** A stored row [(symbol, date, open, high, low, close, volume)]. *)
Record row : Type := mkrow {
  row_symbol : string;
  row_date : string;
  row_open : pyfloat;
  row_high : pyfloat;
  row_low : pyfloat;
  row_close : pyfloat;
  row_volume : pyfloat
}.

(** What [requests] is asked: the chart URL of [symbol] with
    [interval=1d] and the two period bounds, under a timeout of 10 s. *)
Record request : Type := mkrequest {
  req_symbol : string;
  req_period1 : Z;
  req_period2 : Z
}.

(** The outcome of [session.get(...)] followed by [resp.json()]. *)
Inductive response : Type :=
| RespRaise (e : pyexn)
| RespJson (data : pyval).

Definition try_except {A : Type} (body : result A) (handler : pyexn -> result A)
  : result A :=
  match body with
  | Ok a => Ok a
  | Raise e => handler e
  end.

(** ** Range fetcher *)

Section RangeFetcher.

(** The host on which the program runs. *)

(** [float(s)] on a string: [None] when Python raises [ValueError]. *)
Variable float_of_str : string -> option pyfloat.

(** [datetime.utcfromtimestamp(f).date()] on a float timestamp. *)
Variable utc_date_of_float : pyfloat -> result date.

(** [int(datetime(y, m, d).timestamp())]: the epoch second of the
    midnight that starts the day, in the time zone of the host. *)
Variable local_midnight : date -> Z.

(** The remote service, as seen through [session.get] and [resp.json]. *)
Variable remote : request -> response.

(** [float(v)]. *)
Definition py_float (v : pyval) : result pyfloat :=
  match v with
  | PFloat f => Ok f
  | PInt z =>
      match float_of_Z z with
      | S754_infinity _ => Raise OverflowError   (* int too large *)
      | f => Ok f
      end
  | PBool b => Ok (float_of_Z (if b then 1 else 0))
  | PStr s =>
      match float_of_str s with
      | Some f => Ok f
      | None => Raise ValueError
      end
  | PNone | PList _ | PDict _ => Raise TypeError
  end.

(** [datetime.utcfromtimestamp(z).date()] on an integer: the day that
    contains second [z] of the epoch; out of range it raises
    ([OverflowError] past the platform's [time_t], [ValueError] or
    [OSError] past year 9999 or before year 1). *)
Definition utc_date_of_int (z : Z) : result date :=
  if (- 2 ^ 63 <=? z) && (z <? 2 ^ 63) then
    let d := EPOCH + z / 86400 in
    if in_range d then Ok d else Raise ValueError
  else Raise OverflowError.

(** [datetime.utcfromtimestamp(t).date()]. *)
Definition utc_date (t : pyval) : result date :=
  match t with
  | PInt z => utc_date_of_int z
  | PBool b => utc_date_of_int (if b then 1 else 0)
  | PFloat f => utc_date_of_float f
  | PNone | PStr _ | PList _ | PDict _ => Raise TypeError
  end.

(** The body of the loop at lines 155-169: [None] is [continue]. *)
Definition row_of_candle (symbol : string) (k : candle) : result (option row) :=
  if is_none (c_o k) || is_none (c_h k) || is_none (c_l k) || is_none (c_c k)
  then Ok None
  else
    d <- utc_date (c_t k) ;;
    let dt_str := isoformat d in
    o <- py_float (c_o k) ;;
    h <- py_float (c_h k) ;;
    l <- py_float (c_l k) ;;
    c <- py_float (c_c k) ;;
    v <- (if is_none (c_v k) then Ok float_zero else py_float (c_v k)) ;;
    Ok (Some (mkrow symbol dt_str o h l c v)).

(** The loop itself; [rows] is the list built so far. *)
Fixpoint build_rows (symbol : string) (ks : list candle) (rows : list row)
  : result (list row) :=
  match ks with
  | [] => Ok rows
  | k :: rest =>
      r <- row_of_candle symbol k ;;
      match r with
      | None => build_rows symbol rest rows
      | Some x => build_rows symbol rest (rows ++ [x])
      end
  end.

(** The rows of the candles that the loop keeps, in order. *)
Definition kept (symbol : string) (ks : list candle) : list row :=
  flat_map (fun k => match row_of_candle symbol k with
                     | Ok (Some r) => [r]
                     | _ => []
                     end) ks.

(** Lines 141-146: the part of the payload the parser reads. *)
Definition extract (data : pyval) : result (pyval * pyval) :=
  chart <- getitem data "chart" ;;
  results <- getitem chart "result" ;;
  result0 <- getitem0 results ;;
  timestamps <- py_get result0 "timestamp" (PList []) ;;
  indicators <- getitem result0 "indicators" ;;
  quotes <- getitem indicators "quote" ;;
  quote <- getitem0 quotes ;;
  Ok (timestamps, quote).

(** [quote.get(name, []) or []]. *)
Definition column (quote : pyval) (name : string) : result pyval :=
  x <- py_get quote name (PList []) ;;
  Ok (py_or x (PList [])).

(** Lines 148-171. *)
Definition parse_rows (symbol : string) (timestamps quote : pyval)
  : result (list row) :=
  opens <- column quote "open" ;;
  highs <- column quote "high" ;;
  lows <- column quote "low" ;;
  closes <- column quote "close" ;;
  volumes <- column quote "volume" ;;
  ts <- py_iter timestamps ;;
  os <- py_iter opens ;;
  hs <- py_iter highs ;;
  ls <- py_iter lows ;;
  cs <- py_iter closes ;;
  vs <- py_iter volumes ;;
  build_rows symbol (zip6 ts os hs ls cs vs) [].

(** [yahoo_fetch_range_rows]: the requests issued, in order, and the
    rows returned or the exception that leaves the function. *)
Definition yahoo_fetch_range_rows (symbol : string) (start_dt end_dt : date)
  : list request * result (list row) :=
  if start_dt >=? end_dt then ([], Ok [])
  else
    let period1 := local_midnight start_dt in
    let period2 := local_midnight end_dt in
    let req := mkrequest symbol period1 period2 in
    match remote req with
    | RespRaise _ => ([req], Ok [])
    | RespJson data =>
        match extract data with
        | Raise _ => ([req], Ok [])
        | Ok (timestamps, quote) => ([req], parse_rows symbol timestamps quote)
        end
    end.

End RangeFetcher.

(** ** Window planner *)

(** A value of [plan["last_date"].tolist()]: the float NaN for an empty
    cell of the CSV file, a [str] for a text cell, a number or a boolean
    when the whole column reads as such. *)
Inductive cell : Type :=
| CellFloat (f : pyfloat)
| CellInt (z : Z)
| CellBool (b : bool)
| CellStr (s : string).

(** What [pd.to_datetime(s)] does on a string: a [Timestamp], the
    missing-value marker [NaT], or an exception. *)
Inductive pd_parse : Type :=
| PdTimestamp (d : date)
| PdNaT
| PdRaise (e : pyexn).

(** What [_normalize_last_date] can return: [None], a [datetime.date],
    or pandas' [NaT] (for [NaT.date()] is [NaT]). *)
Inductive last_date : Type :=
| NoDate
| ADate (d : date)
| NaT.

(** [pd.isna] on a scalar. *)
Definition pd_isna (raw : cell) : bool :=
  match raw with
  | CellFloat S754_nan => true
  | _ => false
  end.

(** [c.isspace()] for a code point below 256. *)
Definition isspace (c : ascii) : bool :=
  let n := nat_of_ascii c in
  ((9 <=? n) && (n <=? 13) || (28 <=? n) && (n <=? 32)
   || (n =? 133) || (n =? 160))%nat.

Fixpoint lstrip (s : string) : string :=
  match s with
  | EmptyString => EmptyString
  | String c rest => if isspace c then lstrip rest else s
  end.

Fixpoint rstrip (s : string) : string :=
  match s with
  | EmptyString => EmptyString
  | String c rest =>
      match rstrip rest with
      | EmptyString => if isspace c then EmptyString else String c EmptyString
      | rest' => String c rest'
      end
  end.

(** [s.strip()]. *)
Definition strip (s : string) : string := rstrip (lstrip s).

(** [c.lower()] for a code point below 256. *)
Definition lower_char (c : ascii) : ascii :=
  let n := nat_of_ascii c in
  if ((65 <=? n) && (n <=? 90)
      || (192 <=? n) && (n <=? 222) && negb (n =? 215))%nat
  then ascii_of_nat (n + 32)
  else c.

(** [s.lower()]. *)
Fixpoint lower (s : string) : string :=
  match s with
  | EmptyString => EmptyString
  | String c rest => String (lower_char c) (lower rest)
  end.

Fixpoint decimal (fuel : nat) (n : Z) (acc : string) : string :=
  match fuel with
  | O => acc
  | S fuel' =>
      let acc' := String (digit n) acc in
      if n <? 10 then acc' else decimal fuel' (n / 10) acc'
  end.

(** [str(z)] on an [int]. *)
Definition str_of_Z (z : Z) : string :=
  let a := Z.abs z in
  let digits := decimal (S (Z.to_nat (Z.log2 a))) a "" in
  if z <? 0 then String "-" digits else digits.

Section Planner.

(** [repr] of a float, which [str] uses. *)
Variable float_repr : pyfloat -> string.

(** pandas' parser. *)
Variable pd_to_datetime : string -> pd_parse.

(** [str(raw)]. *)
Definition py_str (raw : cell) : string :=
  match raw with
  | CellStr s => s
  | CellInt z => str_of_Z z
  | CellBool true => "True"
  | CellBool false => "False"
  | CellFloat f => float_repr f
  end.

(** [pd.to_datetime(s).date()]. *)
Definition to_datetime_date (s : string) : result last_date :=
  match pd_to_datetime s with
  | PdTimestamp d => Ok (ADate d)
  | PdNaT => Ok NaT
  | PdRaise e => Raise e
  end.

Definition _normalize_last_date (raw_last_date : cell) : result last_date :=
  if pd_isna raw_last_date then Ok NoDate
  else
    let s := strip (py_str raw_last_date) in
    if String.eqb s "" || String.eqb (lower s) "none" then Ok NoDate
    else
      try_except
        (dt <- to_datetime_date s ;; Ok dt)
        (fun _ => Ok NoDate).

End Planner.

(** [_compute_start_date], with the reading of [date.today()] as first
    argument.  Ordering [NaT] against a [datetime.date], which [max] does
    at line 110, is a [TypeError] in pandas. *)
Definition _compute_start_date (today : date) (last : last_date) (years_back : Z)
  : result date :=
  n_years_ago <- add_days today (- (365 * years_back)) ;;
  start <- match last with
           | NoDate => Ok n_years_ago
           | ADate d =>
               next <- add_days d 1 ;;
               Ok (Z.max next n_years_ago)
           | NaT => Raise TypeError
           end ;;
  if start >=? today then Ok today else Ok start.

Section FetchWorker.

Variable float_of_str : string -> option pyfloat.
Variable utc_date_of_float : pyfloat -> result date.
Variable local_midnight : date -> Z.
Variable remote : request -> response.
Variable float_repr : pyfloat -> string.
Variable pd_to_datetime : string -> pd_parse.

(** [fetch_worker]; [today_plan] is the day read by
    [_compute_start_date] and [today_end] the day read at line 179. *)
Definition fetch_worker (today_plan today_end : date)
           (symbol : string) (raw_last_date : cell)
  : list request * result (string * list row) :=
  match
    (last_dt <- _normalize_last_date float_repr pd_to_datetime raw_last_date ;;
     start_dt <- _compute_start_date today_plan last_dt 10 ;;
     end_dt <- add_days today_end 1 ;;
     Ok (start_dt, end_dt))
  with
  | Raise e => ([], Raise e)
  | Ok (start_dt, end_dt) =>
      if start_dt >=? end_dt then ([], Ok (symbol, []))
      else
        let '(calls, rows) :=
          yahoo_fetch_range_rows float_of_str utc_date_of_float
                                 local_midnight remote symbol start_dt end_dt in
        (calls, rows' <- rows ;; Ok (symbol, rows'))
  end.

End FetchWorker.

(** ** The store

    The table [prices], with [PRIMARY KEY(symbol, date)], is the list of
    its rows in insertion order. *)

Definition key : Type := string * string.

Definition row_key (r : row) : key := (row_symbol r, row_date r).

Definition key_eqb (a b : key) : bool :=
  String.eqb (fst a) (fst b) && String.eqb (snd a) (snd b).

Definition table : Type := list row.

Definition keys (t : table) : list key := map row_key t.

Definition has_key (k : key) (t : table) : bool :=
  existsb (fun r => key_eqb (row_key r) k) t.

(** [SELECT * FROM prices WHERE symbol = ? AND date = ?]. *)
Definition lookup (k : key) (t : table) : option row :=
  find (fun r => key_eqb (row_key r) k) t.

(** One [INSERT OR IGNORE INTO prices VALUES (...)]: a row whose key is
    taken is skipped. *)
Definition insert_or_ignore (r : row) (t : table) : table :=
  if has_key (row_key r) t then t else t ++ [r].

(** A connection of [sqlite3]: [committed] is the durable table,
    [working] the table as the connection sees it, with the changes of
    the transaction that the module opens before the first [INSERT] and
    that stays open until [commit]; [ops] counts the statements and
    commits run so far. *)
Record conn : Type := mkconn {
  committed : table;
  working : table;
  ops : nat
}.

Definition connect (store : table) : conn := mkconn store store 0.

(** What the writer prints. *)
Inductive message : Type :=
| BatchFailed (e : pyexn)        (* line 79 *)
| TotalWritten (n : Z).          (* line 83 *)

(** The writer thread: its connection, its counter, what it printed,
    and whether it left the loop and closed the connection. *)
Record writer : Type := mkwriter {
  w_conn : conn;
  total_written : Z;
  w_log : list message;
  w_closed : bool
}.

Section Writer.

(** The faults of the storage engine: [fault n] tells whether the
    [n]-th operation of the connection raises. *)
Variable fault : nat -> bool.

(** One statement of [executemany].  The values of a row are text and
    floats, which always bind, and the statement is [INSERT OR IGNORE],
    which no constraint aborts: what can fail is the engine.  SQLite
    reports a full disk, an I/O error or a lack of memory on such a
    statement after it has rolled the transaction back, and a locked or
    read-only database on the first write of a transaction, before any
    change; either way the connection is back at what is committed. *)
Definition execute (r : row) (c : conn) : conn * result unit :=
  if fault (ops c)
  then (mkconn (committed c) (committed c) (S (ops c)), Raise OperationalError)
  else (mkconn (committed c) (insert_or_ignore r (working c)) (S (ops c)), Ok tt).

(** [cur.executemany(sql, rows)]: one statement per row, stopping at
    the first that raises. *)
Fixpoint executemany (rows : list row) (c : conn) : conn * result unit :=
  match rows with
  | [] => (c, Ok tt)
  | r :: rest =>
      match execute r c with
      | (c', Ok _) => executemany rest c'
      | (c', Raise e) => (c', Raise e)
      end
  end.

(** [conn.commit()].  A commit that fails is rolled back by SQLite (in
    the WAL mode that line 51 sets, a commit does not wait for readers). *)
Definition commit (c : conn) : conn * result unit :=
  if fault (ops c)
  then (mkconn (committed c) (committed c) (S (ops c)), Raise OperationalError)
  else (mkconn (working c) (working c) (S (ops c)), Ok tt).

(** Whether the insert of a batch, or its commit, raises. *)
Definition batch_raises (rows : list row) (c : conn) : bool :=
  match executemany rows c with
  | (c1, Ok _) => raises (snd (commit c1))
  | (_, Raise _) => true
  end.

(** [conn.close()]: what was not committed is rolled back. *)
Definition close (c : conn) : conn :=
  mkconn (committed c) (committed c) (ops c).

(** One turn of the loop of [db_writer] on the item that [queue.get()]
    returned: [None] is the sentinel. *)
Definition writer_step (w : writer) (item : option (list row)) : writer :=
  match item with
  | None =>
      mkwriter (close (w_conn w)) (total_written w)
               (w_log w ++ [TotalWritten (total_written w)]) true
  | Some [] => w
  | Some rows =>
      match executemany rows (w_conn w) with
      | (c1, Raise e) =>
          mkwriter c1 (total_written w) (w_log w ++ [BatchFailed e]) false
      | (c1, Ok _) =>
          match commit c1 with
          | (c2, Raise e) =>
              mkwriter c2 (total_written w) (w_log w ++ [BatchFailed e]) false
          | (c2, Ok _) =>
              mkwriter c2 (total_written w + Z.of_nat (List.length rows))
                       (w_log w) false
          end
      end
  end.

(** The loop on the items that the queue delivers; when they run out
    the writer waits in [queue.get()], not closed. *)
Fixpoint writer_loop (items : list (option (list row))) (w : writer) : writer :=
  match items with
  | [] => w
  | item :: rest =>
      let w' := writer_step w item in
      if w_closed w' then w' else writer_loop rest w'
  end.

(** [db_writer] on a table [store] and the items of the queue.  The
    pragmas of lines 51-53 leave the rows alone. *)
Definition db_writer (store : table) (items : list (option (list row)))
  : writer :=
  writer_loop items (mkwriter (connect store) 0 [] false).

(** The table on disk. *)
Definition stored (w : writer) : table := committed (w_conn w).

(** The batches of a run, from the state [w] of the writer on, whose
    insert and commit did not raise (an empty batch is not inserted). *)
Fixpoint survivors (batches : list (list row)) (w : writer) : list (list row) :=
  match batches with
  | [] => []
  | b :: rest =>
      let later := survivors rest (writer_step w (Some b)) in
      match b with
      | [] => b :: later
      | _ => if batch_raises b (w_conn w) then later else b :: later
      end
  end.

End Writer.

(** The engine without faults. *)
Definition no_fault : nat -> bool := fun _ => false.

(** The table after the rows were inserted one by one. *)
Definition ingest (t : table) (rows : list row) : table :=
  fold_left (fun acc r => insert_or_ignore r acc) rows t.

(** What every connection of the writer satisfies: its view of the
    table has one row per key, what is committed is the initial table
    followed by new rows, and the view is what is committed followed by
    the rows of the open transaction. *)
Definition conn_ok (store : table) (c : conn) : Prop :=
  NoDup (keys (working c))
  /\ (exists added, committed c = store ++ added)
  /\ (exists pending, working c = committed c ++ pending).

(** ** The scheduler of [update_data] and the writer thread

    The threads of a run, interleaved: the tasks of the pool, the main
    thread (the loop over [as_completed], then [q.put(None)] and
    [writer_thread.join()]) and the writer thread. *)

(** A task submitted to the pool: still running, finished with the
    value or the exception that [fut.result()] will give, or already
    handed to the main thread by [as_completed]. *)
Inductive future : Type :=
| Running
| Finished (r : result (string * list row))
| Collected (r : result (string * list row)).

Definition completed_task (f : future) : Prop :=
  match f with Running => False | _ => True end.

Definition collected_task (f : future) : Prop :=
  match f with Collected _ => True | _ => False end.

(** Where the main thread is: in the [with] block, past [q.put(None)]
    and waiting in [join], or past [join]. *)
Inductive main_pc : Type := Collecting | Joining | Returned.

Record system : Type := mksystem {
  futures : list future;
  pc : main_pc;
  queue : list (option (list row));      (* the items of [q], oldest first *)
  wr : writer;
  total_rows : Z;
  completed : Z;
  sent : list (list row);                (* history: the batches put on [q] *)
  received : list (list row)             (* history: the batches the writer got *)
}.

Fixpoint set_nth {A : Type} (i : nat) (x : A) (l : list A) : list A :=
  match l, i with
  | [], _ => []
  | _ :: t, O => x :: t
  | h :: t, S j => h :: set_nth j x t
  end.

(** The state when the threads start: [n] tasks submitted, nothing on
    the queue, nothing written.  [step] and [reachable] below are the
    runs in which the set-up of the writer thread (lines 49-53) ends in
    the loop; [xstep] and [xreachable] further down start the thread
    before its set-up, which may raise. *)
Definition initial (store : table) (n : nat) : system :=
  mksystem (repeat Running n) Collecting []
           (mkwriter (connect store) 0 [] false) 0 0 [] [].

Section Run.

Variable fault : nat -> bool.

(** The capacity of the queue, [workers * 4]. *)
Variable maxsize : nat.

Inductive step : system -> system -> Prop :=
(* a task of the pool returns or raises *)
| step_finish (s : system) (i : nat) (r : result (string * list row)) :
    nth_error (futures s) i = Some Running ->
    step s (mksystem (set_nth i (Finished r) (futures s)) (pc s) (queue s)
                     (wr s) (total_rows s) (completed s) (sent s) (received s))
(* lines 237-243 with [n_rows > 0]: [q.put(rows)] waits for a free slot *)
| step_collect_rows (s : system) (i : nat) (sym : string) (rows : list row) :
    pc s = Collecting ->
    nth_error (futures s) i = Some (Finished (Ok (sym, rows))) ->
    rows <> [] ->
    (List.length (queue s) < maxsize)%nat ->
    step s (mksystem (set_nth i (Collected (Ok (sym, rows))) (futures s))
                     Collecting (queue s ++ [Some rows]) (wr s)
                     (total_rows s + Z.of_nat (List.length rows))
                     (completed s + 1) (sent s ++ [rows]) (received s))
(* lines 237-243 with [n_rows = 0] *)
| step_collect_empty (s : system) (i : nat) (sym : string) :
    pc s = Collecting ->
    nth_error (futures s) i = Some (Finished (Ok (sym, []))) ->
    step s (mksystem (set_nth i (Collected (Ok (sym, []))) (futures s))
                     Collecting (queue s) (wr s) (total_rows s)
                     (completed s + 1) (sent s) (received s))
(* lines 251-252: [fut.result()] raises *)
| step_collect_crash (s : system) (i : nat) (e : pyexn) :
    pc s = Collecting ->
    nth_error (futures s) i = Some (Finished (Raise e)) ->
    step s (mksystem (set_nth i (Collected (Raise e)) (futures s))
                     Collecting (queue s) (wr s) (total_rows s)
                     (completed s) (sent s) (received s))
(* line 254, once [as_completed] has yielded every future *)
| step_sentinel (s : system) :
    pc s = Collecting ->
    Forall collected_task (futures s) ->
    (List.length (queue s) < maxsize)%nat ->
    step s (mksystem (futures s) Joining (queue s ++ [None]) (wr s)
                     (total_rows s) (completed s) (sent s) (received s))
(* the writer takes the oldest item *)
| step_writer (s : system) (item : option (list row))
              (rest : list (option (list row))) :
    w_closed (wr s) = false ->
    queue s = item :: rest ->
    step s (mksystem (futures s) (pc s) rest (writer_step fault (wr s) item)
                     (total_rows s) (completed s) (sent s)
                     (match item with
                      | Some rows => received s ++ [rows]
                      | None => received s
                      end))
(* line 255 *)
| step_join (s : system) :
    pc s = Joining ->
    w_closed (wr s) = true ->
    step s (mksystem (futures s) Returned (queue s) (wr s)
                     (total_rows s) (completed s) (sent s) (received s)).

Inductive reachable (store : table) (n : nat) : system -> Prop :=
| reach_initial : reachable store n (initial store n)
| reach_step (s s' : system) :
    reachable store n s -> step s s' -> reachable store n s'.

End Run.

(** ** Hosts and services for the examples *)

(** A host whose time zone is UTC. *)
Definition utc_midnight (d : date) : Z := (d - EPOCH) * 86400.

Definition digit_value (c : ascii) : option Z :=
  let n := nat_of_ascii c in
  if ((48 <=? n) && (n <=? 57))%nat then Some (Z.of_nat n - 48) else None.

Fixpoint number (s : list ascii) (acc : Z) : option Z :=
  match s with
  | [] => Some acc
  | c :: rest =>
      match digit_value c with
      | Some v => number rest (10 * acc + v)
      | None => None
      end
  end.

(** The spellings that pandas reads as a missing timestamp. *)
Definition nat_strings : list string :=
  ["NaT"; "nat"; "NAT"; "nan"; "NaN"; "NAN"].

(** Modelled on pandas, for the two kinds of text the examples use: a
    spelling of [nat_strings] is read as [NaT], a day written
    [YYYY-MM-DD] as the [Timestamp] of that day; any other text is
    refused here. *)
Definition iso_to_datetime (s : string) : pd_parse :=
  if existsb (String.eqb s) nat_strings then PdNaT
  else
    match list_ascii_of_string s with
    | [y1; y2; y3; y4; "-"%char; m1; m2; "-"%char; d1; d2] =>
        match number [y1; y2; y3; y4] 0, number [m1; m2] 0, number [d1; d2] 0 with
        | Some y, Some m, Some d =>
            match mk y m d with
            | Ok x => PdTimestamp x
            | Raise e => PdRaise e
            end
        | _, _, _ => PdRaise ValueError
        end
    | _ => PdRaise ValueError
    end.

(** Stand-ins for the conversions that no example reaches. *)
Definition no_float_of_str : string -> option pyfloat := fun _ => None.
Definition no_utc_date_of_float : pyfloat -> result date := fun _ => Raise ValueError.
Definition no_float_repr : pyfloat -> string := fun _ => "nan".

(** A service that is down. *)
Definition unreachable : request -> response := fun _ => RespRaise RequestException.

(** A payload with the shape of the chart service: two days, the second
    without volume. *)
Definition sample_payload : pyval :=
  PDict [("chart", PDict [
    ("result", PList [PDict [
       ("timestamp", PList [PInt 1717200000; PInt 1717286400]);
       ("indicators", PDict [("quote", PList [PDict [
          ("open", PList [PInt 10; PInt 11]);
          ("high", PList [PInt 12; PInt 13]);
          ("low", PList [PInt 9; PInt 10]);
          ("close", PList [PInt 11; PInt 12]);
          ("volume", PList [PInt 1000; PNone])]])])]]);
    ("error", PNone)])].

Definition sample_service : request -> response := fun _ => RespJson sample_payload.

(** The same shape with [null] for the array of timestamps. *)
Definition null_timestamp_payload : pyval :=
  PDict [("chart", PDict [
    ("result", PList [PDict [
       ("timestamp", PNone);
       ("indicators", PDict [("quote", PList [PDict [
          ("open", PList [PInt 10]);
          ("high", PList [PInt 12]);
          ("low", PList [PInt 9]);
          ("close", PList [PInt 11]);
          ("volume", PList [PInt 1000])]])])]]);
    ("error", PNone)])].


(** The same shape with an array where a price is expected. *)
Definition nested_price_payload : pyval :=
  PDict [("chart", PDict [
    ("result", PList [PDict [
       ("timestamp", PList [PInt 1717200000]);
       ("indicators", PDict [("quote", PList [PDict [
          ("open", PList [PList [PInt 10]]);
          ("high", PList [PInt 12]);
          ("low", PList [PInt 9]);
          ("close", PList [PInt 11]);
          ("volume", PList [PInt 1000])]])])]]);
    ("error", PNone)])].

(** Rows for the examples; [row_a1_late] has the key of [row_a1] and
    other prices. *)
Definition row_a1 : row :=
  mkrow "A-USD" "2024-06-01" (float_of_Z 10) (float_of_Z 12) (float_of_Z 9)
        (float_of_Z 11) (float_of_Z 1000).
Definition row_a1_late : row :=
  mkrow "A-USD" "2024-06-01" (float_of_Z 20) (float_of_Z 22) (float_of_Z 19)
        (float_of_Z 21) (float_of_Z 2000).
Definition row_a2 : row :=
  mkrow "A-USD" "2024-06-02" (float_of_Z 11) (float_of_Z 13) (float_of_Z 10)
        (float_of_Z 12) float_zero.
Definition row_b1 : row :=
  mkrow "B-USD" "2024-06-01" (float_of_Z 5) (float_of_Z 6) (float_of_Z 4)
        (float_of_Z 5) (float_of_Z 70).

(** An engine whose [n]-th operation fails, and no other. *)
Definition fault_at (n : nat) : nat -> bool := fun m => Nat.eqb m n.

(** The invariant of a run.  The batches sent are those the writer got
    followed by those waiting in the queue; the sentinel is in the
    queue, as its last item, only once the main thread has left the
    [with] block, and the writer has closed only after taking it; the
    main thread leaves the block only when every future was collected;
    and the rows of a collected future were sent. *)
Definition run_inv (s : system) : Prop :=
  (exists waiting : list (list row),
      sent s = received s ++ waiting
      /\ match pc s, w_closed (wr s) with
         | Collecting, false => queue s = map Some waiting
         | Collecting, true => False
         | _, false => queue s = map Some waiting ++ [None]
         | _, true => queue s = [] /\ waiting = []
         end)
  /\ (pc s <> Collecting -> Forall collected_task (futures s))
  /\ (pc s = Returned -> w_closed (wr s) = true)
  /\ (forall i sym rows,
        nth_error (futures s) i = Some (Collected (Ok (sym, rows))) ->
        rows <> [] -> In rows (sent s)).

(** A run of one task that returns one row, up to the return of [join]. *)
Definition one_task_run : system :=
  mksystem [Collected (Ok ("A-USD", [row_a1]))] Returned []
           (db_writer no_fault [] [Some [row_a1]; None])
           1 1 [[row_a1]] [[row_a1]].

(** ** Payloads of the expected types *)

(** A price or a volume that [float] takes without reading text: [None]
    (which the loop tests before), a float, a boolean, or an integer
    within the range of floats. *)
Definition number_ok (v : pyval) : bool :=
  match v with
  | PNone | PFloat _ | PBool _ => true
  | PInt z =>
      match float_of_Z z with
      | S754_infinity _ => false
      | _ => true
      end
  | PStr _ | PList _ | PDict _ => false
  end.

(** An integer timestamp that falls on a day of the calendar. *)
Definition timestamp_ok (t : pyval) : bool :=
  match t with
  | PInt z => (- 2 ^ 63 <=? z) && (z <? 2 ^ 63) && in_range (EPOCH + z / 86400)
  | _ => false
  end.

(** A column of the quote that is absent, falsy, or a list of such
    numbers. *)
Definition column_ok (kvs : list (string * pyval)) (name : string) : bool :=
  match dict_find name kvs with
  | None => true
  | Some (PList l) => forallb number_ok l
  | Some v => negb (truthy v)
  end.

Definition candle_ok (k : candle) : bool :=
  timestamp_ok (c_t k) && number_ok (c_o k) && number_ok (c_h k)
  && number_ok (c_l k) && number_ok (c_c k) && number_ok (c_v k).

(** The names of the five columns of a quote. *)
Definition quote_columns : list string := ["open"; "high"; "low"; "close"; "volume"].

(** ** Batches of distinct symbols *)

(** No key is found in two batches of the list. *)
Definition key_disjoint (batches : list (list row)) : Prop :=
  forall k : key, (List.length (filter (has_key k) batches) <= 1)%nat.

(** The table that a run of the writer without failures leaves. *)
Definition table_after (store : table) (batches : list (list row)) : table :=
  stored (db_writer no_fault store (map Some batches ++ [None])).

(** ** Measures of a run *)

(** The rows that a task returned; none when it raised or still runs. *)
Definition task_rows (f : future) : list row :=
  match f with
  | Finished (Ok (_, rows)) | Collected (Ok (_, rows)) => rows
  | _ => []
  end.

(** The rows of a task that the main thread has counted. *)
Definition collected_rows (f : future) : list row :=
  match f with
  | Collected (Ok (_, rows)) => rows
  | _ => []
  end.

(** The batch that the main thread put on the queue for a task. *)
Definition batch_of (f : future) : list (list row) :=
  match f with
  | Collected (Ok (_, r :: rows)) => [r :: rows]
  | _ => []
  end.

(** A task that the main thread has counted as completed. *)
Definition counted (f : future) : nat :=
  match f with
  | Collected (Ok _) => 1
  | _ => 0
  end.

(** The steps that a task, the main thread and the queue still have to
    take: a running task finishes, is collected and may fill a slot of
    the queue; the main thread sends the sentinel and returns from
    [join]; the writer takes every item. *)
Definition future_weight (f : future) : nat :=
  match f with
  | Running => 3
  | Finished _ => 2
  | Collected _ => 0
  end.

Definition pc_weight (p : main_pc) : nat :=
  match p with
  | Collecting => 3
  | Joining => 1
  | Returned => 0
  end.

Definition steps_left (s : system) : nat :=
  list_sum (map future_weight (futures s)) + List.length (queue s) + pc_weight (pc s).

(** The states of a run, with the number of steps taken. *)
Inductive run (fault : nat -> bool) (maxsize : nat) (store : table) (n : nat) :
  nat -> system -> Prop :=
| run_initial : run fault maxsize store n 0 (initial store n)
| run_step (k : nat) (s s' : system) :
    run fault maxsize store n k s -> step fault maxsize s s' ->
    run fault maxsize store n (S k) s'.

(** ** Filter 1: the list of symbols *)

(** [c.isalpha()] for a code point below 256. *)
Definition isalpha_char (c : ascii) : bool :=
  let n := nat_of_ascii c in
  ((65 <=? n) && (n <=? 90) || (97 <=? n) && (n <=? 122)
   || (n =? 170) || (n =? 181) || (n =? 186)
   || (192 <=? n) && (n <=? 214) || (216 <=? n) && (n <=? 246)
   || (248 <=? n) && (n <=? 255))%nat.

Fixpoint all_alpha (s : string) : bool :=
  match s with
  | EmptyString => true
  | String c rest => isalpha_char c && all_alpha rest
  end.

(** [s.isalpha()]: every character is a letter, and there is one. *)
Definition isalpha (s : string) : bool :=
  match s with
  | EmptyString => false
  | _ => all_alpha s
  end.

(** [s.endswith(suffix)]. *)
Fixpoint endswith (s suffix : string) : bool :=
  String.eqb s suffix
  || match s with
     | EmptyString => false
     | String _ rest => endswith rest suffix
     end.

(** [s.split(sep)[0]] for a separator of one character: what comes
    before the first separator, all of [s] when there is none. *)
Fixpoint split_first (sep : ascii) (s : string) : string :=
  match s with
  | EmptyString => EmptyString
  | String c rest =>
      if Ascii.eqb c sep then EmptyString else String c (split_first sep rest)
  end.

(** [symbol.split("-")[0].strip()], lines 37 and 104. *)
Definition base_of (symbol : string) : string :=
  strip (split_first "-"%char symbol).

Definition _is_valid_symbol (symbol : string) : bool :=
  if negb (endswith symbol "-USD") then false
  else
    let base := base_of symbol in
    if String.eqb base "" then false
    else if negb (isalpha base) then false
    else true.

(** [x in s] for the set [seen_bases], kept as the list of its members,
    the last one added first. *)
Definition in_set (x : string) (s : list string) : bool :=
  existsb (String.eqb x) s.

Definition is_empty {A : Type} (l : list A) : bool :=
  match l with
  | [] => true
  | _ => false
  end.

(** [l[:n]]: a negative [n] counts from the end. *)
Definition py_prefix {A : Type} (l : list A) (n : Z) : list A :=
  if 0 <=? n then firstn (Z.to_nat n) l
  else firstn (List.length l - Z.to_nat (- n)) l.

(** [sorted] on integers. *)
Fixpoint insert_sorted (x : Z) (l : list Z) : list Z :=
  match l with
  | [] => [x]
  | y :: rest => if x <=? y then x :: l else y :: insert_sorted x rest
  end.

Definition sorted (l : list Z) : list Z := fold_right insert_sorted [] l.

(** The variables of [get_symbols], with the history of the pages asked
    for. *)
Record scrape : Type := mkscrape {
  final_symbols : list string;
  seen_bases : list string;
  current_page_idx : Z;
  total_pages_fetched : Z;
  requested : list Z                     (* history: the [start] of every request *)
}.

(** Lines 63-68: the starts of a batch, and the page index after it;
    [k] counts the turns of [range(batch_pages)] that are left. *)
Fixpoint batch_starts (k : nat) (idx max_pages : Z) : list Z * Z :=
  match k with
  | O => ([], idx)
  | S k' =>
      if idx >=? max_pages then ([], idx)
      else
        let '(starts, idx') := batch_starts k' (idx + 1) max_pages in
        (idx * 100 :: starts, idx')
  end.

(** Lines 101-113: the symbols of one page. *)
Fixpoint add_page (limit : Z) (page_symbols : list string)
         (final seen : list string) : list string * list string :=
  match page_symbols with
  | [] => (final, seen)
  | sym :: rest =>
      if negb (_is_valid_symbol sym) then add_page limit rest final seen
      else if in_set (base_of sym) seen then add_page limit rest final seen
      else
        let final' := final ++ [sym] in
        let seen' := base_of sym :: seen in
        if Z.of_nat (List.length final') >=? limit then (final', seen')
        else add_page limit rest final' seen'
  end.

(** The valid symbols of a list whose base was not met before, in
    their order: what a scan without a limit keeps. *)
Fixpoint fresh (seen : list string) (symbols : list string) : list string :=
  match symbols with
  | [] => []
  | sym :: rest =>
      if _is_valid_symbol sym && negb (in_set (base_of sym) seen)
      then sym :: fresh (base_of sym :: seen) rest
      else fresh seen rest
  end.

Section Scraper.

(** [_fetch_page(start, headers)]: the symbols that the page shows, or
    the exception of the request.  A start is asked for once in a run. *)
Variable _fetch_page : Z -> result (list string).

(** Lines 84-90: a page that failed counts as empty.  The futures
    complete in any order; [page_results] is a dict keyed by the start,
    so that order is not seen. *)
Definition page_result (start : Z) : list string :=
  match _fetch_page start with
  | Ok symbols_page => symbols_page
  | Raise _ => []
  end.

(** Lines 95-121: the pages of a batch, in the order of their starts. *)
Fixpoint add_pages (limit : Z) (starts : list Z) (final seen : list string)
         (any_data : bool) : list string * list string * bool :=
  match starts with
  | [] => (final, seen, any_data)
  | start :: rest =>
      let page_symbols := page_result start in
      let any_data := if is_empty page_symbols then any_data else true in
      let '(final', seen') := add_page limit page_symbols final seen in
      if Z.of_nat (List.length final') >=? limit then (final', seen', any_data)
      else add_pages limit rest final' seen' any_data
  end.

(** The [while] loop of lines 61-124; [None] when the fuel runs out. *)
Fixpoint scrape_loop (fuel : nat) (limit batch_pages max_pages : Z)
         (any_data : bool) (st : scrape) : option scrape :=
  if (Z.of_nat (List.length (final_symbols st)) <? limit) && any_data
     && (current_page_idx st <? max_pages)
  then
    match fuel with
    | O => None
    | S fuel' =>
        let '(starts, idx) :=
          batch_starts (Z.to_nat batch_pages) (current_page_idx st) max_pages in
        match starts with
        | [] => Some st
        | _ =>
            let '(final, seen, any_data') :=
              add_pages limit (sorted starts) (final_symbols st) (seen_bases st)
                        false in
            let st' :=
              mkscrape final seen idx
                       (total_pages_fetched st + Z.of_nat (List.length starts))
                       (requested st ++ starts) in
            if any_data'
            then scrape_loop fuel' limit batch_pages max_pages any_data' st'
            else Some st'
        end
    end
  else Some st.

(** [get_symbols(limit, batch_pages, max_pages)]: the starts asked for
    and the symbols of the frame that is written to [symbols.csv]. *)
Definition get_symbols (limit batch_pages max_pages : Z)
  : option (list Z * list string) :=
  match scrape_loop (S (Z.to_nat max_pages)) limit batch_pages max_pages true
                    (mkscrape [] [] 0 0 []) with
  | Some st => Some (requested st, py_prefix (final_symbols st) limit)
  | None => None
  end.

End Scraper.

(** A site of two pages for the examples; every other page is empty. *)
Definition two_pages (start : Z) : result (list string) :=
  if start =? 0 then Ok ["BTC-USD"; "ETH-USD"; "BTC-EUR-USD"; "1INCH-USD"]
  else if start =? 100 then Ok ["SOL-USD"; "ETH-USD"; "DOGE-EUR"]
  else Ok [].

(** The invariant of the loop of [get_symbols]: the symbols kept are
    the first [limit] fresh ones of the pages asked for, the set holds
    their bases, and the pages asked for are the first
    [current_page_idx]. *)
Definition scrape_inv (_fetch_page : Z -> result (list string))
           (limit max_pages : Z) (st : scrape) : Prop :=
  final_symbols st
  = firstn (Z.to_nat limit)
           (fresh [] (flat_map (page_result _fetch_page) (requested st)))
  /\ seen_bases st = rev (map base_of (final_symbols st))
  /\ requested st
     = map (fun j => Z.of_nat j * 100) (seq 0 (Z.to_nat (current_page_idx st)))
  /\ 0 <= current_page_idx st <= Z.max 0 max_pages
  /\ total_pages_fetched st = current_page_idx st.

(** Why the loop may end with fewer symbols than [limit]: the batch
    size is not positive; or every page up to [max_pages] was asked for;
    or the last batch, which is all of the [batch_pages] pages (or of
    the pages left up to [max_pages]) that follow whole batches, had
    nothing but empty or failed pages. *)
Definition gave_up (_fetch_page : Z -> result (list string))
           (batch_pages max_pages : Z) (reqs : list Z) : Prop :=
  batch_pages <= 0
  \/ max_pages <= Z.of_nat (List.length reqs)
  \/ exists earlier batch,
      reqs = earlier ++ batch
      /\ 0 < batch_pages
      /\ (exists j : nat, Z.of_nat (List.length earlier) = Z.of_nat j * batch_pages)
      /\ Z.of_nat (List.length earlier) < max_pages
      /\ Z.of_nat (List.length batch)
         = Z.min batch_pages (max_pages - Z.of_nat (List.length earlier))
      /\ Forall (fun start => page_result _fetch_page start = []) batch.

(** ** Filter 2: the download plan *)

(** The greater of two dates in the order of their bytes, the order in
    which SQLite compares the values of a TEXT column. *)
Definition later (acc : option string) (d : string) : option string :=
  match acc with
  | None => Some d
  | Some m => if String.ltb m d then Some d else Some m
  end.

Definition max_step (sym : string) (acc : option string) (r : row) : option string :=
  if String.eqb (row_symbol r) sym then later acc (row_date r) else acc.

(** [SELECT MAX(date) FROM prices WHERE symbol = ?], as [row[0]] of the
    row that [fetchone] returns: [None] for NULL, when the symbol has no
    row. *)
Definition select_max_date (t : table) (sym : string) : option string :=
  fold_left (max_step sym) t None.

(** Lines 44-52 of [get_existing_status]: one row of the plan per
    symbol, in the order of [symbols.csv]; [None] is [pd.NA]. *)
Definition get_existing_status (symbols : list string) (t : table)
  : list (string * option string) :=
  map (fun sym => (sym, select_max_date t sym)) symbols.

(** The order of the calendar on year, month and day. *)
Definition ymd_lt (p q : Z * Z * Z) : Prop :=
  let '(y1, m1, d1) := p in
  let '(y2, m2, d2) := q in
  y1 < y2 \/ (y1 = y2 /\ (m1 < m2 \/ (m1 = m2 /\ d1 < d2))).

(** A row whose date is the text of a day of the calendar, as the rows
    of line 159 are. *)
Definition iso_dated (r : row) : Prop :=
  exists d : date, valid d /\ row_date r = isoformat d.

(** ** The read side: latest price and change of every symbol *)

(** A row of the query of [load_latest_and_change_all]: symbol, date,
    close and volume, for a table whose closes and volumes are REAL or
    NULL, as in the rows that [db_writer] stores; [None] is NULL, which
    is also what SQLite keeps of a NaN. *)
Record qrow : Type := mkqrow {
  q_symbol : string;
  q_date : string;
  q_close : option pyfloat;
  q_volume : option pyfloat
}.

(** [ORDER BY symbol ASC, date DESC], in the order of the bytes. *)
Definition row_before (a b : qrow) : Prop :=
  String.ltb (q_symbol a) (q_symbol b) = true
  \/ (q_symbol a = q_symbol b /\ String.leb (q_date b) (q_date a) = true).

(** A dict with [str] keys, in the order of insertion. *)
Fixpoint assoc_find {A : Type} (k : string) (d : list (string * A)) : option A :=
  match d with
  | [] => None
  | (k', v) :: rest => if String.eqb k' k then Some v else assoc_find k rest
  end.

Definition has_symbol (s : string) (r : qrow) : bool := String.eqb (q_symbol r) s.

(** [x != 0] on floats. *)
Definition nonzero (f : pyfloat) : bool :=
  match f with
  | S754_zero _ => false
  | _ => true
  end.

(** A row at which the scan for the previous close stops: its close is
    not zero, or is NULL, on which [float] raises. *)
Definition stops_scan (r : qrow) : bool :=
  match q_close r with
  | Some c => nonzero c
  | None => true
  end.

(** The variables of the loop of lines 57-72. *)
Record scan : Type := mkscan {
  latest : list (string * (pyfloat * string));
  changes : list (string * pyfloat);
  current_symbol : option string;
  last_close : option pyfloat
}.

Section ReadSide.

(** [f"{round(volume / 1_000_000, 2)}M"]. *)
Variable vol_text : pyfloat -> string.

(** [round(((last_close - prev_close) / prev_close) * 100, 2)]. *)
Variable pct_change : pyfloat -> pyfloat -> pyfloat.

(** The body of the loop, lines 58-72; [float(None)] and
    [None / 1_000_000] raise [TypeError]. *)
Definition scan_row (st : scan) (r : qrow) : result scan :=
  let symbol := q_symbol r in
  let st :=
    match current_symbol st with
    | Some s =>
        if String.eqb symbol s then st
        else mkscan (latest st) (changes st) (Some symbol) None
    | None => mkscan (latest st) (changes st) (Some symbol) None
    end in
  match assoc_find symbol (latest st) with
  | None =>
      match q_close r, q_volume r with
      | Some close, Some volume =>
          Ok (mkscan (latest st ++ [(symbol, (close, vol_text volume))])
                     (changes st) (current_symbol st) (Some close))
      | _, _ => Raise TypeError
      end
  | Some _ =>
      match assoc_find symbol (changes st), last_close st with
      | None, Some last =>
          match q_close r with
          | Some prev_close =>
              if nonzero prev_close
              then Ok (mkscan (latest st)
                              (changes st ++ [(symbol, pct_change last prev_close)])
                              (current_symbol st) (last_close st))
              else Ok st
          | None => Raise TypeError
          end
      | _, _ => Ok st
      end
  end.

Fixpoint scan_rows (st : scan) (rows : list qrow) : result scan :=
  match rows with
  | [] => Ok st
  | r :: rest => st' <- scan_row st r ;; scan_rows st' rest
  end.

(** [load_latest_and_change_all()].  [fetched] is what lines 42-49 give:
    the rows that [fetchall] returns, or the exception of [connect] or
    of [execute] ([sqlite3.OperationalError] when the table [prices]
    does not exist), which leaves the function. *)
Definition load_latest_and_change_all (fetched : result (list qrow))
  : result (list (string * (pyfloat * string)) * list (string * pyfloat)) :=
  rows <- fetched ;;
  st <- scan_rows (mkscan [] [] None None) rows ;;
  Ok (latest st, changes st).

(** What [latest] holds for a symbol after the rows [p]. *)
Definition latest_spec (p : list qrow) (s : string)
           (entry : option (pyfloat * string)) : Prop :=
  match find (has_symbol s) p with
  | None => entry = None
  | Some r =>
      exists close volume,
        q_close r = Some close /\ q_volume r = Some volume
        /\ entry = Some (close, vol_text volume)
  end.

(** What [changes] holds for a symbol after the rows [p]. *)
Definition changes_spec (p : list qrow) (s : string)
           (entry : option pyfloat) : Prop :=
  match filter (has_symbol s) p with
  | [] => entry = None
  | first :: rest =>
      match find stops_scan rest with
      | None => entry = None
      | Some prev =>
          exists last_c prev_close,
            q_close first = Some last_c /\ q_close prev = Some prev_close
            /\ entry = Some (pct_change last_c prev_close)
      end
  end.

(** The invariant of the loop, after the rows [p]. *)
Definition scan_inv (p : list qrow) (st : scan) : Prop :=
  current_symbol st = option_map q_symbol (last (map Some p) None)
  /\ (forall s, latest_spec p s (assoc_find s (latest st)))
  /\ (forall s, changes_spec p s (assoc_find s (changes st)))
  /\ (forall r, last (map Some p) None = Some r ->
                exists first close,
                  find (has_symbol (q_symbol r)) p = Some first
                  /\ q_close first = Some close
                  /\ last_close st = Some close).

End ReadSide.

(** Rows of two symbols for the examples, as the query orders them; the
    close of the day before the latest day of the first symbol is
    zero. *)
Definition sample_rows : list qrow :=
  [mkqrow "A-USD" "2024-06-03" (Some (float_of_Z 12)) (Some (float_of_Z 3000000));
   mkqrow "A-USD" "2024-06-02" (Some float_zero) (Some (float_of_Z 2000000));
   mkqrow "A-USD" "2024-06-01" (Some (float_of_Z 10)) (Some (float_of_Z 1000000));
   mkqrow "B-USD" "2024-06-03" (Some (float_of_Z 5)) (Some (float_of_Z 70))].

Definition sample_vol_text : pyfloat -> string := fun _ => "M".
Definition sample_pct_change : pyfloat -> pyfloat -> pyfloat := fun last _ => last.

(** ** The start of [update_data] *)

(** The frame that [pd.read_csv] returns, by the two columns that
    [update_data] reads; [None] when the frame has no such column. *)
Record dataframe : Type := mkframe {
  df_symbol : option (list cell);
  df_last_date : option (list cell)
}.

(** What [update_data] raises before the pool runs: [FileNotFoundError],
    or an exception of [pyexn]. *)
Inductive setup_error : Type :=
| FileNotFoundError
| Raised (e : pyexn).

(** What [update_data] has done before the pool runs. *)
Inductive setup_event : Type :=
| EnsureDb                       (* line 200 *)
| WriterStarted (maxsize : Z).   (* lines 220-223 *)

Inductive setup_outcome : Type :=
| SetupRaise (e : setup_error)
| NothingToDo                                                  (* line 207 *)
| PoolStarted (workers maxsize : Z) (tasks : list (string * cell)).

(** Lines 193-233, up to the submission of the tasks.  [plan] is [None]
    when the file is missing, and the result of [pd.read_csv] otherwise;
    [cpu_count] is what [os.cpu_count()] returns, a positive number or
    [None]; [ThreadPoolExecutor] raises [ValueError] when [max_workers]
    is not positive. *)
Definition update_data_setup (float_repr : pyfloat -> string)
           (plan : option (result dataframe)) (workers : option Z)
           (cpu_count : option positive)
  : list setup_event * setup_outcome :=
  match plan with
  | None => ([], SetupRaise FileNotFoundError)
  | Some (Raise e) => ([], SetupRaise (Raised e))
  | Some (Ok frame) =>
      match df_symbol frame with
      | None => ([], SetupRaise (Raised ValueError))
      | Some column =>
          let symbols := map (py_str float_repr) column in
          match df_last_date frame with
          | None => ([EnsureDb], SetupRaise (Raised KeyError))
          | Some last_dates =>
              if is_empty symbols then ([EnsureDb], NothingToDo)
              else
                let workers :=
                  match workers with
                  | Some w => w
                  | None =>
                      let cpu :=
                        match cpu_count with
                        | Some c => Z.pos c
                        | None => 4
                        end in
                      cpu * 4
                  end in
                let workers := Z.min workers (Z.of_nat (List.length symbols)) in
                let events := [EnsureDb; WriterStarted (workers * 4)] in
                if workers <=? 0 then (events, SetupRaise (Raised ValueError))
                else (events,
                      PoolStarted workers (workers * 4) (combine symbols last_dates))
          end
      end
  end.

(** ** The shape of a payload *)

(** The payloads that lines 141-146 read without an exception: an
    object with an object under [chart], whose [result] is a list that
    starts with an object; this object has an object under
    [indicators], whose [quote] is a list, or a text, that is not empty.
    [timestamps] is what is under [timestamp], the empty list when the
    key is absent, and [quote] is the first quote. *)
Definition payload_shape (data timestamps quote : pyval) : Prop :=
  exists kvs ckvs rest rkvs ikvs quotes,
    data = PDict kvs
    /\ dict_find "chart" kvs = Some (PDict ckvs)
    /\ dict_find "result" ckvs = Some (PList (PDict rkvs :: rest))
    /\ timestamps = match dict_find "timestamp" rkvs with
                    | Some t => t
                    | None => PList []
                    end
    /\ dict_find "indicators" rkvs = Some (PDict ikvs)
    /\ dict_find "quote" ikvs = Some quotes
    /\ ((exists others, quotes = PList (quote :: others))
        \/ (exists c s, quotes = PStr (String c s)
                        /\ quote = PStr (String c EmptyString))).

(** The answer of the chart service for a symbol that it does not
    know. *)
Definition error_payload : pyval :=
  PDict [("chart", PDict [
    ("result", PNone);
    ("error", PDict [("code", PStr "Not Found");
                     ("description", PStr "No data found, symbol may be delisted")])])].

(** ** The writer thread from its start *)

(** The writer thread: in its set-up (lines 49-53: [connect], the two
    PRAGMAs and [commit], which are outside every [try]), in its loop,
    or dead, when the set-up raised. *)
Inductive thread : Type := Starting | Looping | Dead.

Definition with_pc (p : main_pc) (s : system) : system :=
  mksystem (futures s) p (queue s) (wr s) (total_rows s) (completed s)
           (sent s) (received s).

(** The steps of [step] by the thread that takes them: the writer takes
    an item off the queue; the main thread returns from [join]; every
    other step is of a task or of the main thread in the [with] block. *)
Definition writer_move (s s' : system) : Prop :=
  exists item, queue s = item :: queue s'.

Definition join_move (s s' : system) : Prop :=
  pc s = Joining /\ pc s' = Returned.

Section RunFromStart.

Variable fault : nat -> bool.
Variable maxsize : nat.

(** A run from the start of the writer thread (line 223).  The set-up
    ends in the loop or raises; a dead thread takes no item, and [join]
    returns at once on it; the writer of [initial] stands for the table
    as it is while the thread has not taken an item. *)
Inductive xstep : thread -> system -> thread -> system -> Prop :=
| xstep_setup_ok (s : system) : xstep Starting s Looping s
| xstep_setup_raises (s : system) : xstep Starting s Dead s
| xstep_pool (th : thread) (s s' : system) :
    step fault maxsize s s' -> ~ writer_move s s' -> ~ join_move s s' ->
    xstep th s th s'
| xstep_writer (s s' : system) :
    step fault maxsize s s' -> writer_move s s' ->
    xstep Looping s Looping s'
| xstep_join (th : thread) (s s' : system) :
    step fault maxsize s s' -> join_move s s' ->
    xstep th s th s'
| xstep_join_dead (s : system) :
    pc s = Joining ->
    xstep Dead s Dead (with_pc Returned s).

Inductive xreachable (store : table) (n : nat) : thread -> system -> Prop :=
| xreach_initial : xreachable store n Starting (initial store n)
| xreach_step (th th' : thread) (s s' : system) :
    xreachable store n th s -> xstep th s th' s' ->
    xreachable store n th' s'.

End RunFromStart.

(** A run of one task with a queue of one item in which the writer
    thread died: the batch fills the queue, and the main thread waits
    for a free slot to put the sentinel. *)
Definition blocked_run : system :=
  mksystem [Collected (Ok ("A-USD", [row_a1]))] Collecting [Some [row_a1]]
           (mkwriter (connect []) 0 [] false) 1 1 [[row_a1]] [].

(** * Properties *)

(** ** Dates *)

Example ord_2024_06_01 : ymd2ord 2024 6 1 = 739038.
Proof. reflexivity. Qed.

Example iso_2024_06_01 : isoformat 739038 = "2024-06-01".
Proof. reflexivity. Qed.

(** The two conversions agree on the days that the examples use. *)
Example ord2ymd_examples :
  ord2ymd (ymd2ord 2014 6 2) = (2014, 6, 2)
  /\ ord2ymd (ymd2ord 2014 6 4) = (2014, 6, 4)
  /\ ord2ymd (ymd2ord 2024 5 30) = (2024, 5, 30)
  /\ ord2ymd (ymd2ord 2024 5 31) = (2024, 5, 31)
  /\ ord2ymd (ymd2ord 2024 6 1) = (2024, 6, 1)
  /\ ord2ymd (ymd2ord 2024 6 2) = (2024, 6, 2)
  /\ ord2ymd MINORD = (1, 1, 1)
  /\ ord2ymd MAXORD = (9999, 12, 31)
  /\ ord2ymd EPOCH = (1970, 1, 1).
Proof. repeat split. Qed.

Lemma in_range_valid (n : Z) : in_range n = true <-> valid n.
Proof.
  unfold in_range, valid. rewrite andb_true_iff, !Z.leb_le. tauto.
Qed.

Lemma add_days_valid (d n : Z) : valid (d + n) -> add_days d n = Ok (d + n).
Proof.
  intros H. unfold add_days. apply in_range_valid in H. now rewrite H.
Qed.

Lemma add_days_raises (d n : Z) : ~ valid (d + n) -> add_days d n = Raise OverflowError.
Proof.
  intros H. unfold add_days. destruct (in_range (d + n)) eqn:E; [|reflexivity].
  apply in_range_valid in E. contradiction.
Qed.

(** ** Window planner *)

(** What [_compute_start_date] returns, in closed form. *)
Lemma compute_start_date_present (today wm years_back : Z) :
  valid (today - 365 * years_back) -> valid (wm + 1) ->
  _compute_start_date today (ADate wm) years_back
  = Ok (Z.min today (Z.max (wm + 1) (today - 365 * years_back))).
Proof.
  intros Hh Hw. unfold _compute_start_date.
  replace (today + - (365 * years_back)) with (today - 365 * years_back)
    in * by lia.
  assert (E : add_days today (- (365 * years_back)) = Ok (today - 365 * years_back)).
  { replace (today - 365 * years_back) with (today + - (365 * years_back)) by lia.
    apply add_days_valid.
    now replace (today + - (365 * years_back)) with (today - 365 * years_back) by lia. }
  rewrite E. cbn [bind]. rewrite (add_days_valid _ _ Hw). cbn [bind].
  rewrite Z.geb_leb.
  destruct (Z.leb_spec today (Z.max (wm + 1) (today - 365 * years_back)));
    f_equal; lia.
Qed.

Lemma compute_start_date_absent (today years_back : Z) :
  valid (today - 365 * years_back) ->
  _compute_start_date today NoDate years_back
  = Ok (Z.min today (today - 365 * years_back)).
Proof.
  intros Hh. unfold _compute_start_date.
  assert (E : add_days today (- (365 * years_back)) = Ok (today - 365 * years_back)).
  { replace (today - 365 * years_back) with (today + - (365 * years_back)) by lia.
    apply add_days_valid.
    now replace (today + - (365 * years_back)) with (today - 365 * years_back) by lia. }
  rewrite E. cbn [bind]. rewrite Z.geb_leb.
  destruct (Z.leb_spec today (today - 365 * years_back)); f_equal; lia.
Qed.

(** The start never lies after the day the planner read. *)
Lemma compute_start_date_le_today (today : date) (last : last_date) (years_back start : Z) :
  _compute_start_date today last years_back = Ok start -> start <= today.
Proof.
  unfold _compute_start_date.
  destruct (add_days today (- (365 * years_back))) as [h|]; cbn [bind]; [|discriminate].
  destruct last as [|d|]; cbn [bind].
  - rewrite Z.geb_leb. destruct (Z.leb_spec today h); intros [= <-]; lia.
  - destruct (add_days d 1) as [nx|]; cbn [bind]; [|discriminate].
    rewrite Z.geb_leb. destruct (Z.leb_spec today (Z.max nx h)); intros [= <-]; lia.
  - discriminate.
Qed.

(** ** Range fetcher *)

Section RangeFetcherProperties.

Variable float_of_str : string -> option pyfloat.
Variable utc_date_of_float : pyfloat -> result date.
Variable local_midnight : date -> Z.
Variable remote : request -> response.

Local Abbreviation fetch :=
  (yahoo_fetch_range_rows float_of_str utc_date_of_float local_midnight remote).
Local Abbreviation candle_row := (row_of_candle float_of_str utc_date_of_float).
Local Abbreviation rows_of := (build_rows float_of_str utc_date_of_float).
Local Abbreviation kept := (kept float_of_str utc_date_of_float).

(** A window that is not degenerate costs exactly one request. *)
Lemma fetch_requests (symbol : string) (start_dt end_dt : date) :
  start_dt < end_dt ->
  fst (fetch symbol start_dt end_dt)
  = [mkrequest symbol (local_midnight start_dt) (local_midnight end_dt)].
Proof.
  intros H. unfold yahoo_fetch_range_rows.
  rewrite Z.geb_leb. destruct (Z.leb_spec end_dt start_dt); [lia|].
  destruct (remote _) as [e|data]; [reflexivity|].
  destruct (extract data) as [[ts q]|e]; reflexivity.
Qed.

(** A failure of the transport or of the decoding gives no rows. *)
Lemma fetch_transport_error (symbol : string) (start_dt end_dt : date) (e : pyexn) :
  start_dt < end_dt ->
  remote (mkrequest symbol (local_midnight start_dt) (local_midnight end_dt))
  = RespRaise e ->
  snd (fetch symbol start_dt end_dt) = Ok [].
Proof.
  intros H E. unfold yahoo_fetch_range_rows.
  rewrite Z.geb_leb. destruct (Z.leb_spec end_dt start_dt); [lia|].
  now rewrite E.
Qed.

(** A payload without the expected keys gives no rows. *)
Lemma fetch_missing_keys (symbol : string) (start_dt end_dt : date)
      (data : pyval) (e : pyexn) :
  start_dt < end_dt ->
  remote (mkrequest symbol (local_midnight start_dt) (local_midnight end_dt))
  = RespJson data ->
  extract data = Raise e ->
  snd (fetch symbol start_dt end_dt) = Ok [].
Proof.
  intros H E X. unfold yahoo_fetch_range_rows.
  rewrite Z.geb_leb. destruct (Z.leb_spec end_dt start_dt); [lia|].
  now rewrite E, X.
Qed.

Lemma build_rows_kept (symbol : string) (ks : list candle) :
  forall acc rows,
    rows_of symbol ks acc = Ok rows -> rows = acc ++ kept symbol ks.
Proof.
  induction ks as [|k ks IH]; intros acc rows; cbn.
  - intros [= <-]. now rewrite app_nil_r.
  - unfold kept; cbn [flat_map]; fold kept.
    destruct (row_of_candle float_of_str utc_date_of_float symbol k)
      as [[r|]|e]; cbn [bind]; intros H.
    + apply IH in H. now rewrite H, <- app_assoc.
    + now apply IH in H.
    + discriminate.
Qed.





(** [zip] stops at the shortest column: without volumes no candle is
    paired, whatever the other columns hold. *)
Lemma zip6_no_volume (ts os hs ls cs : list pyval) : zip6 ts os hs ls cs [] = [].
Proof.
  destruct ts as [|t ts]; [reflexivity|]. destruct os as [|o os]; [reflexivity|].
  destruct hs as [|h hs]; [reflexivity|]. destruct ls as [|l ls]; [reflexivity|].
  destruct cs as [|c cs]; reflexivity.
Qed.

(** What the parser returns is the rows of the candles kept among those
    that [zip] pairs up from the six columns. *)
Lemma parse_rows_kept (symbol : string) (timestamps quote : pyval) (rows : list row) :
  parse_rows float_of_str utc_date_of_float symbol timestamps quote = Ok rows ->
  exists ts os hs ls cs vs,
    py_iter timestamps = Ok ts
    /\ (x <- column quote "open" ;; py_iter x) = Ok os
    /\ (x <- column quote "high" ;; py_iter x) = Ok hs
    /\ (x <- column quote "low" ;; py_iter x) = Ok ls
    /\ (x <- column quote "close" ;; py_iter x) = Ok cs
    /\ (x <- column quote "volume" ;; py_iter x) = Ok vs
    /\ rows = kept symbol (zip6 ts os hs ls cs vs).
Proof.
  unfold parse_rows.
  destruct (column quote "open") as [opens|]; cbn [bind]; [|discriminate].
  destruct (column quote "high") as [highs|]; cbn [bind]; [|discriminate].
  destruct (column quote "low") as [lows|]; cbn [bind]; [|discriminate].
  destruct (column quote "close") as [closes|]; cbn [bind]; [|discriminate].
  destruct (column quote "volume") as [volumes|]; cbn [bind]; [|discriminate].
  destruct (py_iter timestamps) as [ts|]; cbn [bind]; [|discriminate].
  destruct (py_iter opens) as [os|]; cbn [bind]; [|discriminate].
  destruct (py_iter highs) as [hs|]; cbn [bind]; [|discriminate].
  destruct (py_iter lows) as [ls|]; cbn [bind]; [|discriminate].
  destruct (py_iter closes) as [cs|]; cbn [bind]; [|discriminate].
  destruct (py_iter volumes) as [vs|]; cbn [bind]; [|discriminate].
  intros H. apply build_rows_kept in H. exists ts, os, hs, ls, cs, vs.
  repeat split. exact H.
Qed.





(** C9.  On a window with [start_dt >= end_dt] the fetcher returns the
    empty list at once, and issues no request. *)
Theorem C9_degenerate_window (symbol : string) (start_dt end_dt : date) :
  start_dt >= end_dt ->
  fetch symbol start_dt end_dt = ([], Ok []).
Proof.
  intros H. unfold yahoo_fetch_range_rows.
  rewrite Z.geb_leb. destruct (Z.leb_spec end_dt start_dt); [reflexivity|lia].
Qed.

(** C3, at a payload whose array of timestamps is [null] and at one
    where a price is an array: the request is made, the payload has
    every expected key, and the [TypeError] of line 155, or of line
    163, leaves the fetcher. *)
Theorem C3_fetcher_raises :
  yahoo_fetch_range_rows float_of_str utc_date_of_float local_midnight
                         (fun _ => RespJson null_timestamp_payload)
                         "BTC-USD" (ymd2ord 2024 6 1) (ymd2ord 2024 6 2)
  = ([mkrequest "BTC-USD" (local_midnight (ymd2ord 2024 6 1))
                (local_midnight (ymd2ord 2024 6 2))],
     Raise TypeError)
  /\ yahoo_fetch_range_rows float_of_str utc_date_of_float local_midnight
                            (fun _ => RespJson nested_price_payload)
                            "BTC-USD" (ymd2ord 2024 6 1) (ymd2ord 2024 6 2)
     = ([mkrequest "BTC-USD" (local_midnight (ymd2ord 2024 6 1))
                   (local_midnight (ymd2ord 2024 6 2))],
        Raise TypeError).
Proof. split; reflexivity. Qed.

End RangeFetcherProperties.



Lemma C9_degenerate_window_witness :
  ymd2ord 2024 6 2 >= ymd2ord 2024 6 2
  /\ yahoo_fetch_range_rows no_float_of_str no_utc_date_of_float utc_midnight
                            sample_service "BTC-USD"
                            (ymd2ord 2024 6 2) (ymd2ord 2024 6 2)
     = ([], Ok []).
Proof.
  split.
  - vm_compute. discriminate.
  - apply C9_degenerate_window. vm_compute. discriminate.
Defined.

(** ** Normalisation of the watermark *)

Section PlannerProperties.

Variable float_of_str : string -> option pyfloat.
Variable utc_date_of_float : pyfloat -> result date.
Variable local_midnight : date -> Z.
Variable remote : request -> response.
Variable float_repr : pyfloat -> string.
Variable pd_to_datetime : string -> pd_parse.

Local Abbreviation normalize := (_normalize_last_date float_repr pd_to_datetime).
Local Abbreviation worker :=
  (fetch_worker float_of_str utc_date_of_float local_midnight remote
                float_repr pd_to_datetime).

(** [_normalize_last_date] never raises. *)
Lemma normalize_total (raw : cell) : exists v, normalize raw = Ok v.
Proof.
  unfold _normalize_last_date, to_datetime_date.
  destruct (pd_isna raw); [now exists NoDate|].
  destruct (_ || _); [now exists NoDate|].
  destruct (pd_to_datetime _) as [d| |e]; cbn; eauto.
Qed.

(** It returns [None] on NaN, on blank text, on any spelling of
    [none], and on text that pandas refuses. *)
Lemma normalize_nan : normalize (CellFloat S754_nan) = Ok NoDate.
Proof. reflexivity. Qed.

Lemma normalize_blank (raw : cell) :
  strip (py_str float_repr raw) = "" -> normalize raw = Ok NoDate.
Proof.
  intros H. unfold _normalize_last_date. rewrite H.
  now destruct (pd_isna raw).
Qed.

Lemma normalize_none (raw : cell) :
  lower (strip (py_str float_repr raw)) = "none" -> normalize raw = Ok NoDate.
Proof.
  intros H. unfold _normalize_last_date. rewrite H.
  destruct (pd_isna raw); [reflexivity|]. now rewrite orb_true_r.
Qed.

Lemma normalize_unparseable (raw : cell) (e : pyexn) :
  pd_to_datetime (strip (py_str float_repr raw)) = PdRaise e ->
  normalize raw = Ok NoDate.
Proof.
  intros H. unfold _normalize_last_date, to_datetime_date. rewrite H.
  destruct (pd_isna raw); [reflexivity|]. now destruct (_ || _).
Qed.

(** It returns [NaT] only when pandas reads the text as [NaT]. *)
Lemma normalize_nat (raw : cell) :
  normalize raw = Ok NaT ->
  pd_to_datetime (strip (py_str float_repr raw)) = PdNaT.
Proof.
  unfold _normalize_last_date, to_datetime_date.
  destruct (pd_isna raw); [discriminate|].
  destruct (_ || _); [discriminate|].
  destruct (pd_to_datetime _); cbn; congruence.
Qed.

(** With no watermark the worker asks for the whole lookback. *)
Lemma worker_without_watermark (today : date) (symbol : string) (raw : cell) :
  normalize raw = Ok NoDate ->
  3651 <= today < MAXORD ->
  fst (worker today today symbol raw)
  = [mkrequest symbol (local_midnight (today - 3650)) (local_midnight (today + 1))].
Proof.
  intros Hn Ht. unfold fetch_worker. rewrite Hn. cbn [bind].
  rewrite compute_start_date_absent by (unfold valid, MINORD, MAXORD in *; lia).
  cbn [bind]. rewrite add_days_valid by (unfold valid, MINORD, MAXORD in *; lia).
  cbn [bind]. replace (Z.min today (today - 365 * 10)) with (today - 3650) by lia.
  rewrite Z.geb_leb. destruct (Z.leb_spec (today + 1) (today - 3650)); [lia|].
  pose proof (fetch_requests float_of_str utc_date_of_float local_midnight remote
                             symbol (today - 3650) (today + 1)) as F.
  destruct (yahoo_fetch_range_rows _ _ _ _ _ _ _) as [calls rows].
  cbn [fst] in *. apply F. lia.
Qed.

(** C1, as the code has it.  When the watermark is today the planner
    answers today, the window from today to tomorrow is not
    degenerate, and the worker calls the fetcher, which issues one
    request for that day. *)
Theorem C1_watermark_today (today : date) (symbol : string) (raw : cell) :
  normalize raw = Ok (ADate today) ->
  3651 <= today < MAXORD ->
  _compute_start_date today (ADate today) 10 = Ok today
  /\ add_days today 1 = Ok (today + 1)
  /\ today < today + 1
  /\ fst (worker today today symbol raw)
     = [mkrequest symbol (local_midnight today) (local_midnight (today + 1))].
Proof.
  intros Hn Ht.
  assert (Hs : _compute_start_date today (ADate today) 10 = Ok today).
  { rewrite compute_start_date_present
      by (unfold valid, MINORD, MAXORD in *; lia).
    f_equal. lia. }
  assert (He : add_days today 1 = Ok (today + 1)).
  { apply add_days_valid. unfold valid, MINORD, MAXORD in *. lia. }
  repeat split; [exact Hs|exact He|lia|].
  unfold fetch_worker. rewrite Hn. cbn [bind]. rewrite Hs. cbn [bind].
  rewrite He. cbn [bind].
  rewrite Z.geb_leb. destruct (Z.leb_spec (today + 1) today); [lia|].
  pose proof (fetch_requests float_of_str utc_date_of_float local_midnight remote
                             symbol today (today + 1)) as F.
  destruct (yahoo_fetch_range_rows _ _ _ _ _ _ _) as [calls rows].
  cbn [fst] in *. apply F. lia.
Qed.

(** The test of line 182 never holds: whatever the watermark, the
    worker either raises before it or goes on to the fetcher with a
    window that is not degenerate. *)
Lemma worker_window_never_degenerate
      (today_plan today_end : date) (last : last_date) (start_dt end_dt : date) :
  today_plan <= today_end ->
  _compute_start_date today_plan last 10 = Ok start_dt ->
  add_days today_end 1 = Ok end_dt ->
  start_dt < end_dt.
Proof.
  intros Hc Hs He. apply compute_start_date_le_today in Hs.
  unfold add_days in He. destruct (in_range _); [|discriminate].
  injection He as <-. lia.
Qed.

End PlannerProperties.

Lemma C1_watermark_today_witness :
  fst (fetch_worker no_float_of_str no_utc_date_of_float utc_midnight
                    sample_service no_float_repr iso_to_datetime
                    (ymd2ord 2024 6 1) (ymd2ord 2024 6 1)
                    "BTC-USD" (CellStr "2024-06-01"))
  = [mkrequest "BTC-USD" (utc_midnight (ymd2ord 2024 6 1))
               (utc_midnight (ymd2ord 2024 6 1 + 1))].
Proof.
  apply (C1_watermark_today no_float_of_str no_utc_date_of_float utc_midnight
                            sample_service no_float_repr iso_to_datetime
                            (ymd2ord 2024 6 1) "BTC-USD" (CellStr "2024-06-01")).
  - reflexivity.
  - vm_compute. split; [discriminate|reflexivity].
Defined.

(** The watermark of the symbol is today, 2024-06-01, and a request is
    issued for it. *)
Lemma C1_watermark_today_counterexample :
  _normalize_last_date no_float_repr iso_to_datetime (CellStr "2024-06-01")
  = Ok (ADate (ymd2ord 2024 6 1))
  /\ fst (fetch_worker no_float_of_str no_utc_date_of_float utc_midnight
                       sample_service no_float_repr iso_to_datetime
                       (ymd2ord 2024 6 1) (ymd2ord 2024 6 1)
                       "BTC-USD" (CellStr "2024-06-01"))
     <> [].
Proof. split; [reflexivity|]. vm_compute. discriminate. Qed.

(** C2, as the code has it.  With no watermark, ten years of lookback and
    today = 2024-06-01, the start of the window is 2014-06-04, which is
    today minus 3650 days, its exclusive end is 2024-06-02, and the
    request of the worker carries these two days. *)
Theorem C2_lookback_window :
  _compute_start_date (ymd2ord 2024 6 1) NoDate 10 = Ok (ymd2ord 2014 6 4)
  /\ ymd2ord 2014 6 4 = ymd2ord 2024 6 1 - 3650
  /\ isoformat (ymd2ord 2014 6 4) = "2014-06-04"
  /\ add_days (ymd2ord 2024 6 1) 1 = Ok (ymd2ord 2024 6 2)
  /\ forall float_of_str utc_date_of_float local_midnight remote float_repr
            pd_to_datetime symbol,
      fst (fetch_worker float_of_str utc_date_of_float local_midnight remote
                        float_repr pd_to_datetime
                        (ymd2ord 2024 6 1) (ymd2ord 2024 6 1)
                        symbol (CellFloat S754_nan))
      = [mkrequest symbol (local_midnight (ymd2ord 2014 6 4))
                   (local_midnight (ymd2ord 2024 6 2))].
Proof.
  repeat split; try reflexivity.
  intros. apply (worker_without_watermark _ _ _ _ _ _ (ymd2ord 2024 6 1)).
  - reflexivity.
  - vm_compute. split; [discriminate|reflexivity].
Qed.

Lemma C2_lookback_window_counterexample :
  _compute_start_date (ymd2ord 2024 6 1) NoDate 10 <> Ok (ymd2ord 2014 6 2).
Proof. vm_compute. discriminate. Qed.

(** C6, as the code has it.  Where the horizon, today minus 365 days per
    year of lookback, and the day after the watermark are dates, the
    start is the earlier of today and max(watermark + 1 day, horizon),
    and the earlier of today and the horizon without a watermark; so it
    is max(watermark + 1 day, horizon) for a watermark before today and
    a lookback that is not negative, and the horizon without a watermark.
    For the watermark 2024-05-30 and today = 2024-06-01 the window starts
    on 2024-05-31, before its exclusive end 2024-06-02. *)
Theorem C6_start_date :
  (forall today wm years_back : Z,
      valid (today - 365 * years_back) -> valid (wm + 1) ->
      _compute_start_date today (ADate wm) years_back
      = Ok (Z.min today (Z.max (wm + 1) (today - 365 * years_back)))
      /\ _compute_start_date today NoDate years_back
         = Ok (Z.min today (today - 365 * years_back))
      /\ (wm < today -> 0 <= years_back ->
          _compute_start_date today (ADate wm) years_back
          = Ok (Z.max (wm + 1) (today - 365 * years_back)))
      /\ (0 <= years_back ->
          _compute_start_date today NoDate years_back
          = Ok (today - 365 * years_back)))
  /\ _compute_start_date (ymd2ord 2024 6 1) (ADate (ymd2ord 2024 5 30)) 10
     = Ok (ymd2ord 2024 5 31)
  /\ add_days (ymd2ord 2024 6 1) 1 = Ok (ymd2ord 2024 6 2)
  /\ ymd2ord 2024 5 31 < ymd2ord 2024 6 2.
Proof.
  split; [|repeat split].
  intros today wm years_back Hh Hw.
  rewrite compute_start_date_present, compute_start_date_absent by assumption.
  repeat split.
  - intros H1 H2. f_equal. lia.
  - intros H. f_equal. lia.
Qed.

Lemma C6_start_date_witness :
  _compute_start_date (ymd2ord 2024 6 1) (ADate (ymd2ord 2024 5 30)) 10
  = Ok (Z.max (ymd2ord 2024 5 30 + 1) (ymd2ord 2024 6 1 - 365 * 10)).
Proof.
  apply (proj1 C6_start_date (ymd2ord 2024 6 1) (ymd2ord 2024 5 30) 10).
  - vm_compute. split; discriminate.
  - vm_compute. split; discriminate.
  - reflexivity.
  - discriminate.
Defined.

(** With the watermark on today, 2024-06-01, the start is today and not
    max(watermark + 1 day, horizon), which is 2024-06-02. *)
Lemma C6_start_date_counterexample :
  _compute_start_date (ymd2ord 2024 6 1) (ADate (ymd2ord 2024 6 1)) 10
  <> Ok (Z.max (ymd2ord 2024 6 1 + 1) (ymd2ord 2024 6 1 - 365 * 10)).
Proof. vm_compute. discriminate. Qed.

(** C10, at the text [NaT]: it is neither missing for [pd.isna], nor
    blank, nor a spelling of [none]; pandas reads it without raising, as
    [NaT]; so the normalisation returns [NaT], which is neither [None]
    nor a date, and the worker raises instead of planning the lookback. *)
Theorem C10_normalize_nat_text :
  forall float_of_str utc_date_of_float local_midnight remote float_repr,
    _normalize_last_date float_repr iso_to_datetime (CellStr "NaT") = Ok NaT
    /\ fetch_worker float_of_str utc_date_of_float local_midnight remote
                    float_repr iso_to_datetime
                    (ymd2ord 2024 6 1) (ymd2ord 2024 6 1)
                    "BTC-USD" (CellStr "NaT")
       = ([], Raise TypeError).
Proof. intros. split; reflexivity. Qed.

(** ** The store *)

Lemma key_eqb_eq (a b : key) : key_eqb a b = true <-> a = b.
Proof.
  destruct a as [a1 a2], b as [b1 b2]. unfold key_eqb. cbn.
  rewrite andb_true_iff, !String.eqb_eq. split.
  - intros [-> ->]. reflexivity.
  - intros [= -> ->]. split; reflexivity.
Qed.

Lemma has_key_In (k : key) (t : table) : has_key k t = true <-> In k (keys t).
Proof.
  unfold has_key, keys. rewrite existsb_exists, in_map_iff. split.
  - intros [r [Hin He]]. apply key_eqb_eq in He. eauto.
  - intros [r [He Hin]]. exists r. split; [assumption|]. now apply key_eqb_eq.
Qed.

Lemma lookup_app_l (k : key) (t u : table) (r : row) :
  lookup k t = Some r -> lookup k (t ++ u) = Some r.
Proof.
  unfold lookup. induction t as [|x t IH]; cbn; [discriminate|].
  destruct (key_eqb (row_key x) k); [trivial|exact IH].
Qed.

Lemma lookup_app_r (k : key) (t u : table) :
  has_key k t = false -> lookup k (t ++ u) = lookup k u.
Proof.
  unfold lookup, has_key. induction t as [|x t IH]; cbn; [reflexivity|].
  destruct (key_eqb (row_key x) k); cbn; [discriminate|exact IH].
Qed.

Lemma lookup_has_key (k : key) (t : table) (r : row) :
  lookup k t = Some r -> has_key k t = true.
Proof.
  unfold lookup, has_key. induction t as [|x t IH]; cbn; [discriminate|].
  destruct (key_eqb (row_key x) k); cbn; [reflexivity|exact IH].
Qed.

Lemma has_key_lookup (k : key) (t : table) :
  has_key k t = false -> lookup k t = None.
Proof.
  unfold lookup, has_key. induction t as [|x t IH]; cbn; [reflexivity|].
  destruct (key_eqb (row_key x) k); cbn; [discriminate|exact IH].
Qed.

(** An insertion on a key that is taken changes nothing. *)
Lemma insert_existing (r : row) (t : table) :
  has_key (row_key r) t = true -> insert_or_ignore r t = t.
Proof. intros H. unfold insert_or_ignore. now rewrite H. Qed.

Lemma insert_extends (r : row) (t : table) :
  exists added, insert_or_ignore r t = t ++ added.
Proof.
  unfold insert_or_ignore. destruct (has_key _ _).
  - exists []. now rewrite app_nil_r.
  - now exists [r].
Qed.

Lemma insert_NoDup (r : row) (t : table) :
  NoDup (keys t) -> NoDup (keys (insert_or_ignore r t)).
Proof.
  intros H. unfold insert_or_ignore. destruct (has_key _ _) eqn:E; [assumption|].
  unfold keys in *. rewrite map_app. cbn.
  apply NoDup_app; [assumption|repeat constructor; intros []|].
  intros a Ha [<-|[]]. apply has_key_In in Ha. congruence.
Qed.

(** The first row of a key is the one that stays. *)
Lemma lookup_insert (k : key) (r : row) (t : table) :
  lookup k (insert_or_ignore r t) = lookup k (t ++ [r]).
Proof.
  unfold insert_or_ignore. destruct (has_key (row_key r) t) eqn:E; [|reflexivity].
  destruct (lookup k t) as [x|] eqn:L.
  - symmetry. now apply lookup_app_l.
  - destruct (has_key k t) eqn:Hk.
    + exfalso. unfold lookup, has_key in *.
      clear E. induction t as [|y t IH]; cbn in *; [discriminate|].
      destruct (key_eqb (row_key y) k); [discriminate|auto].
    + rewrite lookup_app_r by assumption. cbn.
      destruct (key_eqb (row_key r) k) eqn:Ek; [|reflexivity].
      apply key_eqb_eq in Ek. congruence.
Qed.

Lemma has_key_insert (k : key) (r : row) (t : table) :
  has_key k (insert_or_ignore r t) = has_key k (t ++ [r]).
Proof.
  unfold insert_or_ignore. destruct (has_key (row_key r) t) eqn:E; [|reflexivity].
  unfold has_key in *. rewrite existsb_app. cbn. rewrite orb_false_r.
  destruct (key_eqb (row_key r) k) eqn:Ek.
  - apply key_eqb_eq in Ek. subst k. rewrite E. reflexivity.
  - now rewrite orb_false_r.
Qed.

Lemma ingest_NoDup (rows : list row) :
  forall t, NoDup (keys t) -> NoDup (keys (ingest t rows)).
Proof.
  unfold ingest. induction rows as [|r rows IH]; cbn; intros t H; [assumption|].
  apply IH. now apply insert_NoDup.
Qed.

Lemma ingest_extends (rows : list row) :
  forall t, exists added, ingest t rows = t ++ added.
Proof.
  unfold ingest. induction rows as [|r rows IH]; cbn; intros t.
  - exists []. now rewrite app_nil_r.
  - destruct (insert_extends r t) as [a Ha]. destruct (IH (insert_or_ignore r t)) as [b Hb].
    exists (a ++ b). now rewrite Hb, Ha, app_assoc.
Qed.

Lemma ingest_app (t : table) (xs ys : list row) :
  ingest t (xs ++ ys) = ingest (ingest t xs) ys.
Proof. unfold ingest. apply fold_left_app. Qed.

Lemma lookup_app_congr (k : key) (t t' u : table) :
  lookup k t = lookup k t' -> has_key k t = has_key k t' ->
  lookup k (t ++ u) = lookup k (t' ++ u).
Proof.
  intros HL HK. destruct (lookup k t) as [x|] eqn:L.
  - rewrite (lookup_app_l _ _ _ _ L). symmetry. now apply lookup_app_l.
  - destruct (has_key k t) eqn:E.
    + exfalso. unfold lookup, has_key in *. clear HL HK.
      induction t as [|y t IH]; cbn in *; [discriminate|].
      destruct (key_eqb (row_key y) k); [discriminate|auto].
    + rewrite !lookup_app_r by congruence. reflexivity.
Qed.

Lemma has_key_app_congr (k : key) (t t' u : table) :
  has_key k t = has_key k t' -> has_key k (t ++ u) = has_key k (t' ++ u).
Proof. unfold has_key. rewrite !existsb_app. now intros ->. Qed.

(** After any number of insertions a key holds the first row that was
    given for it: an old row of the table, else the first of the new. *)
Lemma lookup_ingest (k : key) (rows : list row) :
  forall t, lookup k (ingest t rows) = lookup k (t ++ rows)
            /\ has_key k (ingest t rows) = has_key k (t ++ rows).
Proof.
  induction rows as [|r rows IH]; intros t.
  - cbn. now rewrite app_nil_r.
  - change (ingest t (r :: rows)) with (ingest (insert_or_ignore r t) rows).
    destruct (IH (insert_or_ignore r t)) as [L H]. rewrite L, H.
    replace (t ++ r :: rows) with ((t ++ [r]) ++ rows)
      by (now rewrite <- app_assoc).
    split.
    + apply lookup_app_congr; [apply lookup_insert|apply has_key_insert].
    + apply has_key_app_congr, has_key_insert.
Qed.

(** At most one row for a key. *)
Lemma NoDup_one_row (k : key) (t : table) :
  NoDup (keys t) ->
  (List.length (filter (fun r => key_eqb (row_key r) k) t) <= 1)%nat.
Proof.
  induction t as [|x t IH]; cbn; intros H; [lia|].
  inversion H as [|? ? Hx Ht]; subst.
  destruct (key_eqb (row_key x) k) eqn:E; [|auto].
  apply key_eqb_eq in E. subst k. cbn.
  replace (filter _ t) with (@nil row); [cbn; lia|].
  symmetry. clear IH H Ht. induction t as [|y t IH]; cbn; [reflexivity|].
  destruct (key_eqb (row_key y) (row_key x)) eqn:E.
  - apply key_eqb_eq in E. exfalso. apply Hx. cbn. now left.
  - apply IH. intros Hin. apply Hx. now right.
Qed.

(** ** Persistence writer *)

Section WriterProperties.

Variable fault : nat -> bool.

Lemma connect_ok (store : table) : NoDup (keys store) -> conn_ok store (connect store).
Proof.
  intros H. repeat split; cbn; [assumption| |]; exists []; now rewrite app_nil_r.
Qed.

Lemma NoDup_keys_app_l (t u : table) : NoDup (keys (t ++ u)) -> NoDup (keys t).
Proof.
  unfold keys. rewrite map_app. apply NoDup_app_remove_r.
Qed.

(** Rolling back keeps the invariant. *)
Lemma rollback_ok (store : table) (c : conn) (n : nat) :
  conn_ok store c -> conn_ok store (mkconn (committed c) (committed c) n).
Proof.
  intros (Hn & Ha & [p Hp]). repeat split; cbn; try assumption.
  - rewrite Hp in Hn. now apply NoDup_keys_app_l in Hn.
  - exists []. now rewrite app_nil_r.
Qed.

Lemma execute_ok (store : table) (r : row) (c : conn) :
  conn_ok store c -> conn_ok store (fst (execute fault r c)).
Proof.
  intros H. unfold execute.
  destruct (fault (ops c)); cbn [fst]; [now apply rollback_ok|].
  destruct H as (Hn & Hc & [p Hp]). repeat split; cbn; try assumption.
  - now apply insert_NoDup.
  - destruct (insert_extends r (working c)) as [a Ha].
    exists (p ++ a). now rewrite Ha, Hp, app_assoc.
Qed.

Lemma executemany_ok (store : table) (rows : list row) :
  forall c, conn_ok store c -> conn_ok store (fst (executemany fault rows c)).
Proof.
  induction rows as [|r rows IH]; intros c H; cbn; [assumption|].
  pose proof (execute_ok store r c H) as H1.
  destruct (execute fault r c) as [c' [u|e]]; cbn in *; auto.
Qed.

Lemma commit_ok (store : table) (c : conn) :
  conn_ok store c -> conn_ok store (fst (commit fault c)).
Proof.
  intros H. unfold commit.
  destruct (fault (ops c)); cbn [fst]; [now apply rollback_ok|].
  destruct H as (Hn & [a Ha] & [p Hp]). repeat split; cbn; try assumption.
  - exists (a ++ p). now rewrite Hp, Ha, app_assoc.
  - exists []. now rewrite app_nil_r.
Qed.

Lemma close_ok (store : table) (c : conn) :
  conn_ok store c -> conn_ok store (close c).
Proof. apply rollback_ok. Qed.

Lemma writer_step_ok (store : table) (w : writer) (item : option (list row)) :
  conn_ok store (w_conn w) -> conn_ok store (w_conn (writer_step fault w item)).
Proof.
  intros H. destruct item as [[|r rows]|]; cbn [writer_step]; [assumption| |].
  - pose proof (executemany_ok store (r :: rows) _ H) as H1.
    destruct (executemany fault (r :: rows) (w_conn w)) as [c1 [u|e]];
      cbn [fst] in H1; [|exact H1].
    pose proof (commit_ok store c1 H1) as H2.
    destruct (commit fault c1) as [c2 [u'|e]]; exact H2.
  - now apply close_ok.
Qed.

Lemma writer_loop_ok (store : table) (items : list (option (list row))) :
  forall w, conn_ok store (w_conn w) ->
            conn_ok store (w_conn (writer_loop fault items w)).
Proof.
  induction items as [|item items IH]; intros w H; cbn; [assumption|].
  pose proof (writer_step_ok store w item H) as H1.
  destruct (w_closed (writer_step fault w item)); auto.
Qed.

Lemma stored_ok (store : table) (w : writer) :
  conn_ok store (w_conn w) ->
  NoDup (keys (stored w)) /\ exists added, stored w = store ++ added.
Proof.
  intros (Hn & Ha & [p Hp]). split; [|exact Ha].
  unfold stored. rewrite Hp in Hn. now apply NoDup_keys_app_l in Hn.
Qed.

(** What is on disk stays on disk, to the end of the run. *)
Lemma stored_grows (store : table) (items : list (option (list row))) (w : writer) :
  conn_ok store (w_conn w) ->
  exists added, stored (writer_loop fault items w) = stored w ++ added.
Proof.
  intros (Hn & Ha & Hp).
  assert (H : conn_ok (stored w) (w_conn w)).
  { repeat split; [assumption| |assumption]. exists []. unfold stored.
    now rewrite app_nil_r. }
  apply (writer_loop_ok (stored w) items) in H. apply H.
Qed.

(** The two outcomes of [executemany]: every row was inserted into the
    view of the connection, or a statement raised and the connection is
    back at what is committed. *)
Lemma executemany_outcome (rows : list row) :
  forall c,
    (exists n, executemany fault rows c
               = (mkconn (committed c) (ingest (working c) rows) n, Ok tt))
    \/ (exists n, executemany fault rows c
                  = (mkconn (committed c) (committed c) n, Raise OperationalError)).
Proof.
  induction rows as [|r rows IH]; intros c; cbn.
  - left. exists (ops c). now destruct c.
  - unfold execute. destruct (fault (ops c)).
    + right. now exists (S (ops c)).
    + exact (IH (mkconn (committed c) (insert_or_ignore r (working c)) (S (ops c)))).
Qed.

(** The two outcomes of a batch that is not empty, on a connection with
    nothing pending.  If its insert or its commit raises, the failure is
    printed, the counter and the table on disk are as before, and no row
    of the batch is left pending.  If neither raises, nothing is printed,
    the counter grows by the size of the batch and the table on disk has
    taken its rows.  Either way the writer stays in its loop. *)
Lemma writer_step_outcome (w : writer) (rows : list row) :
  rows <> [] ->
  working (w_conn w) = committed (w_conn w) ->
  w_closed (writer_step fault w (Some rows)) = false
  /\ working (w_conn (writer_step fault w (Some rows)))
     = committed (w_conn (writer_step fault w (Some rows)))
  /\ if batch_raises fault rows (w_conn w)
     then w_log (writer_step fault w (Some rows))
          = w_log w ++ [BatchFailed OperationalError]
          /\ total_written (writer_step fault w (Some rows)) = total_written w
          /\ stored (writer_step fault w (Some rows)) = stored w
     else w_log (writer_step fault w (Some rows)) = w_log w
          /\ total_written (writer_step fault w (Some rows))
             = total_written w + Z.of_nat (List.length rows)
          /\ stored (writer_step fault w (Some rows)) = ingest (stored w) rows.
Proof.
  intros Hne Hclean. destruct rows as [|x rows]; [congruence|].
  unfold batch_raises, stored. cbn [writer_step].
  destruct (executemany_outcome (x :: rows) (w_conn w)) as [[n E]|[n E]];
    rewrite E.
  - unfold commit. cbn [ops committed working].
    destruct (fault n); cbn; repeat split. now rewrite Hclean.
  - cbn. repeat split.
Qed.

(** A batch, failed or not, leaves the writer in its loop. *)
Lemma writer_step_batch_open (w : writer) (rows : list row) :
  w_closed w = false -> w_closed (writer_step fault w (Some rows)) = false.
Proof.
  intros H. destruct rows as [|r rows]; cbn [writer_step]; [assumption|].
  destruct (executemany fault (r :: rows) (w_conn w)) as [c1 [u|e]]; [|reflexivity].
  destruct (commit fault c1) as [c2 [u'|e]]; reflexivity.
Qed.

(** Whatever fails, the writer goes on to the sentinel and only then
    closes. *)
Lemma writer_reaches_sentinel (batches : list (list row))
      (rest : list (option (list row))) :
  forall w, w_closed w = false ->
            w_closed (writer_loop fault (map Some batches ++ None :: rest) w) = true.
Proof.
  induction batches as [|b batches IH]; intros w H; cbn [map app writer_loop].
  - reflexivity.
  - rewrite (writer_step_batch_open w b H). apply IH.
    now apply writer_step_batch_open.
Qed.

Lemma writer_waits (batches : list (list row)) :
  forall w, w_closed w = false ->
            w_closed (writer_loop fault (map Some batches) w) = false.
Proof.
  induction batches as [|b batches IH]; intros w H; cbn [map writer_loop].
  - assumption.
  - rewrite (writer_step_batch_open w b H). apply IH.
    now apply writer_step_batch_open.
Qed.

Lemma survivors_length (batches : list (list row)) :
  forall w, (List.length (survivors fault batches w) <= List.length batches)%nat.
Proof.
  induction batches as [|b batches IH]; intros w; cbn [survivors]; [cbn; lia|].
  pose proof (IH (writer_step fault w (Some b))) as Hb.
  destruct b as [|x b]; [cbn [List.length]; lia|].
  destruct (batch_raises fault (x :: b) (w_conn w)); cbn [List.length]; lia.
Qed.

(** A run of the writer, from a connection with nothing pending: the
    table on disk takes the rows of the batches that did not fail, in
    their order, and no other; the counter is their number; one line is
    printed per failed batch, then the total. *)
Lemma writer_loop_survivors (batches : list (list row)) :
  forall w,
    w_closed w = false ->
    working (w_conn w) = committed (w_conn w) ->
    stored (writer_loop fault (map Some batches ++ [None]) w)
    = ingest (stored w) (List.concat (survivors fault batches w))
    /\ total_written (writer_loop fault (map Some batches ++ [None]) w)
       = total_written w
         + Z.of_nat (List.length (List.concat (survivors fault batches w)))
    /\ w_log (writer_loop fault (map Some batches ++ [None]) w)
       = w_log w
         ++ repeat (BatchFailed OperationalError)
                   (List.length batches - List.length (survivors fault batches w))
         ++ [TotalWritten
               (total_written (writer_loop fault (map Some batches ++ [None]) w))]
    /\ w_closed (writer_loop fault (map Some batches ++ [None]) w) = true.
Proof.
  induction batches as [|b batches IH]; intros w Hopen Hclean.
  - cbn. unfold stored. cbn. repeat split. lia.
  - cbn [map app writer_loop survivors].
    rewrite (writer_step_batch_open w b Hopen).
    pose proof (survivors_length batches (writer_step fault w (Some b))) as Hlen.
    destruct b as [|x b].
    + (* an empty batch is skipped *)
      destruct (IH w Hopen Hclean) as (F1 & F2 & F3 & F4).
      cbn [writer_step] in *. cbn [List.concat app List.length].
      repeat split; assumption.
    + destruct (writer_step_outcome w (x :: b)) as (G1 & G2 & G3);
        [discriminate|assumption|].
      destruct (IH (writer_step fault w (Some (x :: b))) G1 G2) as (F1 & F2 & F3 & F4).
      destruct (batch_raises fault (x :: b) (w_conn w)).
      * destruct G3 as (Hl & Ht & Hs). repeat split.
        -- now rewrite F1, Hs.
        -- now rewrite F2, Ht.
        -- rewrite F3, Hl, <- app_assoc. f_equal.
           replace (List.length ((x :: b) :: batches)
                    - List.length (survivors fault batches
                                             (writer_step fault w (Some (x :: b)))))%nat
             with (S (List.length batches
                      - List.length (survivors fault batches
                                               (writer_step fault w (Some (x :: b))))))
             by (cbn [List.length]; lia).
           reflexivity.
        -- exact F4.
      * destruct G3 as (Hl & Ht & Hs). cbn [List.concat]. repeat split.
        -- now rewrite F1, Hs, ingest_app.
        -- rewrite F2, Ht, length_app, Nat2Z.inj_add. lia.
        -- now rewrite F3, Hl.
        -- exact F4.
Qed.

End WriterProperties.

Lemma executemany_no_fault (rows : list row) :
  forall c, snd (executemany no_fault rows c) = Ok tt.
Proof.
  induction rows as [|r rows IH]; intros c; cbn; [reflexivity|]. apply IH.
Qed.

(** Without faults every batch survives. *)
Lemma survivors_no_fault (batches : list (list row)) :
  forall w, survivors no_fault batches w = batches.
Proof.
  induction batches as [|b batches IH]; intros w; cbn [survivors]; [reflexivity|].
  rewrite IH. destruct b as [|x b]; [reflexivity|].
  unfold batch_raises.
  pose proof (executemany_no_fault (x :: b) (w_conn w)) as E.
  destruct (executemany no_fault (x :: b) (w_conn w)) as [c1 [[]|e]];
    cbn [snd] in E; [reflexivity|discriminate].
Qed.

Lemma db_writer_ok (fault : nat -> bool) (store : table)
      (items : list (option (list row))) :
  NoDup (keys store) -> conn_ok store (w_conn (db_writer fault store items)).
Proof.
  intros H. unfold db_writer. apply writer_loop_ok. cbn. now apply connect_ok.
Qed.

(** C4.  Whatever the table holds at the start, with one row per key,
    whatever batches the writer is handed and whichever operations of the
    engine fail: the table on disk keeps one row per key; the rows it
    held are still there, unchanged, before the new ones; an [INSERT] on
    a key that is taken is no error and changes nothing; every [INSERT]
    keeps one row per key in the view of the connection; and when the
    engine does not fail, no batch is reported as failed and each key
    holds the first row that was ever given for it. *)
Theorem C4_unique_keys (fault : nat -> bool) (store : table)
        (items : list (option (list row))) :
  NoDup (keys store) ->
  NoDup (keys (stored (db_writer fault store items)))
  /\ (forall k : key,
        (List.length (filter (fun r => key_eqb (row_key r) k)
                             (stored (db_writer fault store items))) <= 1)%nat)
  /\ (exists added, stored (db_writer fault store items) = store ++ added)
  /\ (forall (k : key) (r : row),
        lookup k store = Some r ->
        lookup k (stored (db_writer fault store items)) = Some r)
  /\ (forall (r : row) (c : conn),
        has_key (row_key r) (working c) = true ->
        fault (ops c) = false ->
        execute fault r c = (mkconn (committed c) (working c) (S (ops c)), Ok tt))
  /\ (forall (r : row) (c : conn),
        conn_ok store c -> conn_ok store (fst (execute fault r c)))
  /\ (forall batches : list (list row),
        stored (db_writer no_fault store (map Some batches ++ [None]))
        = ingest store (List.concat batches)
        /\ w_log (db_writer no_fault store (map Some batches ++ [None]))
           = [TotalWritten (Z.of_nat (List.length (List.concat batches)))]
        /\ forall k : key,
            lookup k (stored (db_writer no_fault store (map Some batches ++ [None])))
            = lookup k (store ++ List.concat batches)).
Proof.
  intros H.
  destruct (stored_ok store _ (db_writer_ok fault store items H)) as [Hn [a Ha]].
  split; [exact Hn|]. split; [|split; [|split; [|split; [|split]]]].
  - intros k. now apply NoDup_one_row.
  - now exists a.
  - intros k r L. rewrite Ha. now apply lookup_app_l.
  - intros r c Hk Hf. unfold execute. rewrite Hf. now rewrite insert_existing.
  - intros r c. apply execute_ok.
  - intros batches.
    destruct (writer_loop_survivors no_fault batches
                (mkwriter (connect store) 0 [] false) eq_refl eq_refl)
      as (F1 & F2 & F3 & _).
    rewrite survivors_no_fault in F1, F2, F3.
    rewrite Nat.sub_diag in F3.
    cbn in F1, F2, F3. unfold db_writer.
    split; [exact F1|]. split.
    + rewrite F3, F2. reflexivity.
    + intros k. rewrite F1. apply lookup_ingest.
Qed.

(** The stored row of 2024-06-01 stays, though the key comes again twice
    with other prices. *)
Lemma C4_unique_keys_witness :
  lookup (row_key row_a1)
         (stored (db_writer no_fault [row_a1]
                            [Some [row_a1_late; row_b1]; Some [row_a1_late]; None]))
  = Some row_a1.
Proof.
  apply (C4_unique_keys no_fault [row_a1]
                        [Some [row_a1_late; row_b1]; Some [row_a1_late]; None]).
  - repeat constructor. intros [].
  - reflexivity.
Defined.

Lemma ingest_length (rows : list row) :
  forall t, (List.length t <= List.length (ingest t rows)
             <= List.length t + List.length rows)%nat.
Proof.
  unfold ingest. induction rows as [|r rows IH]; intros t; cbn; [lia|].
  specialize (IH (insert_or_ignore r t)). unfold insert_or_ignore in *.
  destruct (has_key (row_key r) t); [lia|].
  rewrite length_app in IH. cbn in IH. lia.
Qed.

Lemma ingest_fresh (rows : list row) :
  forall t, NoDup (keys (t ++ rows)) -> ingest t rows = t ++ rows.
Proof.
  induction rows as [|r rows IH]; intros t H; [now rewrite app_nil_r|].
  change (ingest t (r :: rows)) with (ingest (insert_or_ignore r t) rows).
  replace (t ++ r :: rows) with ((t ++ [r]) ++ rows) in * by (now rewrite <- app_assoc).
  assert (Hk : has_key (row_key r) t = false).
  { destruct (has_key (row_key r) t) eqn:E; [|reflexivity]. exfalso.
    apply has_key_In in E. apply NoDup_keys_app_l in H.
    unfold keys in *. rewrite map_app in H. cbn in H.
    apply NoDup_remove_2 in H. apply H. rewrite app_nil_r. exact E. }
  unfold insert_or_ignore at 1. rewrite Hk. now apply IH.
Qed.

Lemma ingest_present (rows : list row) :
  forall t, (forall r, In r rows -> has_key (row_key r) t = true) ->
            ingest t rows = t.
Proof.
  induction rows as [|r rows IH]; intros t H; [reflexivity|].
  change (ingest t (r :: rows)) with (ingest (insert_or_ignore r t) rows).
  rewrite insert_existing by (apply H; now left).
  apply IH. intros x Hx. apply H. now right.
Qed.

Lemma ingest_has_keys (t : table) (rows : list row) (r : row) :
  In r rows -> has_key (row_key r) (ingest t rows) = true.
Proof.
  intros H. destruct (lookup_ingest (row_key r) rows t) as [_ ->].
  unfold has_key. rewrite existsb_app, orb_true_iff. right.
  apply existsb_exists. exists r. split; [assumption|]. now apply key_eqb_eq.
Qed.

Lemma ingest_has_key_mono (k : key) (rows : list row) (t : table) :
  has_key k t = true -> has_key k (ingest t rows) = true.
Proof.
  intros H. destruct (lookup_ingest k rows t) as [_ ->].
  unfold has_key in *. now rewrite existsb_app, H.
Qed.

Lemma survivors_sublist (fault : nat -> bool) (batches : list (list row)) :
  forall w b, In b (survivors fault batches w) -> In b batches.
Proof.
  induction batches as [|x batches IH]; intros w b; cbn [survivors]; [tauto|].
  destruct x as [|r x].
  - intros [<-|H]; [now left|right; eauto].
  - destruct (batch_raises fault (r :: x) (w_conn w)).
    + intros H. right. eauto.
    + intros [<-|H]; [now left|right; eauto].
Qed.

Lemma has_key_concat (k : key) (batches : list (list row)) :
  has_key k (List.concat batches) = existsb (has_key k) batches.
Proof.
  induction batches as [|b batches IH]; [reflexivity|].
  cbn [List.concat existsb]. unfold has_key in *. now rewrite existsb_app, IH.
Qed.

(** C8.  Whatever the table holds, whatever batches the writer is handed
    before the sentinel and whichever inserts and commits raise: the
    writer goes through every batch and closes only on the sentinel; it
    prints one line per failed batch, then the total; the total is the
    number of rows of the batches that did not fail; and the table on
    disk is the one that these batches alone give, in their order, the
    same as if the failed batches had never been sent.  So every row of
    a batch that did not fail, before or after one that did, has its key
    in the table, with the row that was first given for it, and is in
    the table itself when no key comes twice; and a key that neither the
    table of the start nor a batch that did not fail holds is not in the
    table: the rows of a failed batch are absent. *)
Theorem C8_failed_batch_isolated (fault : nat -> bool) (store : table)
        (batches : list (list row)) :
  let good := survivors fault batches (mkwriter (connect store) 0 [] false) in
  let w := db_writer fault store (map Some batches ++ [None]) in
  w_closed w = true
  /\ w_log w
     = repeat (BatchFailed OperationalError)
              (List.length batches - List.length good)
       ++ [TotalWritten (total_written w)]
  /\ total_written w = Z.of_nat (List.length (List.concat good))
  /\ stored w = ingest store (List.concat good)
  /\ stored w = stored (db_writer no_fault store (map Some good ++ [None]))
  /\ (forall k, lookup k (stored w) = lookup k (store ++ List.concat good))
  /\ (forall b r, In b good -> In r b -> has_key (row_key r) (stored w) = true)
  /\ (NoDup (keys (store ++ List.concat good)) ->
      stored w = store ++ List.concat good)
  /\ (forall k,
         has_key k store = false ->
         (forall b, In b good -> has_key k b = false) ->
         has_key k (stored w) = false /\ lookup k (stored w) = None)
  /\ (forall b, In b good -> In b batches).
Proof.
  cbn zeta. unfold db_writer.
  destruct (writer_loop_survivors fault batches
              (mkwriter (connect store) 0 [] false) eq_refl eq_refl)
    as (F1 & F2 & F3 & F4).
  destruct (writer_loop_survivors no_fault
              (survivors fault batches (mkwriter (connect store) 0 [] false))
              (mkwriter (connect store) 0 [] false) eq_refl eq_refl)
    as (N1 & _).
  rewrite survivors_no_fault in N1. cbn in F1, F2, F3, N1.
  set (good := survivors fault batches (mkwriter (connect store) 0 [] false)) in *.
  assert (K : forall k,
             has_key k (ingest store (List.concat good))
             = has_key k store || existsb (has_key k) good).
  { intros k. destruct (lookup_ingest k (List.concat good) store) as [_ ->].
    rewrite <- has_key_concat. unfold has_key. apply existsb_app. }
  split; [assumption|]. split; [assumption|]. split; [assumption|].
  split; [assumption|]. split; [now rewrite F1, N1|].
  rewrite F1. split; [|split; [|split; [|split]]].
  - intros k. apply lookup_ingest.
  - intros b r Hb Hr. rewrite K. apply orb_true_iff. right.
    apply existsb_exists. exists b. split; [exact Hb|].
    apply has_key_In. unfold keys. now apply in_map.
  - apply ingest_fresh.
  - intros k Hs Hg.
    assert (E : has_key k (ingest store (List.concat good)) = false).
    { rewrite K, Hs. cbn [orb].
      destruct (existsb (has_key k) good) eqn:X; [|reflexivity].
      apply existsb_exists in X. destruct X as (b & Hb & Hk).
      now rewrite (Hg b Hb) in Hk. }
    split; [exact E|now apply has_key_lookup].
  - intros b. apply survivors_sublist.
Qed.

(** Two batches of which the first fails on its second row: the row of
    the second batch is in the table, and no row of the first. *)
Lemma C8_failed_batch_isolated_witness :
  has_key (row_key row_b1)
          (stored (db_writer (fault_at 1) []
                             (map Some [[row_a1; row_a2]; [row_b1]] ++ [None])))
  = true
  /\ lookup (row_key row_a1)
            (stored (db_writer (fault_at 1) []
                               (map Some [[row_a1; row_a2]; [row_b1]] ++ [None])))
     = None.
Proof.
  pose proof (C8_failed_batch_isolated (fault_at 1) []
                                       [[row_a1; row_a2]; [row_b1]]) as H.
  cbn zeta in H. destruct H as (_ & _ & _ & _ & _ & _ & P & _ & A & _). split.
  - apply (P [row_b1] row_b1); [vm_compute|]; now left.
  - apply A; [reflexivity|].
    intros b Hb. vm_compute in Hb. destruct Hb as [<-|[]]. reflexivity.
Defined.

(** Two batches of which the first fails on its second row: its first
    row is not stored either, and the second batch is. *)
Example failed_batch_example :
  stored (db_writer (fault_at 1) [] [Some [row_a1; row_a2]; Some [row_b1]; None])
  = [row_b1]
  /\ w_log (db_writer (fault_at 1) [] [Some [row_a1; row_a2]; Some [row_b1]; None])
     = [BatchFailed OperationalError; TotalWritten 1].
Proof. split; reflexivity. Qed.

(** ** Scheduler and writer threads *)

Lemma nth_error_set_nth_other {A : Type} (l : list A) :
  forall (i j : nat) (x : A), i <> j -> nth_error (set_nth i x l) j = nth_error l j.
Proof.
  induction l as [|h t IH]; intros i j x H; [now destruct i|].
  destruct i, j; cbn; try congruence. apply IH. congruence.
Qed.

Lemma nth_error_set_nth_same {A : Type} (l : list A) :
  forall (i : nat) (x y : A),
    nth_error (set_nth i x l) i = Some y -> y = x.
Proof.
  induction l as [|h t IH]; intros i x y; destruct i; cbn; try discriminate.
  - congruence.
  - apply IH.
Qed.

Lemma Forall_set_nth {A : Type} (P : A -> Prop) (l : list A) :
  forall (i : nat) (x : A), Forall P l -> P x -> Forall P (set_nth i x l).
Proof.
  induction l as [|h t IH]; intros i x H Hx; [destruct i; constructor|].
  inversion H; subst. destruct i; cbn; constructor; auto.
Qed.

Lemma Forall_nth_error {A : Type} (P : A -> Prop) (l : list A) (i : nat) (x : A) :
  Forall P l -> nth_error l i = Some x -> P x.
Proof.
  intros H E. rewrite Forall_forall in H. apply H. eapply nth_error_In; eauto.
Qed.

Lemma collected_is_completed (l : list future) :
  Forall collected_task l -> Forall completed_task l.
Proof.
  apply Forall_impl. intros [ | |]; cbn; tauto.
Qed.

Lemma In_None_map_Some {A : Type} (l : list A) : ~ In None (map Some l).
Proof.
  induction l as [|x l IH]; cbn; [tauto|]. intros [H|H]; [discriminate|tauto].
Qed.

Section RunProperties.

Variable fault : nat -> bool.
Variable maxsize : nat.

Lemma initial_inv (store : table) (n : nat) : run_inv (initial store n).
Proof.
  unfold run_inv, initial; cbn. repeat split.
  - now exists [].
  - congruence.
  - discriminate.
  - intros i sym rows H. exfalso. revert i H.
    induction n as [|n IH]; intros [|i]; cbn; try discriminate. apply IH.
Qed.

Lemma step_inv (s s' : system) : step fault maxsize s s' -> run_inv s -> run_inv s'.
Proof.
  intros Hs (Hq & Hf & Hr & Hc).
  destruct Hs as [s i r Hi | s i sym rows Hp Hi Hne Hlen | s i sym Hp Hi
                  | s i e Hp Hi | s Hp Hall Hlen | s item rest Hopen Hqueue
                  | s Hp Hcl]; unfold run_inv; cbn.
  - (* a task finishes *)
    repeat split; try assumption.
    + intros H. exfalso. specialize (Hf H).
      exact (Forall_nth_error _ _ _ _ Hf Hi).
    + intros j sym rows Hj. destruct (Nat.eq_dec i j) as [<-|Hij].
      * apply nth_error_set_nth_same in Hj. discriminate.
      * rewrite nth_error_set_nth_other in Hj by assumption.
        intros Hn. eapply Hc; eauto.
  - (* a batch is put on the queue *)
    destruct Hq as (waiting & Hsent & Hshape). rewrite Hp in Hshape.
    destruct (w_closed (wr s)) eqn:Ecl; [contradiction|].
    repeat split.
    + exists (waiting ++ [rows]). split.
      * now rewrite Hsent, app_assoc.
      * rewrite Hshape, map_app. reflexivity.
    + congruence.
    + discriminate.
    + intros j sym' rows' Hj Hn. apply in_or_app.
      destruct (Nat.eq_dec i j) as [<-|Hij].
      * apply nth_error_set_nth_same in Hj. injection Hj as _ ->.
        right. now left.
      * rewrite nth_error_set_nth_other in Hj by assumption.
        left. eapply Hc; eauto.
  - (* an empty result is collected *)
    rewrite Hp in *. repeat split.
    + exact Hq.
    + congruence.
    + discriminate.
    + intros j sym' rows' Hj Hn. destruct (Nat.eq_dec i j) as [<-|Hij].
      * apply nth_error_set_nth_same in Hj. injection Hj as _ ->. congruence.
      * rewrite nth_error_set_nth_other in Hj by assumption. eapply Hc; eauto.
  - (* a crash is collected *)
    rewrite Hp in *. repeat split.
    + exact Hq.
    + congruence.
    + discriminate.
    + intros j sym' rows' Hj Hn. destruct (Nat.eq_dec i j) as [<-|Hij].
      * apply nth_error_set_nth_same in Hj. discriminate.
      * rewrite nth_error_set_nth_other in Hj by assumption. eapply Hc; eauto.
  - (* the sentinel is put on the queue *)
    destruct Hq as (waiting & Hsent & Hshape). rewrite Hp in Hshape.
    destruct (w_closed (wr s)) eqn:Ecl; [contradiction|].
    repeat split; try assumption.
    + exists waiting. split; [assumption|]. now rewrite Hshape.
    + intros _. exact Hall.
    + discriminate.
  - (* the writer takes an item *)
    destruct Hq as (waiting & Hsent & Hshape). rewrite Hopen in Hshape.
    assert (Hitem :
              (exists b w', item = Some b /\ waiting = b :: w'
                            /\ (pc s = Collecting -> rest = map Some w')
                            /\ (pc s <> Collecting -> rest = map Some w' ++ [None]))
              \/ (item = None /\ waiting = [] /\ rest = [] /\ pc s <> Collecting)).
    { destruct (pc s) eqn:Epc; rewrite Hqueue in Hshape;
        destruct waiting as [|b w']; cbn in Hshape; try discriminate;
        injection Hshape as -> ->.
      - left. exists b, w'. repeat split; congruence.
      - right. repeat split; congruence.
      - left. exists b, w'. repeat split; congruence.
      - right. repeat split; congruence.
      - left. exists b, w'. repeat split; congruence. }
    destruct Hitem as [(b & w' & -> & -> & Hc1 & Hc2)|(-> & -> & -> & Hnc)].
    + rewrite (writer_step_batch_open fault (wr s) b Hopen).
      repeat split; try assumption.
      * exists w'. split; [now rewrite Hsent, <- app_assoc|].
        destruct (pc s) eqn:Epc; [apply Hc1; reflexivity
                                 |apply Hc2; discriminate
                                 |apply Hc2; discriminate].
      * intros E. specialize (Hr E). congruence.
    + cbn [writer_step w_closed]. repeat split; try assumption.
      exists []. split; [assumption|].
      destruct (pc s); [congruence| |]; split; reflexivity.
  - (* [join] returns *)
    destruct Hq as (waiting & Hsent & Hshape). rewrite Hp, Hcl in Hshape.
    repeat split; try assumption.
    + exists waiting. split; [assumption|]. now rewrite Hcl.
    + intros _. apply Hf. congruence.
    + intros _. exact Hcl.
Qed.

Lemma reachable_inv (store : table) (n : nat) (s : system) :
  reachable fault maxsize store n s -> run_inv s.
Proof.
  induction 1 as [|s s' _ IH Hs]; [apply initial_inv|].
  eapply step_inv; eauto.
Qed.

End RunProperties.

Section ShutdownProtocol.

Variable fault : nat -> bool.
Variable maxsize : nat.

Lemma writer_loop_snoc (items : list (option (list row))) (item : option (list row)) :
  forall w,
    w_closed (writer_loop fault items w) = false ->
    writer_loop fault (items ++ [item]) w
    = writer_step fault (writer_loop fault items w) item.
Proof.
  induction items as [|a items IH]; intros w H; cbn in *.
  - now destruct (w_closed (writer_step fault w item)).
  - destruct (w_closed (writer_step fault w a)) eqn:E; [congruence|]. now apply IH.
Qed.

(** The writer thread is [db_writer] on the items it took so far. *)
Lemma reachable_writer (store : table) (n : nat) (s : system) :
  reachable fault maxsize store n s ->
  wr s = db_writer fault store
                   (map Some (received s)
                        ++ if w_closed (wr s) then [None] else []).
Proof.
  unfold db_writer.
  induction 1 as [|s s' _ IH Hs]; [reflexivity|].
  destruct Hs as [s i r Hi | s i sym rows Hp Hi Hne Hlen | s i sym Hp Hi
                  | s i e Hp Hi | s Hp Hall Hlen | s item rest Hopen Hqueue
                  | s Hp Hcl]; cbn; try exact IH.
  rewrite Hopen, app_nil_r in IH.
  assert (Hw : w_closed (writer_loop fault (map Some (received s))
                                     (mkwriter (connect store) 0 [] false)) = false)
    by (now rewrite <- IH).
  destruct item as [b|].
  - rewrite (writer_step_batch_open fault (wr s) b Hopen), app_nil_r, map_app.
    cbn [map]. rewrite writer_loop_snoc by exact Hw. now rewrite <- IH.
  - cbn [writer_step w_closed]. rewrite writer_loop_snoc by exact Hw.
    now rewrite <- IH.
Qed.

(** C7.  In every state of a run: the sentinel is in the queue, or has
    reached the writer, only if every task has completed and was
    collected by the main thread; in the queue it comes after every
    batch; and once the writer has closed, the queue is empty, the
    writer has taken every batch that was put on it, having run
    [db_writer] on them, and among them the rows of every collected
    task that returned some. *)
Theorem C7_shutdown_protocol (store : table) (n : nat) (s : system) :
  reachable fault maxsize store n s ->
  (In None (queue s) \/ w_closed (wr s) = true ->
   Forall completed_task (futures s) /\ Forall collected_task (futures s))
  /\ (In None (queue s) ->
      exists waiting, queue s = map Some waiting ++ [None])
  /\ (w_closed (wr s) = true ->
      queue s = []
      /\ received s = sent s
      /\ wr s = db_writer fault store (map Some (sent s) ++ [None])
      /\ forall i sym rows,
          nth_error (futures s) i = Some (Collected (Ok (sym, rows))) ->
          rows <> [] -> In rows (received s)).
Proof.
  intros Hreach.
  pose proof (reachable_writer store n s Hreach) as Hw.
  destruct (reachable_inv fault maxsize store n s Hreach)
    as ((waiting & Hsent & Hshape) & Hf & Hr & Hc).
  assert (Hleft : In None (queue s) \/ w_closed (wr s) = true -> pc s <> Collecting).
  { intros [Hin|Hcl] Hp; rewrite Hp in Hshape.
    - destruct (w_closed (wr s)); [contradiction|].
      rewrite Hshape in Hin. now apply In_None_map_Some in Hin.
    - now rewrite Hcl in Hshape. }
  split; [|split].
  - intros H. specialize (Hf (Hleft H)).
    split; [now apply collected_is_completed|assumption].
  - intros Hin. exists waiting.
    destruct (pc s) eqn:Epc.
    + exfalso. apply (Hleft (or_introl Hin)). reflexivity.
    + destruct (w_closed (wr s)); [|assumption].
      destruct Hshape as [Hq _]. rewrite Hq in Hin. destruct Hin.
    + destruct (w_closed (wr s)); [|assumption].
      destruct Hshape as [Hq _]. rewrite Hq in Hin. destruct Hin.
  - intros Hcl. rewrite Hcl in Hshape, Hw.
    assert (Hq : queue s = [] /\ waiting = [])
      by (destruct (pc s); [contradiction|assumption|assumption]).
    destruct Hq as [Hq ->]. rewrite app_nil_r in Hsent.
    repeat split.
    + exact Hq.
    + now symmetry.
    + now rewrite Hsent.
    + intros i sym rows Hi Hn. rewrite <- Hsent. eapply Hc; eauto.
Qed.

End ShutdownProtocol.

Lemma one_task_run_reachable : reachable no_fault 4 [] 1 one_task_run.
Proof.
  pose (w0 := mkwriter (connect []) 0 [] false).
  pose (res := @Ok (string * list row) ("A-USD", [row_a1])).
  pose (s1 := mksystem [Finished res] Collecting [] w0 0 0 [] []).
  pose (s2 := mksystem [Collected res] Collecting [Some [row_a1]] w0 1 1
                       [[row_a1]] []).
  pose (s3 := mksystem [Collected res] Joining [Some [row_a1]; None] w0 1 1
                       [[row_a1]] []).
  pose (s4 := mksystem [Collected res] Joining [None]
                       (writer_step no_fault w0 (Some [row_a1])) 1 1
                       [[row_a1]] [[row_a1]]).
  pose (s5 := mksystem [Collected res] Joining []
                       (db_writer no_fault [] [Some [row_a1]; None]) 1 1
                       [[row_a1]] [[row_a1]]).
  apply (reach_step _ _ _ _ s5); [|exact (step_join _ _ s5 eq_refl eq_refl)].
  apply (reach_step _ _ _ _ s4);
    [|exact (step_writer _ _ s4 None [] eq_refl eq_refl)].
  apply (reach_step _ _ _ _ s3);
    [|exact (step_writer _ _ s3 (Some [row_a1]) [None] eq_refl eq_refl)].
  apply (reach_step _ _ _ _ s2);
    [|refine (step_sentinel _ _ s2 eq_refl _ _); cbn;
      [repeat constructor|lia]].
  apply (reach_step _ _ _ _ s1);
    [|refine (step_collect_rows _ _ s1 0 "A-USD" [row_a1] eq_refl eq_refl _ _);
      cbn; [discriminate|lia]].
  apply (reach_step _ _ _ _ (initial [] 1)); [apply reach_initial|].
  exact (step_finish _ _ (initial [] 1) 0 res eq_refl).
Qed.

(** In the run of one task, once [join] has returned, the writer has
    taken the batch that was sent. *)
Lemma C7_shutdown_protocol_witness :
  queue one_task_run = []
  /\ received one_task_run = sent one_task_run
  /\ wr one_task_run
     = db_writer no_fault [] (map Some (sent one_task_run) ++ [None])
  /\ forall i sym rows,
      nth_error (futures one_task_run) i = Some (Collected (Ok (sym, rows))) ->
      rows <> [] -> In rows (received one_task_run).
Proof.
  apply (C7_shutdown_protocol no_fault 4 [] 1 one_task_run one_task_run_reachable).
  reflexivity.
Defined.

(** * Further properties *)

(** ** Window planner and worker *)

Ltac ok_inj :=
  match goal with
  | |- Ok ?a = Ok ?b -> _ =>
      let E := fresh "E" in
      let H := fresh "H" in
      intros E; assert (H : a = b) by congruence; clear E
  end.

Lemma compute_start_date_range (today : date) (last : last_date)
      (years_back : Z) (start : date) :
  _compute_start_date today last years_back = Ok start ->
  Z.min today (today - 365 * years_back) <= start <= today.
Proof.
  unfold _compute_start_date, add_days.
  destruct (in_range (today + - (365 * years_back))); cbn [bind]; [|discriminate].
  destruct last as [|d|]; cbn [bind].
  - rewrite Z.geb_leb.
    destruct (Z.leb_spec today (today + - (365 * years_back)));
      ok_inj; lia.
  - destruct (in_range (d + 1)); cbn [bind]; [|discriminate].
    rewrite Z.geb_leb.
    destruct (Z.leb_spec today (Z.max (d + 1) (today + - (365 * years_back))));
      ok_inj; lia.
  - discriminate.
Qed.

(** X1.  Whatever the watermark and the lookback, a start that
    [_compute_start_date] returns is not after today, and not before the
    earlier of today and the horizon, today minus 365 days per year. *)
Theorem start_date_bounds (today : date) (last : last_date)
        (years_back : Z) (start : date) :
  _compute_start_date today last years_back = Ok start ->
  Z.min today (today - 365 * years_back) <= start <= today.
Proof. apply compute_start_date_range. Qed.

Lemma start_date_bounds_witness :
  Z.min (ymd2ord 2024 6 1) (ymd2ord 2024 6 1 - 365 * 10) <= ymd2ord 2024 5 31
  <= ymd2ord 2024 6 1.
Proof.
  apply (start_date_bounds (ymd2ord 2024 6 1) (ADate (ymd2ord 2024 5 30)) 10).
  reflexivity.
Defined.

(** X2.  A later watermark never gives an earlier start, and a watermark
    never gives an earlier start than no watermark: what was stored can
    only narrow the window. *)
Theorem start_date_monotone (today : date) (years_back : Z)
        (wm1 wm2 : date) (s0 s1 s2 : date) :
  wm1 <= wm2 ->
  _compute_start_date today NoDate years_back = Ok s0 ->
  _compute_start_date today (ADate wm1) years_back = Ok s1 ->
  _compute_start_date today (ADate wm2) years_back = Ok s2 ->
  s0 <= s1 <= s2.
Proof.
  unfold _compute_start_date, add_days.
  destruct (in_range (today + - (365 * years_back))); cbn [bind]; [|discriminate].
  destruct (in_range (wm1 + 1)); cbn [bind]; [|discriminate].
  destruct (in_range (wm2 + 1)); cbn [bind]; [|discriminate].
  rewrite !Z.geb_leb.
  destruct (Z.leb_spec today (today + - (365 * years_back)));
    destruct (Z.leb_spec today (Z.max (wm1 + 1) (today + - (365 * years_back))));
    destruct (Z.leb_spec today (Z.max (wm2 + 1) (today + - (365 * years_back))));
    intros Hw; do 3 ok_inj; lia.
Qed.

Lemma start_date_monotone_witness :
  ymd2ord 2014 6 4 <= ymd2ord 2024 5 21 <= ymd2ord 2024 5 31.
Proof.
  apply (start_date_monotone (ymd2ord 2024 6 1) 10
                             (ymd2ord 2024 5 20) (ymd2ord 2024 5 30)).
  - vm_compute. discriminate.
  - reflexivity.
  - reflexivity.
  - reflexivity.
Defined.

(** X3.  The planner raises [OverflowError] when the horizon is not a
    date of the calendar, and when the watermark is the last day of the
    calendar, whose day after does not exist. *)
Theorem start_date_overflow (today : date) (last : last_date) (years_back : Z) :
  (~ valid (today - 365 * years_back) ->
   _compute_start_date today last years_back = Raise OverflowError)
  /\ (valid (today - 365 * years_back) ->
      _compute_start_date today (ADate MAXORD) years_back = Raise OverflowError).
Proof.
  unfold _compute_start_date. split; intros H.
  - rewrite add_days_raises; [reflexivity|].
    now replace (today + - (365 * years_back)) with (today - 365 * years_back) by lia.
  - rewrite add_days_valid
      by (now replace (today + - (365 * years_back))
            with (today - 365 * years_back) by lia).
    reflexivity.
Qed.

Lemma start_date_overflow_witness :
  _compute_start_date (ymd2ord 2024 6 1) NoDate 3000 = Raise OverflowError.
Proof.
  apply (proj1 (start_date_overflow (ymd2ord 2024 6 1) NoDate 3000)).
  vm_compute. intros [H _]. apply H. reflexivity.
Defined.

Section WorkerProperties.

Variable float_of_str : string -> option pyfloat.
Variable utc_date_of_float : pyfloat -> result date.
Variable local_midnight : date -> Z.
Variable remote : request -> response.
Variable float_repr : pyfloat -> string.
Variable pd_to_datetime : string -> pd_parse.

Local Abbreviation normalize := (_normalize_last_date float_repr pd_to_datetime).
Local Abbreviation worker :=
  (fetch_worker float_of_str utc_date_of_float local_midnight remote
                float_repr pd_to_datetime).

(** X4.  A task either raises before any request, or issues exactly one
    request: for a window that starts within the ten years of 365 days
    before the day the planner read, not after that day, and that ends
    the day after the day read at line 179.  So the return of line 183,
    without a request, is never taken. *)
Theorem worker_single_request (today_plan today_end : date)
        (symbol : string) (raw : cell) :
  today_plan <= today_end ->
  (exists e, worker today_plan today_end symbol raw = ([], Raise e))
  \/ (exists start_dt,
         today_plan - 3650 <= start_dt <= today_plan
         /\ fst (worker today_plan today_end symbol raw)
            = [mkrequest symbol (local_midnight start_dt)
                         (local_midnight (today_end + 1))]).
Proof.
  intros Hc. unfold fetch_worker.
  destruct (normalize raw) as [last|e]; cbn [bind]; [|left; now exists e].
  destruct (_compute_start_date today_plan last 10) as [start_dt|e] eqn:Es;
    cbn [bind]; [|left; now exists e].
  apply compute_start_date_range in Es.
  unfold add_days. destruct (in_range (today_end + 1)); cbn [bind];
    [|left; now exists OverflowError].
  right. exists start_dt. split; [lia|].
  rewrite Z.geb_leb. destruct (Z.leb_spec (today_end + 1) start_dt); [lia|].
  pose proof (fetch_requests float_of_str utc_date_of_float local_midnight remote
                             symbol start_dt (today_end + 1)) as F.
  destruct (yahoo_fetch_range_rows _ _ _ _ _ _ _) as [calls rows].
  cbn [fst] in *. apply F. lia.
Qed.

Lemma normalize_isna (raw : cell) : pd_isna raw = true -> normalize raw = Ok NoDate.
Proof. intros H. unfold _normalize_last_date. now rewrite H. Qed.

(** X5.  For a raw watermark that is NaN, blank, a spelling of [none] in
    any case, or a text that pandas refuses, the task asks for the whole
    lookback: one request, from today minus 3650 days to tomorrow. *)
Theorem worker_full_lookback (today : date) (symbol : string) (raw : cell) :
  pd_isna raw = true
  \/ strip (py_str float_repr raw) = ""
  \/ lower (strip (py_str float_repr raw)) = "none"
  \/ (exists e, pd_to_datetime (strip (py_str float_repr raw)) = PdRaise e) ->
  3651 <= today < MAXORD ->
  fst (worker today today symbol raw)
  = [mkrequest symbol (local_midnight (today - 3650)) (local_midnight (today + 1))].
Proof.
  intros H Ht. apply worker_without_watermark; [|assumption].
  destruct H as [H|[H|[H|[e H]]]].
  - now apply normalize_isna.
  - now apply normalize_blank.
  - now apply normalize_none.
  - now apply (normalize_unparseable _ _ _ e).
Qed.

End WorkerProperties.

Lemma worker_single_request_witness :
  (exists e,
      fetch_worker no_float_of_str no_utc_date_of_float utc_midnight
                   sample_service no_float_repr iso_to_datetime
                   (ymd2ord 2024 6 1) (ymd2ord 2024 6 2)
                   "BTC-USD" (CellStr "2024-05-30")
      = ([], Raise e))
  \/ (exists start_dt,
         ymd2ord 2024 6 1 - 3650 <= start_dt <= ymd2ord 2024 6 1
         /\ fst (fetch_worker no_float_of_str no_utc_date_of_float utc_midnight
                              sample_service no_float_repr iso_to_datetime
                              (ymd2ord 2024 6 1) (ymd2ord 2024 6 2)
                              "BTC-USD" (CellStr "2024-05-30"))
            = [mkrequest "BTC-USD" (utc_midnight start_dt)
                         (utc_midnight (ymd2ord 2024 6 2 + 1))]).
Proof.
  apply (worker_single_request no_float_of_str no_utc_date_of_float utc_midnight
                               sample_service no_float_repr iso_to_datetime
                               (ymd2ord 2024 6 1) (ymd2ord 2024 6 2)).
  vm_compute. discriminate.
Defined.

Lemma worker_full_lookback_witness :
  fst (fetch_worker no_float_of_str no_utc_date_of_float utc_midnight
                    sample_service no_float_repr iso_to_datetime
                    (ymd2ord 2024 6 1) (ymd2ord 2024 6 1)
                    "BTC-USD" (CellStr "  NoNe "))
  = [mkrequest "BTC-USD" (utc_midnight (ymd2ord 2024 6 1 - 3650))
               (utc_midnight (ymd2ord 2024 6 1 + 1))].
Proof.
  apply (worker_full_lookback no_float_of_str no_utc_date_of_float utc_midnight
                              sample_service no_float_repr iso_to_datetime
                              (ymd2ord 2024 6 1) "BTC-USD" (CellStr "  NoNe ")).
  - right. right. left. reflexivity.
  - vm_compute. split; [discriminate|reflexivity].
Defined.

(** ** Range fetcher, further *)

Lemma zip6_length (ts os hs ls cs vs : list pyval) :
  (List.length (zip6 ts os hs ls cs vs) <= List.length ts)%nat.
Proof.
  revert os hs ls cs vs. induction ts as [|t ts IH]; intros os hs ls cs vs;
    [cbn; lia|].
  destruct os as [|o os]; [cbn; lia|]. destruct hs as [|h hs]; [cbn; lia|].
  destruct ls as [|l ls]; [cbn; lia|]. destruct cs as [|c cs]; [cbn; lia|].
  destruct vs as [|v vs]; [cbn; lia|].
  cbn. specialize (IH os hs ls cs vs). lia.
Qed.

Lemma zip6_nil (ts os hs ls cs vs : list pyval) :
  ts = [] \/ os = [] \/ hs = [] \/ ls = [] \/ cs = [] \/ vs = [] ->
  zip6 ts os hs ls cs vs = [].
Proof.
  destruct ts as [|t ts]; [reflexivity|]. destruct os as [|o os]; [reflexivity|].
  destruct hs as [|h hs]; [reflexivity|]. destruct ls as [|l ls]; [reflexivity|].
  destruct cs as [|c cs]; [reflexivity|]. destruct vs as [|v vs]; [reflexivity|].
  intros [H|[H|[H|[H|[H|H]]]]]; discriminate.
Qed.

Lemma zip6_candle_ok (ts os hs ls cs vs : list pyval) :
  forallb timestamp_ok ts = true -> forallb number_ok os = true ->
  forallb number_ok hs = true -> forallb number_ok ls = true ->
  forallb number_ok cs = true -> forallb number_ok vs = true ->
  forallb candle_ok (zip6 ts os hs ls cs vs) = true.
Proof.
  revert os hs ls cs vs. induction ts as [|t ts IH]; intros os hs ls cs vs;
    [reflexivity|].
  destruct os as [|o os]; [reflexivity|]. destruct hs as [|h hs]; [reflexivity|].
  destruct ls as [|l ls]; [reflexivity|]. destruct cs as [|c cs]; [reflexivity|].
  destruct vs as [|v vs]; [reflexivity|].
  cbn [forallb zip6]. rewrite !andb_true_iff.
  intros [Ht Hts] [Ho Hos] [Hh Hhs] [Hl Hls] [Hc Hcs] [Hv Hvs].
  split; [|now apply IH].
  unfold candle_ok. cbn. now rewrite Ht, Ho, Hh, Hl, Hc, Hv.
Qed.

Section FetcherFurther.

Variable float_of_str : string -> option pyfloat.
Variable utc_date_of_float : pyfloat -> result date.
Variable local_midnight : date -> Z.
Variable remote : request -> response.

Local Abbreviation fetch :=
  (yahoo_fetch_range_rows float_of_str utc_date_of_float local_midnight remote).
Local Abbreviation candle_row := (row_of_candle float_of_str utc_date_of_float).
Local Abbreviation rows_of := (build_rows float_of_str utc_date_of_float).
Local Abbreviation parse := (parse_rows float_of_str utc_date_of_float).
Local Abbreviation kept_of := (kept float_of_str utc_date_of_float).

Ltac shape_absurd :=
  let H := fresh "H" in
  intros ? ? H;
  destruct H as (? & ? & ? & ? & ? & ? & ? & ? & ? & ? & ? & ? & H);
  try (destruct H as [[? H]|(? & ? & H & ?)]);
  congruence.

(** The extraction of lines 141-146 succeeds on the payloads of the
    expected shape and on no other. *)
Lemma extract_shape (data : pyval) :
  match extract data with
  | Ok (timestamps, quote) => payload_shape data timestamps quote
  | Raise _ => forall timestamps quote, ~ payload_shape data timestamps quote
  end.
Proof.
  unfold extract.
  destruct data as [ |b|z|f|s|l|kvs]; cbn [getitem bind]; try shape_absurd.
  destruct (dict_find "chart" kvs) as [chart|] eqn:C; cbn [bind];
    [|shape_absurd].
  destruct chart as [ |b|z|f|s|l|ckvs]; cbn [getitem bind]; try shape_absurd.
  destruct (dict_find "result" ckvs) as [results|] eqn:R; cbn [bind];
    [|shape_absurd].
  destruct results as [ |b|z|f|s|l|d]; cbn [getitem0 bind]; try shape_absurd.
  { destruct s as [|c s]; cbn [bind py_get]; shape_absurd. }
  destruct l as [|result0 rest]; cbn [bind]; [shape_absurd|].
  destruct result0 as [ |b|z|f|s|l|rkvs]; cbn [py_get bind]; try shape_absurd.
  assert (T : forall d0,
             match dict_find "timestamp" rkvs with
             | Some x => Ok x
             | None => Ok d0
             end
             = Ok match dict_find "timestamp" rkvs with
                  | Some t => t
                  | None => d0
                  end)
    by (intros d0; now destruct (dict_find "timestamp" rkvs)).
  rewrite T. cbn [bind getitem].
  destruct (dict_find "indicators" rkvs) as [indicators|] eqn:I; cbn [bind];
    [|shape_absurd].
  destruct indicators as [ |b|z|f|s|l|ikvs]; cbn [getitem bind]; try shape_absurd.
  destruct (dict_find "quote" ikvs) as [quotes|] eqn:Q; cbn [bind];
    [|shape_absurd].
  destruct quotes as [ |b|z|f|s|l|d]; cbn [getitem0 bind]; try shape_absurd.
  - destruct s as [|c s]; cbn [bind]; [shape_absurd|].
    exists kvs, ckvs, rest, rkvs, ikvs, (PStr (String c s)).
    repeat split; try assumption. right. now exists c, s.
  - destruct l as [|quote others]; cbn [bind]; [shape_absurd|].
    exists kvs, ckvs, rest, rkvs, ikvs, (PList (quote :: others)).
    repeat split; try assumption. left. now exists others.
Qed.

(** X6.  On a window that is not degenerate and does not start on the
    first day of the calendar, the fetcher issues its one request; it
    returns the empty list when the request or the decoding of its body
    raises, and on every payload that has not the shape that lines
    141-146 read (an object, a [chart] object in it, a [result] list
    that starts with an object, an [indicators] object in that, and a
    [quote] that is not empty); on a payload of that shape, and on no
    other, it goes on to the loop over the columns. *)
Theorem fetch_degrades_to_empty (symbol : string) (start_dt end_dt : date) :
  MINORD < start_dt ->
  start_dt < end_dt ->
  (forall e,
      remote (mkrequest symbol (local_midnight start_dt) (local_midnight end_dt))
      = RespRaise e ->
      fetch symbol start_dt end_dt
      = ([mkrequest symbol (local_midnight start_dt) (local_midnight end_dt)],
         Ok []))
  /\ (forall data,
         remote (mkrequest symbol (local_midnight start_dt) (local_midnight end_dt))
         = RespJson data ->
         (forall timestamps quote, ~ payload_shape data timestamps quote) ->
         fetch symbol start_dt end_dt
         = ([mkrequest symbol (local_midnight start_dt) (local_midnight end_dt)],
            Ok []))
  /\ (forall data timestamps quote,
         remote (mkrequest symbol (local_midnight start_dt) (local_midnight end_dt))
         = RespJson data ->
         payload_shape data timestamps quote ->
         fetch symbol start_dt end_dt
         = ([mkrequest symbol (local_midnight start_dt) (local_midnight end_dt)],
            parse symbol timestamps quote)).
Proof.
  intros _ H. unfold yahoo_fetch_range_rows.
  rewrite Z.geb_leb. destruct (Z.leb_spec end_dt start_dt); [lia|].
  split; [|split].
  - intros e ->. reflexivity.
  - intros data -> N. pose proof (extract_shape data) as S.
    destruct (extract data) as [[ts q]|e]; [|reflexivity].
    now apply N in S.
  - intros data ts q -> P. pose proof (extract_shape data) as S.
    destruct (extract data) as [[ts' q']|e]; [|now apply S in P].
    destruct P as (k1 & c1 & r1 & rk1 & i1 & q1 & E1 & E2 & E3 & E4 & E5 & E6 & E7).
    destruct S as (k2 & c2 & r2 & rk2 & i2 & q2 & F1 & F2 & F3 & F4 & F5 & F6 & F7).
    assert (rk1 = rk2 /\ q1 = q2) as [<- <-] by (split; congruence).
    assert (Eq : q = q').
    { destruct E7 as [[o1 E7]|(c & s0 & E7 & ->)],
        F7 as [[o2 F7]|(c' & s' & F7 & ->)]; congruence. }
    now rewrite E4, F4, Eq.
Qed.

Lemma number_ok_float (v : pyval) :
  number_ok v = true -> is_none v = false ->
  exists f, py_float float_of_str v = Ok f.
Proof.
  destruct v as [ |b|z|f|s|l|kvs]; cbn; try discriminate; intros H _; eauto.
  destruct (float_of_Z z); try discriminate; eauto.
Qed.

Lemma timestamp_ok_date (t : pyval) :
  timestamp_ok t = true -> exists d, utc_date utc_date_of_float t = Ok d.
Proof.
  destruct t as [ |b|z|f|s|l|kvs]; try (cbn; discriminate).
  unfold timestamp_ok, utc_date, utc_date_of_int.
  rewrite !andb_true_iff. intros [[H1 H2] H3].
  rewrite H1, H2, H3. cbn [andb]. eauto.
Qed.

Lemma candle_ok_row (symbol : string) (k : candle) :
  candle_ok k = true -> exists r, candle_row symbol k = Ok r.
Proof.
  unfold candle_ok, row_of_candle. rewrite !andb_true_iff.
  intros [[[[[Ht Ho] Hh] Hl] Hc] Hv].
  destruct (is_none (c_o k)) eqn:No; cbn [orb]; [eauto|].
  destruct (is_none (c_h k)) eqn:Nh; cbn [orb]; [eauto|].
  destruct (is_none (c_l k)) eqn:Nl; cbn [orb]; [eauto|].
  destruct (is_none (c_c k)) eqn:Nc; cbn [orb]; [eauto|].
  destruct (timestamp_ok_date _ Ht) as [d ->].
  destruct (number_ok_float _ Ho No) as [o ->].
  destruct (number_ok_float _ Hh Nh) as [h ->].
  destruct (number_ok_float _ Hl Nl) as [l ->].
  destruct (number_ok_float _ Hc Nc) as [c ->].
  cbn [bind]. destruct (is_none (c_v k)) eqn:Nv; [cbn; eauto|].
  destruct (number_ok_float _ Hv Nv) as [v ->]. cbn. eauto.
Qed.

Lemma build_rows_ok (symbol : string) (ks : list candle) :
  forallb candle_ok ks = true ->
  forall acc, exists rows, rows_of symbol ks acc = Ok rows.
Proof.
  induction ks as [|k ks IH]; cbn [forallb build_rows]; intros H acc; [eauto|].
  apply andb_true_iff in H. destruct H as [Hk Hks].
  destruct (candle_ok_row symbol k Hk) as [[r|] ->]; cbn [bind]; now apply IH.
Qed.

Lemma column_ok_iter (kvs : list (string * pyval)) (name : string) :
  column_ok kvs name = true ->
  exists x l, column (PDict kvs) name = Ok x /\ py_iter x = Ok l
              /\ forallb number_ok l = true.
Proof.
  unfold column_ok, column, py_get, py_or.
  destruct (dict_find name kvs) as [v|]; cbn [bind].
  - destruct v as [ |b|z|f|s|l|d]; intros H;
      try (apply negb_true_iff in H; rewrite H; exists (PList []), []; now repeat split).
    destruct l as [|y l]; cbn [truthy].
    + exists (PList []), []. now repeat split.
    + exists (PList (y :: l)), (y :: l). now repeat split.
  - intros _. exists (PList []), []. now repeat split.
Qed.

Lemma kept_length (symbol : string) (ks : list candle) :
  (List.length (kept_of symbol ks) <= List.length ks)%nat.
Proof.
  induction ks as [|k ks IH]; [cbn; lia|].
  unfold kept in *. cbn [flat_map List.length]. rewrite length_app.
  destruct (row_of_candle float_of_str utc_date_of_float symbol k) as [[r|]|e'];
    cbn [List.length]; lia.
Qed.

(** X7.  On a payload of the expected types (a list of integer
    timestamps that fall on days of the calendar, a quote that is an
    object, each of its five columns absent, falsy, or a list of floats,
    booleans, integers within the range of floats and [None]) the
    fetcher does not raise: it returns the rows of the candles it keeps,
    at most one per timestamp. *)
Theorem fetch_expected_types (symbol : string) (start_dt end_dt : date)
        (data : pyval) (ts : list pyval) (kvs : list (string * pyval)) :
  start_dt < end_dt ->
  remote (mkrequest symbol (local_midnight start_dt) (local_midnight end_dt))
  = RespJson data ->
  extract data = Ok (PList ts, PDict kvs) ->
  forallb timestamp_ok ts = true ->
  forallb (column_ok kvs) quote_columns = true ->
  exists rows,
    fetch symbol start_dt end_dt
    = ([mkrequest symbol (local_midnight start_dt) (local_midnight end_dt)], Ok rows)
    /\ (List.length rows <= List.length ts)%nat.
Proof.
  intros H E X Hts Hcols. unfold yahoo_fetch_range_rows.
  rewrite Z.geb_leb. destruct (Z.leb_spec end_dt start_dt); [lia|].
  rewrite E, X. cbn [forallb quote_columns] in Hcols.
  rewrite !andb_true_iff in Hcols.
  destruct Hcols as (Ho & Hh & Hl & Hc & Hv & _).
  destruct (column_ok_iter _ _ Ho) as (xo & os & Eo & Io & Fo).
  destruct (column_ok_iter _ _ Hh) as (xh & hs & Eh & Ih & Fh).
  destruct (column_ok_iter _ _ Hl) as (xl & ls & El & Il & Fl).
  destruct (column_ok_iter _ _ Hc) as (xc & cs & Ec & Ic & Fc).
  destruct (column_ok_iter _ _ Hv) as (xv & vs & Ev & Iv & Fv).
  unfold parse_rows. rewrite Eo, Eh, El, Ec, Ev. cbn [bind py_iter].
  rewrite Io, Ih, Il, Ic, Iv. cbn [bind].
  destruct (build_rows_ok symbol (zip6 ts os hs ls cs vs)
                          (zip6_candle_ok _ _ _ _ _ _ Hts Fo Fh Fl Fc Fv) [])
    as [rows Hr].
  exists rows. rewrite Hr. split; [reflexivity|].
  apply build_rows_kept in Hr. cbn [app] in Hr. subst rows.
  eapply Nat.le_trans; [apply kept_length|apply zip6_length].
Qed.

Lemma kept_symbol (symbol : string) (ks : list candle) :
  Forall (fun r => row_symbol r = symbol) (kept_of symbol ks).
Proof.
  induction ks as [|k ks IH]; cbn; [constructor|].
  apply Forall_app. split; [|exact IH].
  unfold row_of_candle.
  destruct (is_none (c_o k) || is_none (c_h k) || is_none (c_l k)
            || is_none (c_c k)); [constructor|].
  destruct (utc_date utc_date_of_float (c_t k)); cbn [bind]; [|constructor].
  destruct (py_float float_of_str (c_o k)); cbn [bind]; [|constructor].
  destruct (py_float float_of_str (c_h k)); cbn [bind]; [|constructor].
  destruct (py_float float_of_str (c_l k)); cbn [bind]; [|constructor].
  destruct (py_float float_of_str (c_c k)); cbn [bind]; [|constructor].
  destruct (if is_none (c_v k) then _ else _); cbn [bind]; repeat constructor.
Qed.

Lemma fetch_symbol (symbol : string) (start_dt end_dt : date) (rows : list row) :
  snd (fetch symbol start_dt end_dt) = Ok rows ->
  Forall (fun r => row_symbol r = symbol) rows.
Proof.
  unfold yahoo_fetch_range_rows.
  destruct (start_dt >=? end_dt); [intros [= <-]; constructor|].
  destruct (remote _) as [e|data]; [intros [= <-]; constructor|].
  destruct (extract data) as [[timestamps quote]|e]; [|intros [= <-]; constructor].
  cbn [snd]. intros H.
  destruct (parse_rows_kept _ _ _ _ _ _ H) as (ts & os & hs & ls & cs & vs & R).
  destruct R as (_ & _ & _ & _ & _ & _ & ->). apply kept_symbol.
Qed.

(** X9.  When one of the five columns of the quote is absent or falsy
    ([null], an empty list), or the list of timestamps is empty, the
    parser returns no row, whatever the other columns hold: [zip] stops
    at the shortest of its arguments. *)
Theorem parse_rows_short_column (symbol : string) (timestamps : pyval)
        (kvs : list (string * pyval)) (name : string) :
  py_iter timestamps = Ok []
  \/ (In name quote_columns
      /\ (dict_find name kvs = None
          \/ exists v, dict_find name kvs = Some v /\ truthy v = false)) ->
  parse symbol timestamps (PDict kvs) = Ok []
  \/ exists e, parse symbol timestamps (PDict kvs) = Raise e.
Proof.
  intros H.
  destruct (parse symbol timestamps (PDict kvs)) as [rows|e] eqn:P;
    [left|right; now exists e].
  destruct (parse_rows_kept _ _ _ _ _ _ P)
    as (ts & os & hs & ls & cs & vs & Et & Eo & Eh & El & Ec & Ev & ->).
  rewrite zip6_nil; [reflexivity|].
  destruct H as [H|[Hin Hcol]]; [left; congruence|].
  assert (Hc : (x <- column (PDict kvs) name ;; py_iter x) = Ok []).
  { unfold column, py_get, py_or.
    destruct Hcol as [->|[v [-> Hv]]]; cbn [bind]; [reflexivity|].
    now rewrite Hv. }
  cbn in Hin. right.
  destruct Hin as [<-|[<-|[<-|[<-|[<-|[]]]]]].
  - left. congruence.
  - right. left. congruence.
  - right. right. left. congruence.
  - right. right. right. left. congruence.
  - right. right. right. right. congruence.
Qed.

End FetcherFurther.

(** X8.  A task that returns gives back its own symbol, and every row
    it returns carries that symbol: the rows of two tasks for different
    symbols never share a key. *)
Theorem worker_rows_symbol
        (float_of_str : string -> option pyfloat)
        (utc_date_of_float : pyfloat -> result date)
        (local_midnight : date -> Z) (remote : request -> response)
        (float_repr : pyfloat -> string) (pd_to_datetime : string -> pd_parse)
        (today_plan today_end : date) (symbol : string) (raw : cell)
        (sym : string) (rows : list row) :
  snd (fetch_worker float_of_str utc_date_of_float local_midnight remote
                    float_repr pd_to_datetime today_plan today_end symbol raw)
  = Ok (sym, rows) ->
  sym = symbol /\ Forall (fun r => row_symbol r = symbol) rows.
Proof.
  unfold fetch_worker.
  destruct (last_dt <- _ ;; _) as [[start_dt end_dt]|e]; [|discriminate].
  destruct (start_dt >=? end_dt).
  - intros [= <- <-]. split; [reflexivity|constructor].
  - pose proof (fetch_symbol float_of_str utc_date_of_float local_midnight remote
                             symbol start_dt end_dt) as F.
    destruct (yahoo_fetch_range_rows _ _ _ _ _ _ _) as [calls [rows'|e]];
      cbn [snd bind] in *; [|discriminate].
    intros [= <- <-]. split; [reflexivity|]. now apply F.
Qed.

Lemma worker_rows_symbol_witness :
  "BTC-USD" = "BTC-USD"
  /\ Forall (fun r => row_symbol r = "BTC-USD")
            [mkrow "BTC-USD" "2024-06-01" (float_of_Z 10) (float_of_Z 12)
                   (float_of_Z 9) (float_of_Z 11) (float_of_Z 1000);
             mkrow "BTC-USD" "2024-06-02" (float_of_Z 11) (float_of_Z 13)
                   (float_of_Z 10) (float_of_Z 12) float_zero].
Proof.
  apply (worker_rows_symbol no_float_of_str no_utc_date_of_float utc_midnight
                            sample_service no_float_repr iso_to_datetime
                            (ymd2ord 2024 6 1) (ymd2ord 2024 6 1)
                            "BTC-USD" (CellStr "2024-05-30")).
  reflexivity.
Defined.

(** The service does not know the symbol: no row, and no exception. *)
Lemma fetch_degrades_to_empty_witness :
  yahoo_fetch_range_rows no_float_of_str no_utc_date_of_float utc_midnight
                         (fun _ => RespJson error_payload)
                         "NOPE-USD" (ymd2ord 2024 6 1) (ymd2ord 2024 6 2)
  = ([mkrequest "NOPE-USD" (utc_midnight (ymd2ord 2024 6 1))
                (utc_midnight (ymd2ord 2024 6 2))], Ok []).
Proof.
  apply (proj1 (proj2 (fetch_degrades_to_empty
                         no_float_of_str no_utc_date_of_float utc_midnight
                         (fun _ => RespJson error_payload)
                         "NOPE-USD" (ymd2ord 2024 6 1) (ymd2ord 2024 6 2)
                         eq_refl eq_refl))
               error_payload eq_refl).
  intros timestamps quote (k & c & r & rk & i & q & E1 & E2 & E3 & _).
  injection E1 as <-. injection E2 as <-. discriminate.
Defined.

Lemma fetch_expected_types_witness :
  exists rows,
    yahoo_fetch_range_rows no_float_of_str no_utc_date_of_float utc_midnight
                           sample_service "BTC-USD"
                           (ymd2ord 2024 6 1) (ymd2ord 2024 6 3)
    = ([mkrequest "BTC-USD" (utc_midnight (ymd2ord 2024 6 1))
                  (utc_midnight (ymd2ord 2024 6 3))], Ok rows)
    /\ (List.length rows <= List.length [PInt 1717200000; PInt 1717286400])%nat.
Proof.
  apply (fetch_expected_types no_float_of_str no_utc_date_of_float utc_midnight
                              sample_service "BTC-USD" (ymd2ord 2024 6 1)
                              (ymd2ord 2024 6 3) sample_payload
                              [PInt 1717200000; PInt 1717286400]
                              [("open", PList [PInt 10; PInt 11]);
                               ("high", PList [PInt 12; PInt 13]);
                               ("low", PList [PInt 9; PInt 10]);
                               ("close", PList [PInt 11; PInt 12]);
                               ("volume", PList [PInt 1000; PNone])]);
    reflexivity.
Defined.

(** A quote without volumes: no row, though every price is there. *)
Lemma parse_rows_short_column_witness :
  parse_rows no_float_of_str no_utc_date_of_float "BTC-USD"
             (PList [PInt 1717200000])
             (PDict [("open", PList [PInt 10]); ("high", PList [PInt 12]);
                     ("low", PList [PInt 9]); ("close", PList [PInt 11])])
  = Ok []
  \/ exists e,
      parse_rows no_float_of_str no_utc_date_of_float "BTC-USD"
                 (PList [PInt 1717200000])
                 (PDict [("open", PList [PInt 10]); ("high", PList [PInt 12]);
                         ("low", PList [PInt 9]); ("close", PList [PInt 11])])
      = Raise e.
Proof.
  apply (parse_rows_short_column no_float_of_str no_utc_date_of_float "BTC-USD"
                                 (PList [PInt 1717200000]) _ "volume").
  right. split; [cbn; tauto|]. left. reflexivity.
Defined.

(** ** Persistence writer, further *)

(** X10.  The total that the writer reports bounds the number of rows it
    added to the table, whatever fails; it counts the rows of a committed
    batch that were skipped as duplicates too, and is the number of rows
    added when nothing fails and no key comes twice. *)
Theorem total_written_bounds (fault : nat -> bool) (store : table)
        (batches : list (list row)) :
  (Z.of_nat (List.length store)
   <= Z.of_nat (List.length (stored (db_writer fault store
                                               (map Some batches ++ [None])))))
  /\ (Z.of_nat (List.length (stored (db_writer fault store
                                               (map Some batches ++ [None]))))
      <= Z.of_nat (List.length store)
         + total_written (db_writer fault store (map Some batches ++ [None])))
  /\ (NoDup (keys (store ++ List.concat batches)) ->
      Z.of_nat (List.length (stored (db_writer no_fault store
                                               (map Some batches ++ [None]))))
      = Z.of_nat (List.length store)
        + total_written (db_writer no_fault store (map Some batches ++ [None]))).
Proof.
  unfold db_writer.
  destruct (writer_loop_survivors fault batches
              (mkwriter (connect store) 0 [] false) eq_refl eq_refl)
    as (F1 & F2 & _).
  destruct (writer_loop_survivors no_fault batches
              (mkwriter (connect store) 0 [] false) eq_refl eq_refl)
    as (N1 & N2 & _).
  rewrite survivors_no_fault in N1, N2. cbn in F1, F2, N1, N2.
  rewrite F1, F2, N1, N2.
  pose proof (ingest_length
                (List.concat (survivors fault batches
                                        (mkwriter (connect store) 0 [] false)))
                store) as L.
  repeat split; try lia.
  intros H. rewrite ingest_fresh by assumption. rewrite length_app. lia.
Qed.

(** X11.  After a run without failures, a second run over the same
    batches leaves the table as it is, whichever of its inserts and
    commits fail. *)
Theorem second_run_changes_nothing (fault : nat -> bool) (store : table)
        (batches : list (list row)) :
  stored (db_writer fault
                    (stored (db_writer no_fault store (map Some batches ++ [None])))
                    (map Some batches ++ [None]))
  = stored (db_writer no_fault store (map Some batches ++ [None])).
Proof.
  unfold db_writer at 1.
  destruct (writer_loop_survivors fault batches
              (mkwriter (connect (stored (db_writer no_fault store
                                                    (map Some batches ++ [None]))))
                        0 [] false) eq_refl eq_refl) as (F1 & _).
  cbn [stored w_conn connect committed] in F1 |- *. rewrite F1. clear F1.
  apply ingest_present. intros r Hr.
  apply in_concat in Hr. destruct Hr as (b & Hb & Hr).
  apply survivors_sublist in Hb.
  unfold db_writer.
  destruct (writer_loop_survivors no_fault batches
              (mkwriter (connect store) 0 [] false) eq_refl eq_refl) as (N1 & _).
  rewrite survivors_no_fault in N1. cbn in N1.
  change (committed (w_conn ?w)) with (stored w). rewrite N1.
  apply ingest_has_keys. apply in_concat. eauto.
Qed.

Lemma total_written_bounds_witness :
  Z.of_nat (List.length (stored (db_writer no_fault [row_a1]
                                           (map Some [[row_a2]; [row_b1]] ++ [None]))))
  = Z.of_nat (List.length [row_a1])
    + total_written (db_writer no_fault [row_a1]
                               (map Some [[row_a2]; [row_b1]] ++ [None])).
Proof.
  apply (total_written_bounds no_fault [row_a1] [[row_a2]; [row_b1]]).
  repeat constructor; cbn; intuition discriminate.
Defined.

Lemma lookup_app (k : key) (t u : table) :
  lookup k (t ++ u)
  = match lookup k t with
    | Some r => Some r
    | None => lookup k u
    end.
Proof.
  unfold lookup. induction t as [|x t IH]; cbn; [reflexivity|].
  destruct (key_eqb (row_key x) k); [reflexivity|exact IH].
Qed.

Lemma has_key_lookup_some (k : key) (t : table) :
  has_key k t = true -> exists r, lookup k t = Some r.
Proof.
  unfold lookup, has_key. induction t as [|x t IH]; cbn; [discriminate|].
  destruct (key_eqb (row_key x) k); cbn; eauto.
Qed.

(** A key that at most one batch has is looked up in that batch. *)
Lemma lookup_concat_single (k : key) (batches : list (list row)) :
  (List.length (filter (has_key k) batches) <= 1)%nat ->
  lookup k (List.concat batches)
  = match filter (has_key k) batches with
    | b :: _ => lookup k b
    | [] => None
    end.
Proof.
  induction batches as [|b batches IH]; intros H; [reflexivity|].
  cbn [List.concat filter] in *. rewrite lookup_app.
  destruct (has_key k b) eqn:E.
  - destruct (has_key_lookup_some k b E) as [r ->]. reflexivity.
  - rewrite (has_key_lookup k b E). now apply IH.
Qed.

Lemma Permutation_short {A : Type} (l l' : list A) :
  Permutation l l' -> (List.length l <= 1)%nat -> l = l'.
Proof.
  intros P H. destruct l as [|x [|y l]]; cbn in H; try lia.
  - apply Permutation_nil in P. now subst.
  - apply Permutation_length_1_inv in P. now subst.
Qed.

Lemma Permutation_filter {A : Type} (f : A -> bool) (l l' : list A) :
  Permutation l l' -> Permutation (filter f l) (filter f l').
Proof.
  induction 1 as [|x l l' P IH|x y l|l l' l'' P1 IH1 P2 IH2]; cbn.
  - constructor.
  - destruct (f x); [now constructor|assumption].
  - destruct (f x), (f y); try apply Permutation_refl. apply perm_swap.
  - eapply Permutation_trans; eauto.
Qed.

Lemma lookup_concat_perm (k : key) (batches batches' : list (list row)) :
  (List.length (filter (has_key k) batches) <= 1)%nat ->
  Permutation (filter (has_key k) batches) (filter (has_key k) batches') ->
  lookup k (List.concat batches) = lookup k (List.concat batches').
Proof.
  intros H P.
  rewrite !lookup_concat_single;
    [now rewrite (Permutation_short _ _ P H)
    |now rewrite <- (Permutation_length P)
    |assumption].
Qed.

Lemma table_after_ingest (store : table) (batches : list (list row)) :
  table_after store batches = ingest store (List.concat batches).
Proof.
  unfold table_after, db_writer.
  destruct (writer_loop_survivors no_fault batches
              (mkwriter (connect store) 0 [] false) eq_refl eq_refl) as (N1 & _).
  now rewrite survivors_no_fault in N1.
Qed.

(** X12.  The order in which the batches reach the writer does not
    matter when no key is found in two of them: for every key, the row
    that the table holds after a run without failures is the same for
    every order of the batches. *)
Theorem arrival_order_irrelevant (store : table) (batches batches' : list (list row)) :
  key_disjoint batches ->
  Permutation batches batches' ->
  forall k : key,
    lookup k (table_after store batches) = lookup k (table_after store batches').
Proof.
  intros D P k. rewrite !table_after_ingest.
  destruct (lookup_ingest k (List.concat batches) store) as [-> _].
  destruct (lookup_ingest k (List.concat batches') store) as [-> _].
  rewrite !lookup_app.
  now rewrite (lookup_concat_perm k batches batches' (D k)
                                  (Permutation_filter (has_key k) _ _ P)).
Qed.

Lemma filter_all_false {A : Type} (f : A -> bool) (l : list A) :
  (forall x, In x l -> f x = false) -> filter f l = [].
Proof.
  induction l as [|x l IH]; intros H; [reflexivity|]. cbn.
  rewrite (H x) by now left. apply IH. intros y Hy. apply H. now right.
Qed.

Lemma has_key_symbol (k : key) (sym : string) (rows : list row) :
  Forall (fun r => row_symbol r = sym) rows ->
  has_key k rows = true -> fst k = sym.
Proof.
  intros F H. unfold has_key in H. apply existsb_exists in H.
  destruct H as (r & Hin & He). apply key_eqb_eq in He. subst k.
  rewrite Forall_forall in F. now apply F.
Qed.

(** Batches that each carry one symbol, all different, are disjoint. *)
Lemma distinct_symbols_disjoint (tasks : list (string * list row)) :
  NoDup (map fst tasks) ->
  Forall (fun t => Forall (fun r => row_symbol r = fst t) (snd t)) tasks ->
  key_disjoint (map snd tasks).
Proof.
  induction tasks as [|[sym rows] tasks IH]; intros N F k; [cbn; lia|].
  inversion N as [|? ? Hnot Hn]; subst. inversion F as [|? ? Hr Hf]; subst.
  cbn [map snd fst filter] in *. specialize (IH Hn Hf k).
  destruct (has_key k rows) eqn:E; [|exact IH].
  rewrite filter_all_false; [cbn; lia|].
  intros b Hb. apply in_map_iff in Hb. destruct Hb as ([sym' rows'] & <- & Hin).
  cbn [snd]. destruct (has_key k rows') eqn:E'; [|reflexivity]. exfalso.
  rewrite Forall_forall in Hf. specialize (Hf _ Hin). cbn in Hf.
  apply (has_key_symbol k sym rows Hr) in E.
  apply (has_key_symbol k sym' rows' Hf) in E'.
  apply Hnot. apply in_map_iff. exists (sym', rows'). cbn. split; congruence.
Qed.

Lemma arrival_order_irrelevant_witness :
  lookup (row_key row_b1) (table_after [] [[row_a1; row_a2]; [row_b1]])
  = lookup (row_key row_b1) (table_after [] [[row_b1]; [row_a1; row_a2]]).
Proof.
  apply (arrival_order_irrelevant [] [[row_a1; row_a2]; [row_b1]]
                                  [[row_b1]; [row_a1; row_a2]]).
  - apply (distinct_symbols_disjoint [("A-USD", [row_a1; row_a2]); ("B-USD", [row_b1])]).
    + repeat constructor; cbn; intuition discriminate.
    + repeat constructor.
  - apply perm_swap.
Defined.

(** ** Scheduler, further *)

Lemma set_nth_length {A : Type} (x : A) (l : list A) :
  forall i, List.length (set_nth i x l) = List.length l.
Proof.
  induction l as [|h l IH]; intros [|i]; cbn; auto.
Qed.

(** Replacing a task changes a sum over the tasks by its own share. *)
Lemma sum_set_nth (g : future -> nat) (f f' : future) (fs : list future) :
  forall i,
    nth_error fs i = Some f ->
    (list_sum (map g (set_nth i f' fs)) + g f = list_sum (map g fs) + g f')%nat.
Proof.
  unfold list_sum.
  induction fs as [|h fs IH]; intros [|i] H; cbn in *; try discriminate.
  - injection H as ->. lia.
  - specialize (IH i H). lia.
Qed.

Lemma sum_repeat (g : future -> nat) (f : future) (n : nat) :
  list_sum (map g (repeat f n)) = (n * g f)%nat.
Proof.
  unfold list_sum. induction n as [|n IH]; cbn; [reflexivity|]. now rewrite IH.
Qed.

Lemma sum_bounded (g : future -> nat) (fs : list future) :
  (forall f, g f <= 1)%nat -> (list_sum (map g fs) <= List.length fs)%nat.
Proof.
  intros H. unfold list_sum. induction fs as [|f fs IH]; cbn; [lia|].
  specialize (H f). lia.
Qed.

Lemma concat_snoc_length {A : Type} (l : list (list A)) (x : list A) :
  List.length (List.concat (l ++ [x]))
  = (List.length (List.concat l) + List.length x)%nat.
Proof.
  rewrite concat_app, length_app. cbn. now rewrite app_nil_r.
Qed.

Lemma futures_cases (fs : list future) :
  (exists i, nth_error fs i = Some Running)
  \/ (exists i r, nth_error fs i = Some (Finished r))
  \/ Forall collected_task fs.
Proof.
  induction fs as [|f fs IH]; [right; right; constructor|].
  destruct f as [|r|r].
  - left. now exists 0%nat.
  - right. left. now exists 0%nat, r.
  - destruct IH as [[i H]|[(i & r' & H)|H]].
    + left. now exists (S i).
    + right. left. now exists (S i), r'.
    + right. right. constructor; [exact I|assumption].
Qed.

Section RunFurther.

Variable fault : nat -> bool.
Variable maxsize : nat.

Lemma reachable_futures_length (store : table) (n : nat) (s : system) :
  reachable fault maxsize store n s -> List.length (futures s) = n.
Proof.
  induction 1 as [|s s' _ IH Hs]; [apply repeat_length|].
  destruct Hs; cbn; rewrite ?set_nth_length; exact IH.
Qed.

Lemma reachable_queue_bound (store : table) (n : nat) (s : system) :
  reachable fault maxsize store n s -> (List.length (queue s) <= maxsize)%nat.
Proof.
  induction 1 as [|s s' _ IH Hs]; [cbn; lia|].
  destruct Hs as [s i r Hi | s i sym rows Hp Hi Hne Hlen | s i sym Hp Hi
                  | s i e Hp Hi | s Hp Hall Hlen | s item rest Hopen Hqueue
                  | s Hp Hcl]; cbn; rewrite ?length_app; cbn; try lia.
  rewrite Hqueue in IH. cbn in IH. lia.
Qed.

Lemma reachable_total_sent (store : table) (n : nat) (s : system) :
  reachable fault maxsize store n s ->
  total_rows s = Z.of_nat (List.length (List.concat (sent s))).
Proof.
  induction 1 as [|s s' _ IH Hs]; [reflexivity|].
  destruct Hs; cbn; try exact IH.
  rewrite concat_snoc_length, Nat2Z.inj_add. lia.
Qed.

Lemma reachable_total_collected (store : table) (n : nat) (s : system) :
  reachable fault maxsize store n s ->
  total_rows s
  = Z.of_nat (list_sum (map (fun f => List.length (collected_rows f)) (futures s))).
Proof.
  induction 1 as [|s s' _ IH Hs];
    [unfold initial; cbn [futures total_rows]; now rewrite sum_repeat, Nat.mul_0_r|].
  destruct Hs as [s i r Hi | s i sym rows Hp Hi Hne Hlen | s i sym Hp Hi
                  | s i e Hp Hi | s Hp Hall Hlen | s item rest Hopen Hqueue
                  | s Hp Hcl]; cbn [futures total_rows]; try exact IH;
    match goal with
    | |- context [set_nth _ ?f' _] =>
        pose proof (sum_set_nth (fun f => List.length (collected_rows f))
                                _ f' _ _ Hi) as E
    end; cbn in E; lia.
Qed.

Lemma reachable_completed (store : table) (n : nat) (s : system) :
  reachable fault maxsize store n s ->
  completed s = Z.of_nat (list_sum (map counted (futures s))).
Proof.
  induction 1 as [|s s' _ IH Hs];
    [unfold initial; cbn [futures completed]; now rewrite sum_repeat, Nat.mul_0_r|].
  destruct Hs as [s i r Hi | s i sym rows Hp Hi Hne Hlen | s i sym Hp Hi
                  | s i e Hp Hi | s Hp Hall Hlen | s item rest Hopen Hqueue
                  | s Hp Hcl]; cbn [futures completed]; try exact IH;
    match goal with
    | |- context [set_nth _ ?f' _] =>
        pose proof (sum_set_nth counted _ f' _ _ Hi) as E
    end; cbn in E; lia.
Qed.

(** X13.  In every state of a run the pool holds the [n] tasks that were
    submitted; the queue never holds more items than its capacity;
    [total_rows] is the number of rows of the results collected so far,
    which is the number of rows put on the queue so far; and [completed]
    is the number of tasks collected that returned, never more than
    [n]. *)
Theorem run_counters (store : table) (n : nat) (s : system) :
  reachable fault maxsize store n s ->
  List.length (futures s) = n
  /\ (List.length (queue s) <= maxsize)%nat
  /\ total_rows s
     = Z.of_nat (list_sum (map (fun f => List.length (collected_rows f)) (futures s)))
  /\ total_rows s = Z.of_nat (List.length (List.concat (sent s)))
  /\ completed s = Z.of_nat (list_sum (map counted (futures s)))
  /\ 0 <= completed s <= Z.of_nat n.
Proof.
  intros H.
  pose proof (reachable_futures_length store n s H) as L.
  pose proof (reachable_completed store n s H) as C.
  pose proof (sum_bounded counted (futures s)) as B.
  repeat split.
  - exact L.
  - exact (reachable_queue_bound store n s H).
  - exact (reachable_total_collected store n s H).
  - exact (reachable_total_sent store n s H).
  - exact C.
  - lia.
  - rewrite C, <- L. apply inj_le, B. intros [|r|[r|e]]; cbn; lia.
Qed.

(** With the writer thread in its loop, a task, the main thread or the
    writer can take a step as long as the main thread has not left
    [join]. *)
Lemma looping_run_progress (store : table) (n : nat) (s : system) :
  reachable fault maxsize store n s ->
  (0 < maxsize)%nat ->
  pc s <> Returned ->
  exists s', step fault maxsize s s'.
Proof.
  intros Hreach Hm Hp.
  destruct (reachable_inv fault maxsize store n s Hreach)
    as ((waiting & Hsent & Hshape) & Hf & Hr & Hc).
  destruct (pc s) eqn:Epc; [| |congruence].
  - destruct (w_closed (wr s)) eqn:Ecl; [contradiction|].
    destruct (queue s) as [|item rest] eqn:Eq.
    + destruct (futures_cases (futures s)) as [[i H]|[(i & r & H)|H]].
      * eexists. exact (step_finish fault maxsize s i (Raise ValueError) H).
      * destruct r as [[sym [|r rows]]|e].
        -- eexists. exact (step_collect_empty fault maxsize s i sym Epc H).
        -- eexists. apply (step_collect_rows fault maxsize s i sym (r :: rows) Epc H);
             [discriminate|rewrite Eq; exact Hm].
        -- eexists. exact (step_collect_crash fault maxsize s i e Epc H).
      * eexists. apply (step_sentinel fault maxsize s Epc H).
        rewrite Eq. exact Hm.
    + eexists. exact (step_writer fault maxsize s item rest Ecl Eq).
  - destruct (w_closed (wr s)) eqn:Ecl.
    + eexists. exact (step_join fault maxsize s Epc Ecl).
    + destruct (queue s) as [|item rest] eqn:Eq;
        [destruct waiting; discriminate|].
      eexists. exact (step_writer fault maxsize s item rest Ecl Eq).
Qed.

Lemma step_steps_left (s s' : system) :
  step fault maxsize s s' -> (steps_left s' < steps_left s)%nat.
Proof.
  intros Hs.
  destruct Hs as [s i r Hi | s i sym rows Hp Hi Hne Hlen | s i sym Hp Hi
                  | s i e Hp Hi | s Hp Hall Hlen | s item rest Hopen Hqueue
                  | s Hp Hcl]; unfold steps_left; cbn [futures queue pc];
    rewrite ?length_app; rewrite ?Hp; rewrite ?Hqueue; cbn [List.length pc_weight];
    try match goal with
      | |- context [set_nth _ ?f' _] =>
          pose proof (sum_set_nth future_weight _ f' _ _ Hi) as E; cbn in E
      end; lia.
Qed.

(** X15.  A run is bounded: after [k] steps from the start with [n]
    tasks, at most [3 * n + 3 - k] steps are left, so that no run takes
    more than [3 * n + 3] steps. *)
Theorem run_length_bounded (store : table) (n k : nat) (s : system) :
  run fault maxsize store n k s ->
  (k + steps_left s <= 3 * n + 3)%nat.
Proof.
  induction 1 as [|k s s' _ IH Hs].
  - unfold steps_left, initial. cbn [futures queue pc List.length pc_weight].
    rewrite sum_repeat. cbn [future_weight]. lia.
  - apply step_steps_left in Hs. lia.
Qed.

Lemma batch_of_set_nth (f f' : future) (fs : list future) :
  forall i,
    nth_error fs i = Some f ->
    batch_of f = [] ->
    Permutation (flat_map batch_of (set_nth i f' fs))
                (batch_of f' ++ flat_map batch_of fs).
Proof.
  induction fs as [|h fs IH]; intros [|i] H E; cbn in *; try discriminate.
  - injection H as ->. now rewrite E.
  - eapply Permutation_trans;
      [apply Permutation_app_head, (IH i H E)|apply Permutation_app_swap_app].
Qed.

(** The batches sent are those of the tasks collected, in some order. *)
Lemma reachable_sent (store : table) (n : nat) (s : system) :
  reachable fault maxsize store n s ->
  Permutation (sent s) (flat_map batch_of (futures s)).
Proof.
  induction 1 as [|s s' _ IH Hs].
  - unfold initial. cbn [sent futures].
    induction n as [|m IHm]; cbn; [constructor|exact IHm].
  - destruct Hs as [s i r Hi | s i sym rows Hp Hi Hne Hlen | s i sym Hp Hi
                    | s i e Hp Hi | s Hp Hall Hlen | s item rest Hopen Hqueue
                    | s Hp Hcl]; cbn [sent futures]; try exact IH.
    + eapply Permutation_trans; [exact IH|]. apply Permutation_sym.
      exact (batch_of_set_nth _ (Finished r) _ i Hi eq_refl).
    + destruct rows as [|r rows]; [congruence|].
      eapply Permutation_trans;
        [|apply Permutation_sym;
          exact (batch_of_set_nth _ (Collected (Ok (sym, r :: rows))) _ i Hi eq_refl)].
      eapply Permutation_trans;
        [apply Permutation_sym, Permutation_cons_append|].
      cbn. now constructor.
    + eapply Permutation_trans; [exact IH|]. apply Permutation_sym.
      exact (batch_of_set_nth _ (Collected (Ok (sym, []))) _ i Hi eq_refl).
    + eapply Permutation_trans; [exact IH|]. apply Permutation_sym.
      exact (batch_of_set_nth _ (Collected (Raise e)) _ i Hi eq_refl).
Qed.

Lemma reachable_sent_nonempty (store : table) (n : nat) (s : system) :
  reachable fault maxsize store n s -> Forall (fun b => b <> []) (sent s).
Proof.
  induction 1 as [|s s' _ IH Hs]; [constructor|].
  destruct Hs; cbn [sent]; try exact IH.
  apply Forall_app. split; [exact IH|]. now constructor.
Qed.

(** Once [join] has returned, the writer has run on every batch sent. *)
Lemma returned_writer (store : table) (n : nat) (s : system) :
  reachable fault maxsize store n s ->
  pc s = Returned ->
  wr s = db_writer fault store (map Some (sent s) ++ [None])
  /\ Forall collected_task (futures s).
Proof.
  intros Hreach Hp.
  pose proof (reachable_writer fault maxsize store n s Hreach) as Hw.
  destruct (reachable_inv fault maxsize store n s Hreach)
    as ((waiting & Hsent & Hshape) & Hf & Hr & Hc).
  rewrite Hp, (Hr Hp) in Hshape. rewrite (Hr Hp) in Hw.
  destruct Hshape as [_ ->]. rewrite app_nil_r in Hsent. rewrite Hsent.
  split; [exact Hw|]. apply Hf. congruence.
Qed.

End RunFurther.

Lemma one_task_run_counted : run no_fault 4 [] 1 6 one_task_run.
Proof.
  pose (w0 := mkwriter (connect []) 0 [] false).
  pose (res := @Ok (string * list row) ("A-USD", [row_a1])).
  pose (s1 := mksystem [Finished res] Collecting [] w0 0 0 [] []).
  pose (s2 := mksystem [Collected res] Collecting [Some [row_a1]] w0 1 1
                       [[row_a1]] []).
  pose (s3 := mksystem [Collected res] Joining [Some [row_a1]; None] w0 1 1
                       [[row_a1]] []).
  pose (s4 := mksystem [Collected res] Joining [None]
                       (writer_step no_fault w0 (Some [row_a1])) 1 1
                       [[row_a1]] [[row_a1]]).
  pose (s5 := mksystem [Collected res] Joining []
                       (db_writer no_fault [] [Some [row_a1]; None]) 1 1
                       [[row_a1]] [[row_a1]]).
  apply (run_step _ _ _ _ _ s5); [|exact (step_join _ _ s5 eq_refl eq_refl)].
  apply (run_step _ _ _ _ _ s4);
    [|exact (step_writer _ _ s4 None [] eq_refl eq_refl)].
  apply (run_step _ _ _ _ _ s3);
    [|exact (step_writer _ _ s3 (Some [row_a1]) [None] eq_refl eq_refl)].
  apply (run_step _ _ _ _ _ s2);
    [|refine (step_sentinel _ _ s2 eq_refl _ _); cbn;
      [repeat constructor|lia]].
  apply (run_step _ _ _ _ _ s1);
    [|refine (step_collect_rows _ _ s1 0 "A-USD" [row_a1] eq_refl eq_refl _ _);
      cbn; [discriminate|lia]].
  apply (run_step _ _ _ _ _ (initial [] 1)); [apply run_initial|].
  exact (step_finish _ _ (initial [] 1) 0 res eq_refl).
Qed.

(** The state of [one_task_run] before the writer takes the batch. *)
Lemma one_task_waiting_reachable :
  reachable no_fault 4 [] 1
            (mksystem [Collected (Ok ("A-USD", [row_a1]))] Joining
                      [Some [row_a1]; None]
                      (mkwriter (connect []) 0 [] false) 1 1 [[row_a1]] []).
Proof.
  pose (w0 := mkwriter (connect []) 0 [] false).
  pose (res := @Ok (string * list row) ("A-USD", [row_a1])).
  pose (s1 := mksystem [Finished res] Collecting [] w0 0 0 [] []).
  pose (s2 := mksystem [Collected res] Collecting [Some [row_a1]] w0 1 1
                       [[row_a1]] []).
  apply (reach_step _ _ _ _ s2);
    [|refine (step_sentinel _ _ s2 eq_refl _ _); cbn;
      [repeat constructor|lia]].
  apply (reach_step _ _ _ _ s1);
    [|refine (step_collect_rows _ _ s1 0 "A-USD" [row_a1] eq_refl eq_refl _ _);
      cbn; [discriminate|lia]].
  apply (reach_step _ _ _ _ (initial [] 1)); [apply reach_initial|].
  exact (step_finish _ _ (initial [] 1) 0 res eq_refl).
Qed.

Lemma run_counters_witness :
  List.length (futures one_task_run) = 1%nat
  /\ (List.length (queue one_task_run) <= 4)%nat
  /\ total_rows one_task_run
     = Z.of_nat (list_sum (map (fun f => List.length (collected_rows f))
                               (futures one_task_run)))
  /\ total_rows one_task_run = Z.of_nat (List.length (List.concat (sent one_task_run)))
  /\ completed one_task_run = Z.of_nat (list_sum (map counted (futures one_task_run)))
  /\ 0 <= completed one_task_run <= Z.of_nat 1.
Proof.
  exact (run_counters no_fault 4 [] 1 one_task_run one_task_run_reachable).
Defined.

Lemma run_length_bounded_witness :
  (6 + steps_left one_task_run <= 3 * 1 + 3)%nat.
Proof.
  exact (run_length_bounded no_fault 4 [] 1 6 one_task_run one_task_run_counted).
Defined.

Lemma filter_batches_collected (k : key) (fs : list future) :
  Forall collected_task fs ->
  filter (has_key k) (flat_map batch_of fs) = filter (has_key k) (map task_rows fs).
Proof.
  induction 1 as [|f fs Hf _ IH]; [reflexivity|].
  destruct f as [|r|[[sym [|r rows]]|e]]; try contradiction;
    cbn [flat_map batch_of map task_rows app filter]; cbn [has_key existsb];
    try exact IH.
  change (r :: rows) with ([r] ++ rows).
  destruct (has_key k ([r] ++ rows)); now rewrite IH.
Qed.

(** X16.  The table that a run leaves does not depend on the order in
    which the tasks finish, are collected and reach the writer: when no
    key is found in the rows of two tasks and nothing fails, then once
    [join] has returned a key is looked up in the table as in the table
    of the start followed by the rows of the tasks in the order of the
    plan. *)
Theorem final_table_schedule_free (maxsize : nat) (store : table) (n : nat)
        (s : system) :
  reachable no_fault maxsize store n s ->
  pc s = Returned ->
  key_disjoint (map task_rows (futures s)) ->
  forall k : key,
    lookup k (stored (wr s)) = lookup k (store ++ flat_map task_rows (futures s)).
Proof.
  intros Hreach Hp D k.
  destruct (returned_writer no_fault maxsize store n s Hreach Hp) as [Hw Hall].
  rewrite Hw. change (stored (db_writer no_fault store (map Some (sent s) ++ [None])))
    with (table_after store (sent s)).
  rewrite table_after_ingest.
  destruct (lookup_ingest k (List.concat (sent s)) store) as [-> _].
  rewrite !lookup_app, flat_map_concat_map.
  assert (P : Permutation (filter (has_key k) (sent s))
                          (filter (has_key k) (map task_rows (futures s)))).
  { rewrite <- (filter_batches_collected k (futures s) Hall).
    apply Permutation_filter. exact (reachable_sent no_fault maxsize store n s Hreach). }
  rewrite (lookup_concat_perm k (sent s) (map task_rows (futures s))); [reflexivity| |exact P].
  rewrite (Permutation_length P). apply D.
Qed.

Lemma final_table_schedule_free_witness :
  lookup (row_key row_a1) (stored (wr one_task_run))
  = lookup (row_key row_a1) ([] ++ flat_map task_rows (futures one_task_run)).
Proof.
  apply (final_table_schedule_free 4 [] 1 one_task_run one_task_run_reachable).
  - reflexivity.
  - intros k. cbn [futures one_task_run map task_rows filter].
    destruct (has_key k [row_a1]); cbn; lia.
Defined.

Lemma survivors_count (fault : nat -> bool) (batches : list (list row)) :
  Forall (fun b => b <> []) batches ->
  forall w,
    (List.length (List.concat (survivors fault batches w))
     <= List.length (List.concat batches))%nat
    /\ ((List.length (survivors fault batches w) < List.length batches)%nat ->
        (List.length (List.concat (survivors fault batches w))
         < List.length (List.concat batches))%nat).
Proof.
  induction 1 as [|b batches Hb _ IH]; intros w; cbn [survivors]; [cbn; lia|].
  destruct (IH (writer_step fault w (Some b))) as [I1 I2].
  destruct b as [|x b]; [congruence|].
  destruct (batch_raises fault (x :: b) (w_conn w));
    cbn [List.concat List.length] in *; rewrite ?length_app; cbn [List.length]; lia.
Qed.

(** With the writer thread in its loop, once [join] has returned: the
    total of the closing line is never below the total that the writer
    printed; the two agree exactly when the writer printed no line for a
    failed batch; and the rows added to the table are never more than
    either. *)
Lemma returned_totals (fault : nat -> bool) (maxsize : nat) (store : table)
      (n : nat) (s : system) :
  reachable fault maxsize store n s ->
  pc s = Returned ->
  total_written (wr s) <= total_rows s
  /\ (total_written (wr s) = total_rows s
      <-> w_log (wr s) = [TotalWritten (total_rows s)])
  /\ Z.of_nat (List.length (stored (wr s)))
     <= Z.of_nat (List.length store) + total_written (wr s).
Proof.
  intros Hreach Hp.
  destruct (returned_writer fault maxsize store n s Hreach Hp) as [Hw _].
  pose proof (reachable_total_sent fault maxsize store n s Hreach) as Ht.
  pose proof (reachable_sent_nonempty fault maxsize store n s Hreach) as Hne.
  set (w0 := mkwriter (connect store) 0 [] false).
  destruct (writer_loop_survivors fault (sent s) w0 eq_refl eq_refl)
    as (F1 & F2 & F3 & _).
  unfold db_writer in Hw. fold w0 in Hw. rewrite <- Hw in F1, F2, F3. cbn [w0 total_written w_log app] in F2, F3.
  destruct (survivors_count fault (sent s) Hne w0) as [S1 S2].
  pose proof (survivors_length fault (sent s) w0) as S3.
  pose proof (ingest_length (List.concat (survivors fault (sent s) w0)) (stored w0)) as L.
  rewrite <- F1 in L. change (stored w0) with store in L.
  repeat split; try lia.
  - intros E. rewrite F3.
    destruct (List.length (sent s) - List.length (survivors fault (sent s) w0))%nat
      eqn:K; [cbn; now rewrite E|]. lia.
  - rewrite F3.
    destruct (List.length (sent s) - List.length (survivors fault (sent s) w0))%nat;
      cbn; [congruence|discriminate].
Qed.

(** ** Filter 1: the list of symbols *)

Lemma firstn_short {A : Type} (n : nat) (l : list A) :
  (List.length (firstn n l) < n)%nat -> firstn n l = l.
Proof.
  intros H. apply firstn_all2. rewrite length_firstn in H. lia.
Qed.

Lemma fresh_app (l1 l2 : list string) :
  forall seen,
    fresh seen (l1 ++ l2)
    = fresh seen l1 ++ fresh (rev (map base_of (fresh seen l1)) ++ seen) l2.
Proof.
  induction l1 as [|sym l1 IH]; intros seen; cbn [app fresh]; [reflexivity|].
  destruct (_is_valid_symbol sym && negb (in_set (base_of sym) seen)).
  - cbn [map rev app]. rewrite IH, <- app_assoc. reflexivity.
  - apply IH.
Qed.

Lemma fresh_valid (l : list string) :
  forall seen, Forall (fun sym => _is_valid_symbol sym = true) (fresh seen l).
Proof.
  induction l as [|sym l IH]; intros seen; cbn [fresh]; [constructor|].
  destruct (_is_valid_symbol sym) eqn:V; cbn [andb]; [|apply IH].
  destruct (in_set (base_of sym) seen); cbn [negb]; [apply IH|].
  constructor; [exact V|apply IH].
Qed.

Lemma fresh_bases (l : list string) :
  forall seen,
    NoDup (map base_of (fresh seen l))
    /\ forall b, In b (map base_of (fresh seen l)) -> in_set b seen = false.
Proof.
  induction l as [|sym l IH]; intros seen; cbn [fresh].
  - split; [constructor|intros b []].
  - destruct (_is_valid_symbol sym && negb (in_set (base_of sym) seen)) eqn:K;
      [|apply IH].
    apply andb_true_iff in K. destruct K as [_ K]. apply negb_true_iff in K.
    destruct (IH (base_of sym :: seen)) as [N F]. cbn [map]. split.
    + constructor; [|exact N]. intros Hin. specialize (F _ Hin).
      cbn in F. now rewrite String.eqb_refl in F.
    + intros b [<-|Hin]; [exact K|]. specialize (F _ Hin).
      cbn in F. now apply orb_false_iff in F.
Qed.

Lemma fresh_incl (l : list string) :
  forall seen sym, In sym (fresh seen l) -> In sym l.
Proof.
  induction l as [|x l IH]; intros seen sym; cbn [fresh]; [tauto|].
  destruct (_is_valid_symbol x && negb (in_set (base_of x) seen)).
  - intros [<-|H]; [now left|right; eauto].
  - intros H. right. eauto.
Qed.

Lemma In_firstn {A : Type} (n : nat) (l : list A) (x : A) :
  In x (firstn n l) -> In x l.
Proof.
  intros H. rewrite <- (firstn_skipn n l). apply in_or_app. now left.
Qed.

Lemma Forall_firstn' {A : Type} (P : A -> Prop) (n : nat) (l : list A) :
  Forall P l -> Forall P (firstn n l).
Proof.
  intros H. rewrite <- (firstn_skipn n l) in H. now apply Forall_app in H.
Qed.

Lemma NoDup_firstn {A : Type} (n : nat) (l : list A) :
  NoDup l -> NoDup (firstn n l).
Proof.
  intros H. rewrite <- (firstn_skipn n l) in H. now apply NoDup_app_remove_r in H.
Qed.

Lemma NoDup_map_inv' {A B : Type} (f : A -> B) (l : list A) :
  NoDup (map f l) -> NoDup l.
Proof.
  induction l as [|x l IH]; cbn; intros H; [constructor|].
  inversion H as [|? ? Hnot Hn]; subst. constructor; [|now apply IH].
  intros Hin. apply Hnot. now apply in_map.
Qed.

Lemma add_page_spec (limit : Z) (page : list string) :
  forall final seen,
    Z.of_nat (List.length final) < limit ->
    exists added,
      add_page limit page final seen
      = (final ++ added, rev (map base_of added) ++ seen)
      /\ added = firstn (Z.to_nat limit - List.length final) (fresh seen page).
Proof.
  induction page as [|sym rest IH]; intros final seen H.
  - exists []. cbn. now rewrite app_nil_r, firstn_nil.
  - cbn [add_page fresh].
    destruct (_is_valid_symbol sym); cbn [negb andb]; [|now apply IH].
    destruct (in_set (base_of sym) seen); cbn [negb]; [now apply IH|].
    rewrite length_app. cbn [List.length].
    destruct (Z.of_nat (List.length final + 1) >=? limit) eqn:G;
      rewrite Z.geb_leb in G.
    + apply Z.leb_le in G. exists [sym]. split; [reflexivity|].
      replace (Z.to_nat limit - List.length final)%nat with 1%nat by lia.
      reflexivity.
    + apply Z.leb_gt in G.
      destruct (IH (final ++ [sym]) (base_of sym :: seen)) as (added & E & F);
        [rewrite length_app; cbn [List.length]; lia|].
      exists (sym :: added). rewrite E. split.
      * cbn [map rev]. now rewrite <- !app_assoc.
      * rewrite F, length_app. cbn [List.length].
        replace (Z.to_nat limit - List.length final)%nat
          with (S (Z.to_nat limit - (List.length final + 1))) by lia.
        reflexivity.
Qed.

Section ScraperProperties.

Variable _fetch_page : Z -> result (list string).

Local Abbreviation page := (page_result _fetch_page).

Lemma add_pages_spec (limit : Z) (starts : list Z) :
  forall final seen any_data,
    Z.of_nat (List.length final) < limit ->
    exists added any_data',
      add_pages _fetch_page limit starts final seen any_data
      = (final ++ added, rev (map base_of added) ++ seen, any_data')
      /\ added = firstn (Z.to_nat limit - List.length final)
                        (fresh seen (flat_map page starts))
      /\ (any_data = true -> any_data' = true)
      /\ (any_data' = false -> Forall (fun start => page start = []) starts).
Proof.
  induction starts as [|start rest IH]; intros final seen any_data H.
  - exists [], any_data. cbn. rewrite app_nil_r, firstn_nil. repeat split; auto.
  - cbn [add_pages flat_map].
    destruct (add_page_spec limit (page start) final seen H) as (a1 & E1 & F1).
    rewrite E1.
    set (any1 := if is_empty (page start) then any_data else true).
    assert (M1 : any_data = true -> any1 = true)
      by (unfold any1; destruct (is_empty (page start)); auto).
    assert (Z1 : any1 = false -> page start = []).
    { unfold any1. destruct (page start); cbn; [reflexivity|discriminate]. }
    pose proof (length_firstn (Z.to_nat limit - List.length final)
                              (fresh seen (page start))) as L1.
    rewrite <- F1 in L1.
    destruct (Z.of_nat (List.length (final ++ a1)) >=? limit) eqn:G;
      rewrite Z.geb_leb in G; rewrite length_app in G.
    + apply Z.leb_le in G. exists a1, any1. split; [reflexivity|]. split.
      * rewrite fresh_app, firstn_app, <- F1.
        replace (Z.to_nat limit - List.length final
                 - List.length (fresh seen (page start)))%nat with 0%nat by lia.
        now rewrite firstn_O, app_nil_r.
      * split; [exact M1|]. intros Hf. exfalso.
        rewrite (Z1 Hf) in F1. cbn in F1. rewrite firstn_nil in F1. subst a1.
        cbn in G. lia.
    + apply Z.leb_gt in G.
      assert (U : a1 = fresh seen (page start)).
      { rewrite F1. apply firstn_short. rewrite <- F1. lia. }
      destruct (IH (final ++ a1) (rev (map base_of a1) ++ seen) any1)
        as (a2 & any' & E2 & F2 & M2 & Z2); [rewrite length_app; lia|].
      exists (a1 ++ a2), any'. rewrite E2. split.
      * now rewrite map_app, rev_app_distr, <- !app_assoc.
      * split.
        -- rewrite fresh_app, firstn_app, <- F1, <- U, F2, length_app.
           f_equal. f_equal. lia.
        -- split; [auto|]. intros Hf. constructor; [|now apply Z2].
           apply Z1. destruct any1; [|reflexivity]. now rewrite M2 in Hf.
Qed.

Lemma batch_starts_spec (k : nat) (max_pages : Z) :
  forall idx,
    0 <= idx ->
    exists c : nat,
      batch_starts k idx max_pages
      = (map (fun j => Z.of_nat j * 100) (seq (Z.to_nat idx) c), idx + Z.of_nat c)
      /\ (c = 0%nat -> k = 0%nat \/ max_pages <= idx)
      /\ idx + Z.of_nat c <= Z.max idx max_pages
      /\ Z.of_nat c = Z.min (Z.of_nat k) (Z.max 0 (max_pages - idx)).
Proof.
  induction k as [|k IH]; intros idx H; cbn [batch_starts].
  - exists 0%nat. cbn. rewrite Z.add_0_r. repeat split; [now left|lia|lia].
  - destruct (idx >=? max_pages) eqn:G; rewrite Z.geb_leb in G.
    + apply Z.leb_le in G. exists 0%nat. cbn [seq map Z.of_nat]. rewrite Z.add_0_r.
      repeat split; [now right|lia|lia].
    + apply Z.leb_gt in G.
      destruct (IH (idx + 1)) as (c & E & _ & B & M); [lia|]. rewrite E.
      exists (S c). split; [|split; [discriminate|split; lia]].
      replace (Z.to_nat (idx + 1)) with (S (Z.to_nat idx)) by lia.
      cbn [seq map]. rewrite Z2Nat.id by assumption.
      f_equal. lia.
Qed.

Lemma sorted_ascending (c : nat) :
  forall a, sorted (map (fun j => Z.of_nat j * 100) (seq a c))
            = map (fun j => Z.of_nat j * 100) (seq a c).
Proof.
  induction c as [|c IH]; intros a; [reflexivity|].
  cbn [seq map sorted fold_right]. fold (sorted (map (fun j => Z.of_nat j * 100)
                                                     (seq (S a) c))).
  rewrite IH. destruct c as [|c]; [reflexivity|]. cbn [seq map insert_sorted].
  destruct (Z.leb_spec (Z.of_nat a * 100) (Z.of_nat (S a) * 100)); [reflexivity|lia].
Qed.

Lemma scrape_loop_spec (limit batch_pages max_pages : Z) (fuel : nat) :
  forall st,
    scrape_inv _fetch_page limit max_pages st ->
    ((exists j : nat, current_page_idx st = Z.of_nat j * batch_pages)
     \/ max_pages <= current_page_idx st) ->
    (Z.to_nat (max_pages - current_page_idx st) < fuel)%nat ->
    exists st',
      scrape_loop _fetch_page fuel limit batch_pages max_pages true st = Some st'
      /\ scrape_inv _fetch_page limit max_pages st'
      /\ (Z.of_nat (List.length (final_symbols st')) < limit ->
          gave_up _fetch_page batch_pages max_pages (requested st')).
Proof.
  induction fuel as [|fuel IH]; intros st Inv Al Hfuel; [lia|].
  pose proof Inv as (I1 & I2 & I3 & I4 & I5).
  assert (Hlen : List.length (requested st) = Z.to_nat (current_page_idx st))
    by (now rewrite I3, length_map, length_seq).
  cbn [scrape_loop].
  destruct ((Z.of_nat (List.length (final_symbols st)) <? limit) && true
            && (current_page_idx st <? max_pages)) eqn:C.
  - apply andb_true_iff in C. destruct C as [C C2].
    rewrite andb_true_r in C. apply Z.ltb_lt in C, C2.
    destruct (batch_starts_spec (Z.to_nat batch_pages) max_pages
                                (current_page_idx st) (proj1 I4))
      as (c & E & B0 & B1 & B2).
    rewrite E. destruct c as [|c].
    + cbn [seq map]. exists st. split; [reflexivity|]. split; [exact Inv|].
      intros _. destruct (B0 eq_refl) as [K|K]; [left; lia|lia].
    + set (starts := map (fun j => Z.of_nat j * 100)
                         (seq (Z.to_nat (current_page_idx st)) (S c))) in *.
      assert (Hs : starts <> []) by (unfold starts; cbn [seq map]; discriminate).
      destruct starts as [|s0 starts'] eqn:Es; [congruence|].
      rewrite <- Es. unfold starts at 1. rewrite sorted_ascending. fold starts.
      destruct (add_pages_spec limit starts (final_symbols st) (seen_bases st)
                               false C) as (added & any' & E2 & F & _ & Z0).
      rewrite <- Es in *. rewrite E2.
      set (st' := mkscrape (final_symbols st ++ added)
                           (rev (map base_of added) ++ seen_bases st)
                           (current_page_idx st + Z.of_nat (S c))
                           (total_pages_fetched st + Z.of_nat (List.length starts))
                           (requested st ++ starts)).
      assert (Inv' : scrape_inv _fetch_page limit max_pages st').
      { unfold scrape_inv, st'. cbn [final_symbols seen_bases requested
                                       current_page_idx total_pages_fetched].
        assert (U : final_symbols st
                    = fresh [] (flat_map page (requested st))).
        { rewrite I1 at 1. apply firstn_short. rewrite <- I1. lia. }
        split; [|split; [|split; [|split]]].
        - rewrite flat_map_app, fresh_app, <- U, <- I2, app_nil_r, firstn_app.
          rewrite firstn_all2 by lia. now rewrite F.
        - now rewrite map_app, rev_app_distr, I2.
        - rewrite I3. unfold starts. rewrite <- map_app, <- seq_app.
          f_equal. f_equal. lia.
        - lia.
        - unfold starts. rewrite length_map, length_seq. lia. }
      assert (Bp : 0 < batch_pages) by lia.
      assert (Aj : exists j : nat, current_page_idx st = Z.of_nat j * batch_pages)
        by (destruct Al as [Aj|Aj]; [exact Aj|lia]).
      assert (Lc : Z.of_nat (S c)
                   = Z.min batch_pages (max_pages - current_page_idx st)) by lia.
      destruct any'.
      * destruct (IH st' Inv') as (st'' & L & Inv'' & G);
          [|unfold st'; cbn [current_page_idx]; lia|].
        -- unfold st'. cbn [current_page_idx]. destruct Aj as [j Aj].
           destruct (Z.le_ge_cases batch_pages (max_pages - current_page_idx st)).
           ++ left. exists (S j). lia.
           ++ right. lia.
        -- exists st''. split; [exact L|split; [exact Inv''|exact G]].
      * exists st'. split; [reflexivity|]. split; [exact Inv'|].
        intros _. right. right. exists (requested st), starts.
        split; [reflexivity|]. split; [exact Bp|]. split.
        -- destruct Aj as [j Aj]. exists j. rewrite Hlen. lia.
        -- split; [rewrite Hlen; lia|]. split; [|now apply Z0].
           unfold starts. rewrite length_map, length_seq, Hlen. lia.
  - exists st. split; [reflexivity|]. split; [exact Inv|].
    intros Hl. right. left.
    apply andb_false_iff in C. destruct C as [C|C].
    + rewrite andb_true_r in C. apply Z.ltb_ge in C.
      assert (Z.of_nat (List.length (final_symbols st))
              <= Z.of_nat (Z.to_nat limit)); [|lia].
      rewrite I1, length_firstn. lia.
    + apply Z.ltb_ge in C. rewrite Hlen. lia.
Qed.

Lemma initial_scrape_inv (limit max_pages : Z) :
  scrape_inv _fetch_page limit max_pages (mkscrape [] [] 0 0 []).
Proof.
  unfold scrape_inv. cbn. rewrite firstn_nil. repeat split; lia.
Qed.

Lemma py_prefix_firstn {A : Type} (l : list A) (limit : Z) :
  py_prefix (firstn (Z.to_nat limit) l) limit = firstn (Z.to_nat limit) l.
Proof.
  unfold py_prefix. destruct (Z.leb_spec 0 limit).
  - apply firstn_all2. rewrite length_firstn. lia.
  - replace (Z.to_nat limit) with 0%nat by lia. reflexivity.
Qed.

(** What a run returns, from the state in which the loop ends. *)
Lemma get_symbols_spec (limit batch_pages max_pages : Z) :
  exists st,
    get_symbols _fetch_page limit batch_pages max_pages
    = Some (requested st, final_symbols st)
    /\ scrape_inv _fetch_page limit max_pages st
    /\ (Z.of_nat (List.length (final_symbols st)) < limit ->
        gave_up _fetch_page batch_pages max_pages (requested st)).
Proof.
  destruct (scrape_loop_spec limit batch_pages max_pages (S (Z.to_nat max_pages))
                             (mkscrape [] [] 0 0 [])
                             (initial_scrape_inv limit max_pages))
    as (st & L & Inv & G);
    [left; exists 0%nat; reflexivity|cbn [current_page_idx]; lia|].
  exists st. unfold get_symbols. rewrite L.
  assert (P : py_prefix (final_symbols st) limit = final_symbols st).
  { destruct Inv as (I1 & _). rewrite I1. apply py_prefix_firstn. }
  rewrite P. split; [reflexivity|split; assumption].
Qed.

(** X18.  [get_symbols] returns for every limit, batch size and number
    of pages, whatever the pages hold and whichever fail; and the
    symbols it returns are the first [limit], in the order of the pages,
    of the valid symbols of the pages asked for whose base was not met
    before: what a scan of these pages without a limit would keep. *)
Theorem scraper_first_fresh (limit batch_pages max_pages : Z) :
  exists reqs syms,
    get_symbols _fetch_page limit batch_pages max_pages = Some (reqs, syms)
    /\ syms = firstn (Z.to_nat limit) (fresh [] (flat_map page reqs)).
Proof.
  destruct (get_symbols_spec limit batch_pages max_pages) as (st & E & Inv & _).
  exists (requested st), (final_symbols st). split; [exact E|apply Inv].
Qed.

(** X19.  The symbols that [get_symbols] returns are valid, come from
    the pages asked for, have pairwise different bases, so no symbol
    comes twice, and are at most [limit]. *)
Theorem scraped_symbols_distinct (limit batch_pages max_pages : Z)
        (reqs : list Z) (syms : list string) :
  get_symbols _fetch_page limit batch_pages max_pages = Some (reqs, syms) ->
  Forall (fun sym => _is_valid_symbol sym = true) syms
  /\ (forall sym, In sym syms -> exists start, In start reqs /\ In sym (page start))
  /\ NoDup (map base_of syms)
  /\ NoDup syms
  /\ Z.of_nat (List.length syms) <= Z.max 0 limit.
Proof.
  intros H.
  destruct (get_symbols_spec limit batch_pages max_pages) as (st & E & Inv & _).
  rewrite E in H. injection H as <- <-. destruct Inv as (I1 & _).
  assert (N : NoDup (map base_of (final_symbols st))).
  { rewrite I1, <- firstn_map. apply NoDup_firstn, fresh_bases. }
  repeat split.
  - rewrite I1. apply Forall_firstn', fresh_valid.
  - intros sym Hin. rewrite I1 in Hin.
    apply In_firstn, fresh_incl, in_flat_map in Hin. exact Hin.
  - exact N.
  - now apply NoDup_map_inv' in N.
  - rewrite I1, length_firstn. lia.
Qed.

(** X20.  The pages that [get_symbols] asks for are the first [k] pages
    of a hundred, each asked once, for some [k] that is at most
    [max_pages]; no page is asked for when the limit, the batch size or
    the number of pages is not positive. *)
Theorem scraper_requests (limit batch_pages max_pages : Z)
        (reqs : list Z) (syms : list string) :
  get_symbols _fetch_page limit batch_pages max_pages = Some (reqs, syms) ->
  (exists k : nat,
      reqs = map (fun j => Z.of_nat j * 100) (seq 0 k)
      /\ Z.of_nat k <= Z.max 0 max_pages)
  /\ NoDup reqs
  /\ (limit <= 0 \/ batch_pages <= 0 \/ max_pages <= 0 -> reqs = [] /\ syms = []).
Proof.
  intros H.
  destruct (get_symbols_spec limit batch_pages max_pages)
    as (st & E & (I1 & I2 & I3 & I4 & I5) & _).
  split; [|split].
  - rewrite E in H. injection H as <- <-.
    exists (Z.to_nat (current_page_idx st)). split; [exact I3|lia].
  - rewrite E in H. injection H as <- <-. rewrite I3.
    apply Finite.Injective_map_NoDup; [|apply seq_NoDup].
    intros a b Hab. lia.
  - intros D. unfold get_symbols in H. cbn [scrape_loop final_symbols
                                             current_page_idx List.length] in H.
    destruct ((Z.of_nat 0 <? limit) && true && (0 <? max_pages)) eqn:C.
    + apply andb_true_iff in C. destruct C as [C C2].
      rewrite andb_true_r in C. apply Z.ltb_lt in C, C2.
      destruct D as [D|[D|D]]; try lia.
      replace (Z.to_nat batch_pages) with 0%nat in H by lia.
      cbn in H. injection H as <- <-. split; [reflexivity|].
      unfold py_prefix. destruct (0 <=? limit); apply firstn_nil.
    + cbn in H. injection H as <- <-. split; [reflexivity|].
      unfold py_prefix. destruct (0 <=? limit); apply firstn_nil.
Qed.

(** X21.  [get_symbols] returns fewer symbols than [limit] only when the
    batch size is not positive, or when it has asked for all
    [max_pages] pages, or when every page of the last batch it asked for
    was empty or failed: the whole batch, of [batch_pages] pages or of
    the pages that were left up to [max_pages], not a part of it. *)
Theorem scraper_gives_up_only_when (limit batch_pages max_pages : Z)
        (reqs : list Z) (syms : list string) :
  get_symbols _fetch_page limit batch_pages max_pages = Some (reqs, syms) ->
  Z.of_nat (List.length syms) < limit ->
  gave_up _fetch_page batch_pages max_pages reqs.
Proof.
  intros H Hl.
  destruct (get_symbols_spec limit batch_pages max_pages) as (st & E & _ & G).
  rewrite E in H. injection H as <- <-. now apply G.
Qed.

End ScraperProperties.

Lemma scraped_symbols_distinct_witness :
  Forall (fun sym => _is_valid_symbol sym = true) ["BTC-USD"; "ETH-USD"; "SOL-USD"]
  /\ (forall sym, In sym ["BTC-USD"; "ETH-USD"; "SOL-USD"] ->
      exists start, In start [0; 100; 200]
                    /\ In sym (page_result two_pages start))
  /\ NoDup (map base_of ["BTC-USD"; "ETH-USD"; "SOL-USD"])
  /\ NoDup ["BTC-USD"; "ETH-USD"; "SOL-USD"]
  /\ Z.of_nat (List.length ["BTC-USD"; "ETH-USD"; "SOL-USD"]) <= Z.max 0 10.
Proof.
  apply (scraped_symbols_distinct two_pages 10 2 3). reflexivity.
Defined.

Lemma scraper_requests_witness :
  (exists k : nat,
      [0; 100; 200] = map (fun j => Z.of_nat j * 100) (seq 0 k)
      /\ Z.of_nat k <= Z.max 0 3)
  /\ NoDup [0; 100; 200]
  /\ (10 <= 0 \/ 2 <= 0 \/ 3 <= 0 ->
      [0; 100; 200] = [] /\ ["BTC-USD"; "ETH-USD"; "SOL-USD"] = []).
Proof.
  apply (scraper_requests two_pages 10 2 3). reflexivity.
Defined.

Lemma scraper_gives_up_only_when_witness :
  gave_up two_pages 1 5 [0; 100; 200].
Proof.
  apply (scraper_gives_up_only_when two_pages 10 1 5 [0; 100; 200]
                                    ["BTC-USD"; "ETH-USD"; "SOL-USD"]).
  - reflexivity.
  - cbn. lia.
Defined.

Lemma isalpha_char_plain (c : ascii) :
  isalpha_char c = true -> Ascii.eqb c "-"%char = false /\ isspace c = false.
Proof.
  destruct c as [[] [] [] [] [] [] [] []]; vm_compute; intuition discriminate.
Qed.

Lemma split_first_letters (b rest : string) :
  all_alpha b = true ->
  split_first "-"%char (b ++ String "-"%char rest) = b.
Proof.
  induction b as [|c b IH]; cbn [all_alpha append split_first]; intros H.
  - reflexivity.
  - apply andb_true_iff in H. destruct H as [Hc Hb].
    destruct (isalpha_char_plain c Hc) as [-> _]. now rewrite IH.
Qed.

Lemma rstrip_letters (b : string) : all_alpha b = true -> rstrip b = b.
Proof.
  induction b as [|c b IH]; cbn [all_alpha rstrip]; intros H; [reflexivity|].
  apply andb_true_iff in H. destruct H as [Hc Hb]. rewrite (IH Hb).
  destruct (isalpha_char_plain c Hc) as [_ ->]. now destruct b.
Qed.

Lemma strip_letters (b : string) : all_alpha b = true -> strip b = b.
Proof.
  intros H. unfold strip.
  assert (L : lstrip b = b).
  { destruct b as [|c b]; [reflexivity|]. cbn [all_alpha lstrip] in *.
    apply andb_true_iff in H. destruct H as [Hc _].
    now destruct (isalpha_char_plain c Hc) as [_ ->]. }
  rewrite L. now apply rstrip_letters.
Qed.

Lemma endswith_append (b suffix : string) : endswith (b ++ suffix) suffix = true.
Proof.
  induction b as [|c b IH]; cbn [append].
  - destruct suffix; cbn [endswith]; now rewrite String.eqb_refl.
  - cbn [endswith]. rewrite IH. apply orb_true_r.
Qed.

(** X22.  Every ticker made of letters followed by [-USD] is valid and
    has these letters as its base: among such tickers, two with the same
    base are the same ticker, so the set of bases drops only repeats. *)
Theorem plain_ticker_valid (b : string) :
  isalpha b = true ->
  _is_valid_symbol (b ++ "-USD") = true /\ base_of (b ++ "-USD") = b.
Proof.
  intros H.
  assert (A : all_alpha b = true) by (destruct b; [discriminate|exact H]).
  assert (B : base_of (b ++ "-USD") = b).
  { unfold base_of. rewrite (split_first_letters b "USD" A). now apply strip_letters. }
  split; [|exact B].
  unfold _is_valid_symbol. rewrite endswith_append, B, H. cbn [negb].
  destruct b; [discriminate|reflexivity].
Qed.

Lemma plain_ticker_valid_witness :
  _is_valid_symbol ("BTC" ++ "-USD") = true /\ base_of ("BTC" ++ "-USD") = "BTC".
Proof.
  apply (plain_ticker_valid "BTC"). reflexivity.
Defined.

(** ** The calendar and the order of the stored dates *)

Ltac divlia := Z.div_mod_to_equations; lia.

Lemma days_before_year_split (a b c d : Z) :
  0 <= a -> 0 <= b <= 3 -> 0 <= c <= 24 -> 0 <= d <= 3 ->
  days_before_year (a * 400 + 1 + b * 100 + c * 4 + d)
  = 146097 * a + 36524 * b + 1461 * c + 365 * d.
Proof.
  intros. unfold days_before_year. cbv zeta. divlia.
Qed.

Lemma is_leap_split (a b c d : Z) :
  0 <= a -> 0 <= b <= 3 -> 0 <= c <= 24 -> 0 <= d <= 3 ->
  is_leap (a * 400 + 1 + b * 100 + c * 4 + d)
  = (d =? 3) && (negb (c =? 24) || (b =? 3)).
Proof.
  intros. unfold is_leap.
  set (y := a * 400 + 1 + b * 100 + c * 4 + d).
  destruct (Z.eqb_spec d 3), (Z.eqb_spec c 24), (Z.eqb_spec b 3),
    (Z.eqb_spec (y mod 4) 0), (Z.eqb_spec (y mod 100) 0), (Z.eqb_spec (y mod 400) 0);
    cbn; try reflexivity; exfalso; unfold y in *; divlia.
Qed.

Ltac calc :=
  repeat match goal with
    | |- context [PyDate.table ?t ?m] =>
        let v := eval vm_compute in (PyDate.table t m) in
        progress change (PyDate.table t m) with v
    | |- context [Z.eqb ?a ?b] =>
        let v := eval vm_compute in (Z.eqb a b) in
        match v with
        | true => change (Z.eqb a b) with true
        | false => change (Z.eqb a b) with false
        end
    | |- context [Z.ltb ?a ?b] =>
        let v := eval vm_compute in (Z.ltb a b) in
        match v with
        | true => change (Z.ltb a b) with true
        | false => change (Z.ltb a b) with false
        end
    end;
  cbn [andb].

Lemma table_before (m : Z) :
  1 <= m <= 12 ->
  m = 1 \/ m = 2 \/ m = 3 \/ m = 4 \/ m = 5 \/ m = 6
  \/ m = 7 \/ m = 8 \/ m = 9 \/ m = 10 \/ m = 11 \/ m = 12.
Proof. lia. Qed.

Lemma ord2ymd_ok (o : Z) :
  MINORD <= o <= MAXORD ->
  exists y m d,
    ord2ymd o = (y, m, d)
    /\ 1 <= y <= 9999 /\ 1 <= m <= 12 /\ 1 <= d <= days_in_month y m
    /\ ymd2ord y m d = o.
Proof.
  unfold MINORD, MAXORD. intros Ho.
  unfold ord2ymd, DI400Y, DI100Y, DI4Y. cbv zeta.
  remember ((o - 1) / 146097) as a eqn:Ea.
  remember ((o - 1) mod 146097) as r400 eqn:E400.
  remember (r400 / 36524) as b eqn:Eb.
  remember (r400 mod 36524) as r100 eqn:E100.
  remember (r100 / 1461) as c eqn:Ec.
  remember (r100 mod 1461) as r4 eqn:E4.
  remember (r4 / 365) as d1 eqn:Ed.
  remember (r4 mod 365) as n eqn:En.
  assert (F1 : o - 1 = 146097 * a + r400 /\ 0 <= r400 < 146097 /\ 0 <= a <= 24)
    by (subst a r400; divlia).
  assert (F2 : r400 = 36524 * b + r100 /\ 0 <= r100 < 36524 /\ 0 <= b <= 4)
    by (subst b r100; clear - F1; divlia).
  assert (F3 : r100 = 1461 * c + r4 /\ 0 <= r4 < 1461 /\ 0 <= c <= 24)
    by (subst c r4; clear - F2; divlia).
  assert (F4 : r4 = 365 * d1 + n /\ 0 <= n < 365 /\ 0 <= d1 <= 4)
    by (subst d1 n; clear - F3; divlia).
  clear Ea E400 Eb E100 Ec E4 Ed En.
  destruct F1 as (F1 & R1 & A), F2 as (F2 & R2 & B), F3 as (F3 & R3 & C),
    F4 as (F4 & R4 & D).
  destruct ((d1 =? 4) || (b =? 4)) eqn:Last.
  - (* the last day of a leap year *)
    exists (a * 400 + 1 + b * 100 + c * 4 + d1 - 1), 12, 31.
    split; [reflexivity|].
    assert (K : (d1 = 4 /\ n = 0 /\ b <= 3 /\ c <= 23)
                \/ (b = 4 /\ r100 = 0 /\ c = 0 /\ d1 = 0 /\ n = 0)).
    { apply orb_true_iff in Last. destruct Last as [L|L]; apply Z.eqb_eq in L; lia. }
    unfold ymd2ord, days_in_month, days_before_month, days_before_year, is_leap.
    calc.
    set (y := a * 400 + 1 + b * 100 + c * 4 + d1 - 1).
    assert (L : (y mod 4 =? 0) && (negb (y mod 100 =? 0) || (y mod 400 =? 0)) = true).
    { destruct (Z.eqb_spec (y mod 4) 0), (Z.eqb_spec (y mod 100) 0),
        (Z.eqb_spec (y mod 400) 0); cbn; try reflexivity; exfalso;
        unfold y in *; divlia. }
    rewrite L. unfold y. repeat split; try lia; divlia.
  - apply orb_false_iff in Last. destruct Last as [L1 L2].
    apply Z.eqb_neq in L1, L2.
    assert (B' : 0 <= b <= 3) by lia. assert (D' : 0 <= d1 <= 3) by lia.
    assert (A' : 0 <= a) by lia.
    pose proof (days_before_year_split a b c d1 A' B' C D') as DBY.
    pose proof (is_leap_split a b c d1 A' B' C D') as LEAP.
    set (y := a * 400 + 1 + b * 100 + c * 4 + d1) in *.
    set (leapyear := (d1 =? 3) && (negb (c =? 24) || (b =? 3))) in *.
    assert (Y : 1 <= y <= 9999) by (unfold y; lia).
    rewrite Z.shiftr_div_pow2 by lia. change (2 ^ 5) with 32.
    remember ((n + 50) / 32) as month eqn:Em.
    assert (M : 32 * month <= n + 50 < 32 * month + 32 /\ 1 <= month <= 12)
      by (subst month; clear - R4; divlia).
    clear Em. destruct M as (M & M').
    assert (N : o = 146097 * a + 36524 * b + 1461 * c + 365 * d1 + n + 1) by lia.
    clear F1 F2 F3 F4 R1 R2 R3.
    destruct (table_before month M') as [->|[->|[->|[->|[->|[->|[->|[->|[->|[->|[->| ->]]]]]]]]]]];
      destruct leapyear;
      calc;
      match goal with
      | |- context [?x <? ?p] => destruct (Z.ltb_spec x p)
      end;
      eexists _, _, _; (split; [reflexivity|]);
      unfold ymd2ord, days_in_month, days_before_month; rewrite DBY, LEAP;
      calc; lia.
Qed.

Lemma days_before_year_next (y1 y2 : Z) :
  1 <= y1 -> y1 < y2 ->
  days_before_year y1 + 365 + (if is_leap y1 then 1 else 0) <= days_before_year y2.
Proof.
  intros H1 H2. unfold days_before_year, is_leap. cbv zeta.
  destruct (Z.eqb_spec (y1 mod 4) 0), (Z.eqb_spec (y1 mod 100) 0),
    (Z.eqb_spec (y1 mod 400) 0); cbn [andb orb negb]; divlia.
Qed.

Lemma day_of_year_bounds (y m d : Z) :
  1 <= m <= 12 -> 1 <= d <= days_in_month y m ->
  1 <= days_before_month y m + d <= 365 + (if is_leap y then 1 else 0).
Proof.
  intros M D. unfold days_in_month, days_before_month in *.
  destruct (table_before m M) as [->|[->|[->|[->|[->|[->|[->|[->|[->|[->|[->| ->]]]]]]]]]]];
    destruct (is_leap y); revert D; calc; lia.
Qed.

Lemma days_before_month_next (y m1 m2 d : Z) :
  1 <= m1 -> m1 < m2 -> m2 <= 12 -> d <= days_in_month y m1 ->
  days_before_month y m1 + d <= days_before_month y m2.
Proof.
  intros M1 M12 M2 D. unfold days_in_month, days_before_month in *.
  assert (M1' : 1 <= m1 <= 12) by lia. assert (M2' : 1 <= m2 <= 12) by lia.
  destruct (table_before m1 M1') as [->|[->|[->|[->|[->|[->|[->|[->|[->|[->|[->| ->]]]]]]]]]]];
    destruct (table_before m2 M2') as [->|[->|[->|[->|[->|[->|[->|[->|[->|[->|[->| ->]]]]]]]]]]];
    try lia; destruct (is_leap y); revert D; calc; lia.
Qed.

Lemma ymd2ord_lt (y1 m1 d1 y2 m2 d2 : Z) :
  1 <= y1 -> 1 <= m1 <= 12 -> 1 <= d1 <= days_in_month y1 m1 ->
  1 <= y2 -> 1 <= m2 <= 12 -> 1 <= d2 <= days_in_month y2 m2 ->
  ymd_lt (y1, m1, d1) (y2, m2, d2) ->
  ymd2ord y1 m1 d1 < ymd2ord y2 m2 d2.
Proof.
  intros Y1 M1 D1 Y2 M2 D2 [H|[-> [H|[-> H]]]]; unfold ymd2ord.
  - pose proof (days_before_year_next y1 y2 Y1 H).
    pose proof (day_of_year_bounds y1 m1 d1 M1 D1).
    pose proof (day_of_year_bounds y2 m2 d2 M2 D2). lia.
  - pose proof (days_before_month_next y2 m1 m2 d1 (proj1 M1) H (proj2 M2) (proj2 D1)).
    lia.
  - lia.
Qed.

Lemma ord2ymd_lt (o1 o2 : Z) :
  MINORD <= o1 -> o1 < o2 -> o2 <= MAXORD ->
  ymd_lt (ord2ymd o1) (ord2ymd o2).
Proof.
  intros H1 H12 H2.
  destruct (ord2ymd_ok o1) as (y1 & m1 & d1 & -> & Y1 & M1 & D1 & E1); [lia|].
  destruct (ord2ymd_ok o2) as (y2 & m2 & d2 & -> & Y2 & M2 & D2 & E2); [lia|].
  assert (T : ymd_lt (y1, m1, d1) (y2, m2, d2)
              \/ (y1, m1, d1) = (y2, m2, d2)
              \/ ymd_lt (y2, m2, d2) (y1, m1, d1)).
  { unfold ymd_lt.
    destruct (Z.lt_total y1 y2) as [?|[->|?]]; [tauto| |tauto].
    destruct (Z.lt_total m1 m2) as [?|[->|?]]; [tauto| |tauto].
    destruct (Z.lt_total d1 d2) as [?|[->|?]]; tauto. }
  destruct T as [T|[T|T]]; [exact T| |].
  - injection T as -> -> ->. lia.
  - apply ymd2ord_lt in T; lia.
Qed.

Lemma digit_compare (a b : Z) :
  Ascii.compare (digit a) (digit b) = (a mod 10 ?= b mod 10).
Proof.
  unfold digit.
  pose proof (Z.mod_pos_bound a 10 eq_refl) as A.
  pose proof (Z.mod_pos_bound b 10 eq_refl) as B.
  assert (A' : a mod 10 = 0 \/ a mod 10 = 1 \/ a mod 10 = 2 \/ a mod 10 = 3
               \/ a mod 10 = 4 \/ a mod 10 = 5 \/ a mod 10 = 6 \/ a mod 10 = 7
               \/ a mod 10 = 8 \/ a mod 10 = 9) by lia.
  assert (B' : b mod 10 = 0 \/ b mod 10 = 1 \/ b mod 10 = 2 \/ b mod 10 = 3
               \/ b mod 10 = 4 \/ b mod 10 = 5 \/ b mod 10 = 6 \/ b mod 10 = 7
               \/ b mod 10 = 8 \/ b mod 10 = 9) by lia.
  destruct A' as [->|[->|[->|[->|[->|[->|[->|[->|[->| ->]]]]]]]]];
    destruct B' as [->|[->|[->|[->|[->|[->|[->|[->|[->| ->]]]]]]]]];
    reflexivity.
Qed.

Lemma compare_cons (a b : ascii) (s t : string) :
  String.compare (String a s) (String b t)
  = match Ascii.compare a b with
    | Eq => String.compare s t
    | c => c
    end.
Proof. reflexivity. Qed.

Lemma zfill_compare (w : nat) :
  forall a b acc1 acc2,
    0 <= a < 10 ^ Z.of_nat w -> 0 <= b < 10 ^ Z.of_nat w ->
    String.compare (zfill w a acc1) (zfill w b acc2)
    = match a ?= b with
      | Eq => String.compare acc1 acc2
      | c => c
      end.
Proof.
  induction w as [|w IH]; intros a b acc1 acc2 A B.
  - cbn in A, B. replace a with 0 by lia. replace b with 0 by lia. reflexivity.
  - rewrite Nat2Z.inj_succ, Z.pow_succ_r in A, B by lia.
    cbn [zfill]. rewrite IH by (clear IH; divlia).
    rewrite compare_cons, digit_compare.
    destruct (Z.compare_spec (a / 10) (b / 10)), (Z.compare_spec (a mod 10) (b mod 10)),
      (Z.compare_spec a b); try reflexivity; exfalso; clear IH; divlia.
Qed.

Lemma isoformat_compare (d1 d2 : date) :
  valid d1 -> valid d2 ->
  String.compare (isoformat d1) (isoformat d2) = (d1 ?= d2).
Proof.
  unfold valid. intros V1 V2.
  assert (L : forall o1 o2, MINORD <= o1 -> o1 < o2 -> o2 <= MAXORD ->
                            String.compare (isoformat o1) (isoformat o2) = Lt).
  { intros o1 o2 H1 H12 H2. pose proof (ord2ymd_lt o1 o2 H1 H12 H2) as T.
    unfold isoformat.
    destruct (ord2ymd_ok o1) as (y1 & m1 & x1 & E1 & Y1 & M1 & D1 & _); [lia|].
    destruct (ord2ymd_ok o2) as (y2 & m2 & x2 & E2 & Y2 & M2 & D2 & _); [lia|].
    rewrite E1, E2 in *. unfold ymd_lt in T.
    assert (X1 : x1 <= 31).
    { clear - M1 D1. unfold days_in_month in D1.
      destruct (table_before m1 M1) as [->|[->|[->|[->|[->|[->|[->|[->|[->|[->|[->| ->]]]]]]]]]]];
        destruct (is_leap y1); revert D1; calc; lia. }
    assert (X2 : x2 <= 31).
    { clear - M2 D2. unfold days_in_month in D2.
      destruct (table_before m2 M2) as [->|[->|[->|[->|[->|[->|[->|[->|[->|[->|[->| ->]]]]]]]]]]];
        destruct (is_leap y2); revert D2; calc; lia. }
    rewrite (zfill_compare 4) by (cbn; lia).
    rewrite compare_cons. change (Ascii.compare "-" "-") with Eq. cbv iota.
    rewrite (zfill_compare 2) by (cbn; lia).
    rewrite compare_cons. change (Ascii.compare "-" "-") with Eq. cbv iota.
    rewrite (zfill_compare 2) by (cbn; lia).
    destruct (Z.compare_spec y1 y2), (Z.compare_spec m1 m2), (Z.compare_spec x1 x2);
      try reflexivity; exfalso; lia. }
  destruct (Z.compare_spec d1 d2) as [->|H|H].
  - clear. induction (isoformat d2) as [|c s IH]; [reflexivity|].
    rewrite compare_cons. unfold Ascii.compare. now rewrite N.compare_refl.
  - apply L; lia.
  - rewrite String.compare_antisym, L by lia. reflexivity.
Qed.

(** ** Filter 2: the download plan *)

Lemma ascii_compare_lt_trans (a b c : ascii) :
  Ascii.compare a b = Lt -> Ascii.compare b c = Lt -> Ascii.compare a c = Lt.
Proof.
  unfold Ascii.compare. rewrite !N.compare_lt_iff. apply N.lt_trans.
Qed.

Lemma string_compare_refl (s : string) : String.compare s s = Eq.
Proof.
  induction s as [|c s IH]; [reflexivity|].
  rewrite compare_cons. unfold Ascii.compare. now rewrite N.compare_refl.
Qed.

Lemma string_compare_lt_trans (a : string) :
  forall b c,
    String.compare a b = Lt -> String.compare b c = Lt -> String.compare a c = Lt.
Proof.
  induction a as [|x a IH]; intros [|y b] [|z c]; try discriminate; try reflexivity.
  rewrite !compare_cons.
  destruct (Ascii.compare x y) eqn:Exy; try discriminate;
    destruct (Ascii.compare y z) eqn:Eyz; try discriminate; intros H1 H2.
  - apply Ascii.compare_eq_iff in Exy, Eyz. subst.
    unfold Ascii.compare. rewrite N.compare_refl. eapply IH; eauto.
  - apply Ascii.compare_eq_iff in Exy. subst. now rewrite Eyz.
  - apply Ascii.compare_eq_iff in Eyz. subst. now rewrite Exy.
  - now rewrite (ascii_compare_lt_trans x y z Exy Eyz).
Qed.

Lemma string_leb_refl (s : string) : String.leb s s = true.
Proof. unfold String.leb. now rewrite string_compare_refl. Qed.

Lemma string_leb_trans (a b c : string) :
  String.leb a b = true -> String.leb b c = true -> String.leb a c = true.
Proof.
  unfold String.leb.
  destruct (String.compare a b) eqn:Eab; try discriminate;
    destruct (String.compare b c) eqn:Ebc; try discriminate; intros _ _.
  - apply String.compare_eq_iff in Eab, Ebc. subst. now rewrite string_compare_refl.
  - apply String.compare_eq_iff in Eab. subst. now rewrite Ebc.
  - apply String.compare_eq_iff in Ebc. subst. now rewrite Eab.
  - now rewrite (string_compare_lt_trans a b c Eab Ebc).
Qed.

Lemma later_spec (acc : option string) (d : string) :
  exists m,
    later acc d = Some m
    /\ String.leb d m = true
    /\ (forall a, acc = Some a -> String.leb a m = true)
    /\ (m = d \/ acc = Some m).
Proof.
  destruct acc as [a|]; cbn [later].
  - unfold String.ltb. destruct (String.compare a d) eqn:E.
    + exists a. apply String.compare_eq_iff in E. subst.
      repeat split; [apply string_leb_refl| |now left].
      intros ? [= <-]. apply string_leb_refl.
    + exists d. repeat split; [apply string_leb_refl| |now left].
      intros ? [= <-]. unfold String.leb. now rewrite E.
    + exists a. repeat split; [| |now right].
      * unfold String.leb. rewrite String.compare_antisym, E. reflexivity.
      * intros ? [= <-]. apply string_leb_refl.
  - exists d. repeat split; [apply string_leb_refl|discriminate|now left].
Qed.

(** The scan of the table that finds the greatest date of a symbol. *)
Lemma select_max_acc (sym : string) (t : table) :
  forall acc,
    (fold_left (max_step sym) t acc = None
     <-> acc = None /\ forall r, In r t -> row_symbol r <> sym)
    /\ forall d,
        fold_left (max_step sym) t acc = Some d ->
        (acc = Some d \/ exists r, In r t /\ row_symbol r = sym /\ row_date r = d)
        /\ (forall a, acc = Some a -> String.leb a d = true)
        /\ (forall r, In r t -> row_symbol r = sym -> String.leb (row_date r) d = true).
Proof.
  induction t as [|x t IH]; intros acc; cbn [fold_left].
  - split.
    + split; [intros ->; split; [reflexivity|intros r []]|now intros [-> _]].
    + intros d ->. repeat split; [now left| |intros r []].
      intros a [= <-]. apply string_leb_refl.
  - destruct (IH (max_step sym acc x)) as [N S].
    assert (Hstep : max_step sym acc x
                    = if String.eqb (row_symbol x) sym
                      then later acc (row_date x) else acc) by reflexivity.
    destruct (String.eqb_spec (row_symbol x) sym) as [Hx|Hx];
      rewrite Hstep in N, S |- *; clear Hstep.
    + destruct (later_spec acc (row_date x)) as (m & L & L1 & L2 & L3).
      rewrite L in N, S |- *. split.
      * split.
        -- intros H. apply N in H. destruct H as [H _]. discriminate.
        -- intros [_ H]. exfalso. apply (H x); [now left|exact Hx].
      * intros d H. destruct (S d H) as (S1 & S2 & S3).
        pose proof (S2 m eq_refl) as Hm. repeat split.
        -- destruct S1 as [[= <-]|(r & Hr & Hs & Hd)].
           ++ destruct L3 as [-> | ->]; [right; exists x; cbn; auto|now left].
           ++ right. exists r. cbn. auto.
        -- intros a Ha. apply (string_leb_trans a m d); auto.
        -- intros r [<-|Hr] Hs; [apply (string_leb_trans _ m d); auto|auto].
    + split.
      * rewrite N. split.
        -- intros [-> H]. split; [reflexivity|]. intros r [<-|Hr]; auto.
        -- intros [-> H]. split; [reflexivity|]. intros r Hr. apply H. now right.
      * intros d H. destruct (S d H) as (S1 & S2 & S3). repeat split.
        -- destruct S1 as [->|(r & Hr & Hs & Hd)]; [now left|].
           right. exists r. cbn. auto.
        -- exact S2.
        -- intros r [<-|Hr] Hs; [congruence|auto].
Qed.

(** X23.  The plan has one row per symbol, in the order of the symbols;
    the watermark of a symbol is missing exactly when the table has no
    row of it, and otherwise is the date of one of its rows, not below
    the date of any of its rows in the order of their bytes. *)
Theorem plan_watermarks (symbols : list string) (t : table) :
  map fst (get_existing_status symbols t) = symbols
  /\ forall sym wm,
      In (sym, wm) (get_existing_status symbols t) ->
      (wm = None <-> forall r, In r t -> row_symbol r <> sym)
      /\ forall d,
          wm = Some d ->
          (exists r, In r t /\ row_symbol r = sym /\ row_date r = d)
          /\ forall r, In r t -> row_symbol r = sym ->
                       String.leb (row_date r) d = true.
Proof.
  split.
  - unfold get_existing_status. rewrite map_map. cbn [fst]. apply map_id.
  - intros sym wm H. unfold get_existing_status in H. apply in_map_iff in H.
    destruct H as (s & [= -> <-] & _). unfold select_max_date.
    destruct (select_max_acc sym t None) as [N S]. split.
    + rewrite N. split; [now intros [_ H]|now split].
    + intros d H. destruct (S d H) as ([?|S1] & _ & S3); [discriminate|].
      split; assumption.
Qed.

(** X24.  When the rows of a symbol carry the texts of days of the
    calendar, as the rows that the fetcher builds do, its watermark is
    the text of the latest of these days: the order of the bytes of
    [YYYY-MM-DD] is the order of the days. *)
Theorem watermark_is_latest_day (t : table) (sym w : string) :
  (forall r, In r t -> row_symbol r = sym -> iso_dated r) ->
  select_max_date t sym = Some w ->
  exists d : date,
    valid d /\ w = isoformat d
    /\ forall r d', In r t -> row_symbol r = sym -> valid d' ->
                    row_date r = isoformat d' -> d' <= d.
Proof.
  intros Hiso H. unfold select_max_date in H.
  destruct (select_max_acc sym t None) as [_ S].
  destruct (S w H) as ([?|(r0 & Hr0 & Hs0 & Hd0)] & _ & S3); [discriminate|].
  destruct (Hiso r0 Hr0 Hs0) as (d & Vd & Ed). exists d.
  split; [exact Vd|]. split; [congruence|].
  intros r d' Hr Hs Vd' Ed'. specialize (S3 r Hr Hs).
  rewrite Ed', <- Hd0, Ed in S3. unfold String.leb in S3.
  rewrite (isoformat_compare d' d Vd' Vd) in S3.
  destruct (Z.compare_spec d' d); [lia|lia|discriminate].
Qed.

Lemma row_a1_dated : iso_dated row_a1.
Proof.
  exists (ymd2ord 2024 6 1). split; [|reflexivity].
  unfold valid. vm_compute. split; discriminate.
Qed.

Lemma row_a2_dated : iso_dated row_a2.
Proof.
  exists (ymd2ord 2024 6 2). split; [|reflexivity].
  unfold valid. vm_compute. split; discriminate.
Qed.

Lemma watermark_is_latest_day_witness :
  exists d : date,
    valid d /\ "2024-06-02" = isoformat d
    /\ forall r d', In r [row_a1; row_b1; row_a2] -> row_symbol r = "A-USD" ->
                    valid d' -> row_date r = isoformat d' -> d' <= d.
Proof.
  apply (watermark_is_latest_day [row_a1; row_b1; row_a2] "A-USD" "2024-06-02").
  - intros r [<-|[<-|[<-|[]]]] H; [apply row_a1_dated|discriminate|apply row_a2_dated].
  - reflexivity.
Defined.

Section FetchedDates.

Variable float_of_str : string -> option pyfloat.
Variable utc_date_of_float : pyfloat -> result date.
Variable local_midnight : date -> Z.
Variable remote : request -> response.

(** [utcfromtimestamp] returns a [datetime], whose date is a day of the
    calendar. *)
Hypothesis utc_date_of_float_valid :
  forall f d, utc_date_of_float f = Ok d -> valid d.

Lemma utc_date_valid (t : pyval) (d : date) :
  utc_date utc_date_of_float t = Ok d -> valid d.
Proof.
  assert (I : forall z, utc_date_of_int z = Ok d -> valid d).
  { intros z. unfold utc_date_of_int.
    destruct ((- 2 ^ 63 <=? z) && (z <? 2 ^ 63)); [|discriminate].
    destruct (in_range (EPOCH + z / 86400)) eqn:R; [|discriminate].
    intros [= <-]. now apply in_range_valid. }
  destruct t; cbn [utc_date]; try discriminate; eauto.
Qed.

Lemma kept_dated (symbol : string) (ks : list candle) :
  Forall iso_dated (kept float_of_str utc_date_of_float symbol ks).
Proof.
  induction ks as [|k ks IH]; cbn; [constructor|].
  apply Forall_app. split; [|exact IH].
  unfold row_of_candle.
  destruct (is_none (c_o k) || is_none (c_h k) || is_none (c_l k)
            || is_none (c_c k)); [constructor|].
  destruct (utc_date utc_date_of_float (c_t k)) as [d|] eqn:D; cbn [bind];
    [|constructor].
  destruct (py_float float_of_str (c_o k)); cbn [bind]; [|constructor].
  destruct (py_float float_of_str (c_h k)); cbn [bind]; [|constructor].
  destruct (py_float float_of_str (c_l k)); cbn [bind]; [|constructor].
  destruct (py_float float_of_str (c_c k)); cbn [bind]; [|constructor].
  destruct (if is_none (c_v k) then _ else _); cbn [bind]; repeat constructor.
  exists d. split; [exact (utc_date_valid _ _ D)|reflexivity].
Qed.

(** X25.  Every row that the fetcher returns carries the text of a day
    of the calendar, so that the watermark that Filter 2 reads from a
    table filled by these rows is the latest day stored. *)
Theorem fetched_rows_dated (symbol : string) (start_dt end_dt : date)
        (rows : list row) :
  snd (yahoo_fetch_range_rows float_of_str utc_date_of_float local_midnight remote
                              symbol start_dt end_dt) = Ok rows ->
  Forall iso_dated rows.
Proof.
  unfold yahoo_fetch_range_rows.
  destruct (start_dt >=? end_dt); [intros [= <-]; constructor|].
  destruct (remote _) as [e|data]; [intros [= <-]; constructor|].
  destruct (extract data) as [[timestamps quote]|e]; [|intros [= <-]; constructor].
  cbn [snd]. intros H.
  destruct (parse_rows_kept _ _ _ _ _ _ H) as (ts & os & hs & ls & cs & vs & R).
  destruct R as (_ & _ & _ & _ & _ & _ & ->). apply kept_dated.
Qed.

End FetchedDates.

Lemma fetched_rows_dated_witness :
  Forall iso_dated
         [mkrow "BTC-USD" "2024-06-01" (float_of_Z 10) (float_of_Z 12)
                (float_of_Z 9) (float_of_Z 11) (float_of_Z 1000);
          mkrow "BTC-USD" "2024-06-02" (float_of_Z 11) (float_of_Z 13)
                (float_of_Z 10) (float_of_Z 12) float_zero].
Proof.
  apply (fetched_rows_dated no_float_of_str no_utc_date_of_float utc_midnight
                            sample_service
                            (fun f d H => match H in _ = r
                                                return match r with
                                                       | Raise _ => True
                                                       | Ok _ => valid d
                                                       end
                                          with eq_refl => I end)
                            "BTC-USD" (ymd2ord 2024 6 1) (ymd2ord 2024 6 3)).
  reflexivity.
Defined.

(** X26.  A run of the writer never moves a watermark back, whatever
    fails: a symbol that had a watermark before the run has one after
    it, and it is not below the old one. *)
Theorem watermark_never_goes_back (fault : nat -> bool) (store : table)
        (items : list (option (list row))) (sym d : string) :
  NoDup (keys store) ->
  select_max_date store sym = Some d ->
  exists d',
    select_max_date (stored (db_writer fault store items)) sym = Some d'
    /\ String.leb d d' = true.
Proof.
  intros N H.
  destruct (stored_ok store (db_writer fault store items)
                      (db_writer_ok fault store items N)) as [_ [added ->]].
  unfold select_max_date in *. rewrite fold_left_app, H.
  destruct (select_max_acc sym added (Some d)) as [No S].
  destruct (fold_left (max_step sym) added (Some d)) as [d'|] eqn:E.
  - exists d'. split; [reflexivity|]. destruct (S d' eq_refl) as (_ & S2 & _).
    now apply S2.
  - destruct No as [No _]. destruct (No eq_refl) as [? _]. discriminate.
Qed.

Lemma watermark_never_goes_back_witness :
  exists d',
    select_max_date (stored (db_writer no_fault [row_a1] [Some [row_a2]; None]))
                    "A-USD" = Some d'
    /\ String.leb "2024-06-01" d' = true.
Proof.
  apply (watermark_never_goes_back no_fault [row_a1] [Some [row_a2]; None]
                                   "A-USD" "2024-06-01").
  - repeat constructor. intros [].
  - reflexivity.
Defined.

(** ** The read side *)

Lemma assoc_find_snoc {A : Type} (k k' : string) (v : A) (d : list (string * A)) :
  assoc_find k (d ++ [(k', v)])
  = match assoc_find k d with
    | Some x => Some x
    | None => if String.eqb k' k then Some v else None
    end.
Proof.
  induction d as [|[k0 v0] d IH]; cbn; [reflexivity|].
  destruct (String.eqb k0 k); [reflexivity|exact IH].
Qed.

Lemma find_snoc {A : Type} (f : A -> bool) (l : list A) (x : A) :
  find f (l ++ [x])
  = match find f l with
    | Some y => Some y
    | None => if f x then Some x else None
    end.
Proof.
  induction l as [|y l IH]; cbn; [reflexivity|].
  destruct (f y); [reflexivity|exact IH].
Qed.

Lemma find_filter_hd {A : Type} (f : A -> bool) (l : list A) :
  find f l = hd_error (filter f l).
Proof.
  induction l as [|y l IH]; cbn; [reflexivity|].
  destruct (f y); [reflexivity|exact IH].
Qed.

Lemma last_snoc {A : Type} (l : list A) (x d : A) : last (l ++ [x]) d = x.
Proof.
  induction l as [|y l IH]; [reflexivity|].
  cbn [app]. destruct (l ++ [x]) eqn:E; [now destruct l|]. 
  change (last (y :: a :: l0) d) with (last (a :: l0) d). exact IH.
Qed.

Lemma last_rows_snoc (p : list qrow) (r : qrow) :
  last (map Some (p ++ [r])) None = Some r.
Proof. rewrite map_app. apply last_snoc. Qed.

Lemma last_rows_in (p : list qrow) (r : qrow) :
  last (map Some p) None = Some r -> exists p', p = p' ++ [r].
Proof.
  intros H. destruct p as [|y p0]; [discriminate|].
  destruct (@exists_last _ (y :: p0)) as (p' & x & E); [discriminate|].
  rewrite E in *. rewrite last_rows_snoc in H. injection H as ->. now exists p'.
Qed.

Lemma last_rows_none (p : list qrow) :
  last (map Some p) None = None -> p = [].
Proof.
  destruct p as [|x p]; [reflexivity|]. intros H. exfalso.
  destruct (exists_last (l := x :: p)) as (p' & y & E); [discriminate|].
  rewrite E, last_rows_snoc in H. discriminate.
Qed.

Lemma find_none_symbol (s : string) (p : list qrow) :
  find (has_symbol s) p = None <-> forall x, In x p -> q_symbol x <> s.
Proof.
  split.
  - intros H x Hx E. apply (find_none _ _ H) in Hx. unfold has_symbol in Hx.
    rewrite E, String.eqb_refl in Hx. discriminate.
  - intros H. induction p as [|y p IH]; [reflexivity|]. cbn.
    unfold has_symbol at 1. destruct (String.eqb_spec (q_symbol y) s) as [E|E].
    + exfalso. apply (H y); [now left|exact E].
    + apply IH. intros x Hx. apply H. now right.
Qed.

Section ReadSideProperties.

Variable vol_text : pyfloat -> string.
Variable pct_change : pyfloat -> pyfloat -> pyfloat.

Local Abbreviation row_step := (scan_row vol_text pct_change).
Local Abbreviation run_scan := (scan_rows vol_text pct_change).
Local Abbreviation load := (load_latest_and_change_all vol_text pct_change).

(** The entry of a symbol in [latest] is made at its first row, and
    stays. *)
Lemma scan_row_latest (p : list qrow) (st st' : scan) (r : qrow) :
  (forall s, latest_spec vol_text p s (assoc_find s (latest st))) ->
  row_step st r = Ok st' ->
  forall s, latest_spec vol_text (p ++ [r]) s (assoc_find s (latest st')).
Proof.
  intros I H s. specialize (I s). unfold latest_spec in *. rewrite find_snoc.
  unfold scan_row in H.
  set (st1 := match current_symbol st with
              | Some s0 => if String.eqb (q_symbol r) s0 then st
                           else mkscan (latest st) (changes st) (Some (q_symbol r)) None
              | None => mkscan (latest st) (changes st) (Some (q_symbol r)) None
              end) in H.
  assert (L1 : latest st1 = latest st).
  { unfold st1. destruct (current_symbol st) as [s0|]; [|reflexivity].
    now destruct (String.eqb (q_symbol r) s0). }
  rewrite L1 in H.
  destruct (assoc_find (q_symbol r) (latest st)) as [e|] eqn:F.
  - assert (L' : latest st' = latest st).
    { destruct (assoc_find (q_symbol r) (changes st1)), (last_close st1);
        try (injection H as <-; exact L1).
      destruct (q_close r) as [c|]; [|discriminate].
      destruct (nonzero c); injection H as <-; first [exact L1|reflexivity]. }
    rewrite L'. destruct (find (has_symbol s) p) as [x|] eqn:Fs; [exact I|].
    unfold has_symbol. destruct (String.eqb_spec (q_symbol r) s) as [E|E]; [|exact I].
    subst s. rewrite F in I. discriminate.
  - destruct (q_close r) as [c|] eqn:C; [|discriminate].
    destruct (q_volume r) as [v|] eqn:V; [|discriminate].
    injection H as <-. cbn [latest]. rewrite assoc_find_snoc.
    destruct (find (has_symbol s) p) as [x|] eqn:Fs.
    + destruct I as (c0 & v0 & C0 & V0 & ->). exists c0, v0. auto.
    + rewrite I. unfold has_symbol.
      destruct (String.eqb (q_symbol r) s); [|reflexivity].
      exists c, v. auto.
Qed.

Lemma scan_rows_latest (q : list qrow) :
  forall p st st',
    (forall s, latest_spec vol_text p s (assoc_find s (latest st))) ->
    run_scan st q = Ok st' ->
    forall s, latest_spec vol_text (p ++ q) s (assoc_find s (latest st')).
Proof.
  induction q as [|r q IH]; intros p st st' I H; cbn [scan_rows] in H.
  - injection H as <-. now rewrite app_nil_r.
  - destruct (row_step st r) as [st1|e] eqn:R; cbn [bind] in H; [|discriminate].
    replace (p ++ r :: q) with ((p ++ [r]) ++ q) by (now rewrite <- app_assoc).
    apply (IH (p ++ [r]) st1 st'); [|exact H].
    now apply (scan_row_latest p st st1 r).
Qed.

Lemma sorted_pairs (l1 l2 : list qrow) :
  StronglySorted row_before (l1 ++ l2) ->
  forall a b, In a l1 -> In b l2 -> row_before a b.
Proof.
  induction l1 as [|x l1 IH]; intros H a b Ha Hb; [destruct Ha|].
  cbn [app] in H. apply StronglySorted_inv in H. destruct H as [H F].
  destruct Ha as [<-|Ha]; [|now apply (IH H)].
  rewrite Forall_forall in F. apply F. apply in_or_app. now right.
Qed.

Lemma row_before_symbol (a b : qrow) :
  row_before a b -> String.leb (q_symbol a) (q_symbol b) = true.
Proof.
  intros [H|[-> _]]; [|apply string_leb_refl].
  unfold String.ltb, String.leb in *. now destruct (String.compare _ _).
Qed.

Lemma row_before_date (a b : qrow) :
  row_before a b -> q_symbol a = q_symbol b ->
  String.leb (q_date b) (q_date a) = true.
Proof.
  intros [H|[_ H]] E; [|exact H]. exfalso. rewrite E in H.
  unfold String.ltb in H. now rewrite string_compare_refl in H.
Qed.

(** The rows of a symbol come one after the other. *)
Lemma sorted_grouped (p q : list qrow) (l r : qrow) :
  StronglySorted row_before ((p ++ [l]) ++ r :: q) ->
  q_symbol l = q_symbol r \/ forall x, In x (p ++ [l]) -> q_symbol x <> q_symbol r.
Proof.
  intros H.
  destruct (String.eqb_spec (q_symbol l) (q_symbol r)) as [E|E]; [now left|right].
  intros x Hx Ex.
  apply in_app_or in Hx. destruct Hx as [Hx|[<-|[]]]; [|contradiction].
  assert (B1 : row_before x l).
  { rewrite <- app_assoc in H. apply (sorted_pairs p _ H); [exact Hx|]. now left. }
  assert (B2 : row_before l r).
  { apply (sorted_pairs _ _ H); [apply in_or_app; right|]; now left. }
  apply row_before_symbol in B1, B2. rewrite Ex in B1.
  apply E. now apply String.leb_antisym.
Qed.

Lemma filter_symbol_none (s : string) (p : list qrow) :
  (forall x, In x p -> q_symbol x <> s) -> filter (has_symbol s) p = [].
Proof.
  intros H. induction p as [|y p IH]; [reflexivity|]. cbn.
  unfold has_symbol at 1. destruct (String.eqb_spec (q_symbol y) s) as [E|E].
  - exfalso. apply (H y); [now left|exact E].
  - apply IH. intros x Hx. apply H. now right.
Qed.

Lemma scan_row_inv (p : list qrow) (st st' : scan) (r : qrow) :
  (match last (map Some p) None with
   | Some l => q_symbol l = q_symbol r \/ forall x, In x p -> q_symbol x <> q_symbol r
   | None => True
   end) ->
  scan_inv vol_text pct_change p st ->
  row_step st r = Ok st' ->
  scan_inv vol_text pct_change (p ++ [r]) st'.
Proof.
  intros G (I1 & I2 & I3 & I4) H.
  pose proof (scan_row_latest p st st' r I2 H) as I2'.
  unfold scan_inv. rewrite last_rows_snoc. cbn [option_map].
  assert (Fresh : (forall x, In x p -> q_symbol x <> q_symbol r) ->
                  exists c v,
                    q_close r = Some c /\ q_volume r = Some v
                    /\ st' = mkscan (latest st ++ [(q_symbol r, (c, vol_text v))])
                                    (changes st) (Some (q_symbol r)) (Some c)).
  { intros N. pose proof (proj2 (find_none_symbol _ _) N) as FN.
    specialize (I2 (q_symbol r)). unfold latest_spec in I2. rewrite FN in I2.
    unfold scan_row in H.
    assert (C1 : match current_symbol st with
                 | Some s0 => if String.eqb (q_symbol r) s0 then st
                              else mkscan (latest st) (changes st) (Some (q_symbol r)) None
                 | None => mkscan (latest st) (changes st) (Some (q_symbol r)) None
                 end = mkscan (latest st) (changes st) (Some (q_symbol r)) None).
    { rewrite I1. destruct (last (map Some p) None) as [l|] eqn:L; [|reflexivity].
      cbn [option_map]. destruct (String.eqb_spec (q_symbol r) (q_symbol l)) as [E|E];
        [|reflexivity].
      exfalso. destruct (last_rows_in p l L) as [p' ->].
      apply (N l); [apply in_or_app; right; now left|now symmetry]. }
    rewrite C1 in H. cbn [latest changes current_symbol last_close] in H.
    rewrite I2 in H.
    destruct (q_close r) as [c|]; [|discriminate].
    destruct (q_volume r) as [v|]; [|discriminate].
    injection H as <-. exists c, v. auto. }
  destruct (last (map Some p) None) as [l|] eqn:L.
  - destruct G as [E|N].
    + (* a further row of the current symbol *)
      destruct (I4 l eq_refl) as (first & c0 & F0 & C0 & LC).
      assert (CS : current_symbol st = Some (q_symbol r))
        by (rewrite I1; cbn [option_map]; now rewrite E).
      rewrite E in F0.
      pose proof (I2 (q_symbol r)) as I2r. unfold latest_spec in I2r.
      rewrite F0 in I2r. destruct I2r as (c0' & v0 & C0' & V0 & L0).
      unfold scan_row in H. rewrite I1 in H. cbn [option_map] in H.
      rewrite E, String.eqb_refl, L0, LC in H.
      assert (Hd : exists rest, filter (has_symbol (q_symbol r)) p = first :: rest).
      { rewrite find_filter_hd in F0.
        destruct (filter (has_symbol (q_symbol r)) p) as [|f rest]; [discriminate|].
        injection F0 as ->. now exists rest. }
      destruct Hd as [rest Hd].
      assert (Other : forall s, s <> q_symbol r ->
                                filter (has_symbol s) (p ++ [r]) = filter (has_symbol s) p).
      { intros s Hs. rewrite filter_app. cbn. unfold has_symbol at 2.
        destruct (String.eqb_spec (q_symbol r) s); [congruence|apply app_nil_r]. }
      assert (Same : filter (has_symbol (q_symbol r)) (p ++ [r]) = first :: rest ++ [r]).
      { rewrite filter_app, Hd. cbn. unfold has_symbol at 1.
        now rewrite String.eqb_refl. }
      assert (F4 : find (has_symbol (q_symbol r)) (p ++ [r]) = Some first)
        by (now rewrite find_snoc, F0).
      pose proof (I3 (q_symbol r)) as I3r. unfold changes_spec in I3r.
      rewrite Hd in I3r.
      destruct (assoc_find (q_symbol r) (changes st)) as [ch|] eqn:Ch.
      * injection H as <-. split; [exact CS|]. split; [exact I2'|]. split.
        -- intros s. unfold changes_spec.
           destruct (String.eqb_spec s (q_symbol r)) as [->|Hs];
             [|rewrite (Other s Hs); apply I3].
           rewrite Same, Ch, find_snoc.
           destruct (find stops_scan rest) as [pv|]; [exact I3r|discriminate].
        -- intros x [= <-]. exists first, c0. auto.
      * destruct (find stops_scan rest) as [pv|] eqn:Fs;
          [destruct I3r as (? & ? & _ & _ & ?); discriminate|].
        destruct (q_close r) as [pc|] eqn:Pc; [|discriminate].
        destruct (nonzero pc) eqn:Nz; injection H as <-.
        -- split; [exact CS|]. split; [exact I2'|]. split.
           ++ intros s. unfold changes_spec. cbn [changes]. rewrite assoc_find_snoc.
              destruct (String.eqb_spec s (q_symbol r)) as [->|Hs].
              ** rewrite Same, Ch, String.eqb_refl, find_snoc, Fs.
                 unfold stops_scan at 1. rewrite Pc, Nz.
                 exists c0, pc. auto.
              ** rewrite (Other s Hs).
                 destruct (String.eqb_spec (q_symbol r) s); [congruence|].
                 specialize (I3 s). unfold changes_spec in I3.
                 now destruct (assoc_find s (changes st)).
           ++ intros x [= <-]. exists first, c0. auto.
        -- split; [exact CS|]. split; [exact I2'|]. split.
           ++ intros s. unfold changes_spec.
              destruct (String.eqb_spec s (q_symbol r)) as [->|Hs];
                [|rewrite (Other s Hs); apply I3].
              rewrite Same, Ch, find_snoc, Fs.
              unfold stops_scan at 1. now rewrite Pc, Nz.
           ++ intros x [= <-]. exists first, c0. auto.
    + (* the first row of a symbol *)
      destruct (Fresh N) as (c & v & C & V & ->). cbn [current_symbol changes last_close].
      split; [reflexivity|]. split; [exact I2'|]. split.
      * intros s. unfold changes_spec. rewrite filter_app. cbn [filter].
        unfold has_symbol at 2.
        destruct (String.eqb_spec (q_symbol r) s) as [<-|Hs];
          [|rewrite app_nil_r; apply I3].
        specialize (I3 (q_symbol r)). unfold changes_spec in I3.
        rewrite (filter_symbol_none _ _ N) in I3 |- *. exact I3.
      * intros x [= <-]. exists r, c. rewrite find_snoc.
        rewrite (proj2 (find_none_symbol _ _) N). unfold has_symbol.
        rewrite String.eqb_refl. auto.
  - (* the first row of all *)
    apply last_rows_none in L. subst p.
    destruct Fresh as (c & v & C & V & ->); [intros x []|].
    cbn [current_symbol changes last_close app].
    split; [reflexivity|]. split; [exact I2'|]. split.
    + intros s. unfold changes_spec. cbn [filter].
      specialize (I3 s). unfold changes_spec in I3. cbn [filter] in I3.
      destruct (has_symbol s r); [exact I3|exact I3].
    + intros x [= <-]. exists r, c. cbn [find]. unfold has_symbol.
      rewrite String.eqb_refl. auto.
Qed.

Lemma scan_rows_inv (q : list qrow) :
  forall p st st',
    StronglySorted row_before (p ++ q) ->
    scan_inv vol_text pct_change p st ->
    run_scan st q = Ok st' ->
    scan_inv vol_text pct_change (p ++ q) st'.
Proof.
  induction q as [|r q IH]; intros p st st' S Inv H; cbn [scan_rows] in H.
  - injection H as <-. now rewrite app_nil_r.
  - destruct (row_step st r) as [st1|e] eqn:R; cbn [bind] in H; [|discriminate].
    replace (p ++ r :: q) with ((p ++ [r]) ++ q) in * by (now rewrite <- app_assoc).
    apply (IH (p ++ [r]) st1 st'); [exact S| |exact H].
    apply (scan_row_inv p st st1 r); [|exact Inv|exact R].
    destruct (last (map Some p) None) as [l|] eqn:L; [|exact I].
    destruct (last_rows_in p l L) as [p' ->].
    rewrite <- (app_assoc (p' ++ [l])) in S. cbn [app] in S.
    exact (sorted_grouped p' q l r S).
Qed.

Lemma initial_scan_inv : scan_inv vol_text pct_change [] (mkscan [] [] None None).
Proof.
  unfold scan_inv, latest_spec, changes_spec. cbn.
  repeat split; try reflexivity. discriminate.
Qed.

Lemma sorted_first_latest (s : string) (rows : list qrow) :
  StronglySorted row_before rows ->
  forall first r,
    find (has_symbol s) rows = Some first ->
    In r rows -> q_symbol r = s ->
    String.leb (q_date r) (q_date first) = true.
Proof.
  induction rows as [|x rows IH]; intros S first r F Hr Hs; [destruct Hr|].
  apply StronglySorted_inv in S. destruct S as [S Fx]. cbn [find] in F.
  unfold has_symbol at 1 in F.
  destruct (String.eqb_spec (q_symbol x) s) as [E|E].
  - injection F as <-. destruct Hr as [<-|Hr]; [apply string_leb_refl|].
    rewrite Forall_forall in Fx. apply row_before_date; [now apply Fx|congruence].
  - destruct Hr as [<-|Hr]; [contradiction|]. now apply IH.
Qed.

(** X27.  When [load_latest_and_change_all] returns, the entry of a
    symbol in [latest] is made of the close and the volume of the first
    of its rows, and a symbol without rows has no entry; with the rows
    in the order of the query, that row carries the greatest date of the
    symbol: the price shown is the latest close. *)
Theorem latest_is_first_row (rows : list qrow)
        (latest_d : list (string * (pyfloat * string)))
        (changes_d : list (string * pyfloat)) (s : string) :
  load (Ok rows) = Ok (latest_d, changes_d) ->
  latest_spec vol_text rows s (assoc_find s latest_d)
  /\ (StronglySorted row_before rows ->
      forall first r,
        find (has_symbol s) rows = Some first ->
        In r rows -> q_symbol r = s ->
        String.leb (q_date r) (q_date first) = true).
Proof.
  unfold load_latest_and_change_all. cbn [bind]. intros H.
  destruct (run_scan (mkscan [] [] None None) rows) as [st|e] eqn:R;
    cbn [bind] in H; [|discriminate].
  injection H as <- <-. split.
  - apply (scan_rows_latest rows [] (mkscan [] [] None None) st); [|exact R].
    intros s'. reflexivity.
  - intros S first r F Hr Hs. exact (sorted_first_latest s rows S first r F Hr Hs).
Qed.


(** X28.  With the rows in the order of the query, when
    [load_latest_and_change_all] returns, the change of a symbol is
    computed from the close of its latest row and the close of the most
    recent earlier row whose close is not zero; a symbol has no change
    when it has one row only or when every earlier close is zero. *)
Theorem change_skips_zero_close (rows : list qrow)
        (latest_d : list (string * (pyfloat * string)))
        (changes_d : list (string * pyfloat)) (s : string) :
  StronglySorted row_before rows ->
  load (Ok rows) = Ok (latest_d, changes_d) ->
  changes_spec pct_change rows s (assoc_find s changes_d).
Proof.
  unfold load_latest_and_change_all. cbn [bind]. intros S H.
  destruct (run_scan (mkscan [] [] None None) rows) as [st|e] eqn:R;
    cbn [bind] in H; [|discriminate].
  injection H as <- <-.
  destruct (scan_rows_inv rows [] (mkscan [] [] None None) st S initial_scan_inv R)
    as (_ & _ & I3 & _).
  apply I3.
Qed.

Lemma scan_row_raises (st : scan) (r : qrow) (e : pyexn) :
  row_step st r = Raise e -> e = TypeError.
Proof.
  unfold scan_row.
  destruct (assoc_find _ _).
  - destruct (assoc_find _ _); [discriminate|].
    destruct (last_close _); [|discriminate].
    destruct (q_close r) as [c|]; [|now intros [= <-]].
    destruct (nonzero c); discriminate.
  - destruct (q_close r); [|now intros [= <-]].
    destruct (q_volume r); [discriminate|now intros [= <-]].
Qed.

Lemma scan_rows_raises (rows : list qrow) :
  forall st e, run_scan st rows = Raise e -> e = TypeError.
Proof.
  induction rows as [|r rows IH]; intros st e; cbn [scan_rows]; [discriminate|].
  destruct (row_step st r) as [st1|e1] eqn:R; cbn [bind].
  - apply IH.
  - intros [= <-]. exact (scan_row_raises st r e1 R).
Qed.

Lemma scan_rows_app (l1 l2 : list qrow) :
  forall st,
    run_scan st (l1 ++ l2) = (st' <- run_scan st l1 ;; run_scan st' l2).
Proof.
  induction l1 as [|r l1 IH]; intros st; cbn [app scan_rows]; [reflexivity|].
  destruct (row_step st r); cbn [bind]; [apply IH|reflexivity].
Qed.

Lemma find_split (s : string) (rows : list qrow) (r : qrow) :
  find (has_symbol s) rows = Some r ->
  exists l1 l2,
    rows = l1 ++ r :: l2 /\ find (has_symbol s) l1 = None /\ q_symbol r = s.
Proof.
  induction rows as [|x rows IH]; cbn [find]; [discriminate|].
  destruct (has_symbol s x) eqn:E.
  - intros [= <-]. exists [], rows. repeat split. now apply String.eqb_eq in E.
  - intros H. destruct (IH H) as (l1 & l2 & -> & N & Hs).
    exists (x :: l1), l2. cbn [find app]. rewrite E. auto.
Qed.

Lemma scan_row_total (st : scan) (r : qrow) :
  q_close r <> None -> q_volume r <> None -> exists st', row_step st r = Ok st'.
Proof.
  intros C V. unfold scan_row.
  destruct (q_close r) as [c|]; [|congruence].
  destruct (q_volume r) as [v|]; [|congruence].
  destruct (assoc_find _ _).
  - destruct (assoc_find _ _); [eauto|].
    destruct (last_close _); [|eauto]. destruct (nonzero c); eauto.
  - eauto.
Qed.

Lemma scan_rows_total (rows : list qrow) :
  Forall (fun x => q_close x <> None /\ q_volume x <> None) rows ->
  forall st, exists st', run_scan st rows = Ok st'.
Proof.
  induction 1 as [|r rows [C V] _ IH]; intros st; cbn [scan_rows]; [eauto|].
  destruct (scan_row_total st r C V) as [st1 ->]. cbn [bind]. apply IH.
Qed.

(** X29.  The exception of the connection or of the query leaves
    [load_latest_and_change_all] as it is.  On the rows that the query
    returned, the function raises [TypeError] when the first row of some
    symbol, the latest one in the order of the query, has no close or no
    volume (NULL, which is what SQLite keeps of a NaN); and it returns
    when no close and no volume of the table is NULL. *)
Theorem null_latest_row_raises (rows : list qrow) (s : string) (r : qrow) :
  (forall e, load (Raise e) = Raise e)
  /\ (find (has_symbol s) rows = Some r ->
      q_close r = None \/ q_volume r = None ->
      load (Ok rows) = Raise TypeError)
  /\ (Forall (fun x => q_close x <> None /\ q_volume x <> None) rows ->
      exists latest_d changes_d, load (Ok rows) = Ok (latest_d, changes_d)).
Proof.
  unfold load_latest_and_change_all. cbn [bind]. split; [reflexivity|]. split.
  - intros F N.
    assert (X : exists e, run_scan (mkscan [] [] None None) rows = Raise e).
    { destruct (find_split s rows r F) as (l1 & l2 & -> & N1 & Hs).
      rewrite scan_rows_app.
      destruct (run_scan (mkscan [] [] None None) l1) as [st1|e1] eqn:R1;
        cbn [bind]; [|now exists e1].
      pose proof (scan_rows_latest l1 [] (mkscan [] [] None None) st1
                                   (fun s' => eq_refl) R1 s) as L.
      cbn [app] in L. unfold latest_spec in L. rewrite N1 in L.
      cbn [scan_rows]. unfold scan_row at 1.
      assert (L1 : latest (match current_symbol st1 with
                           | Some s0 =>
                               if String.eqb (q_symbol r) s0 then st1
                               else mkscan (latest st1) (changes st1)
                                           (Some (q_symbol r)) None
                           | None => mkscan (latest st1) (changes st1)
                                            (Some (q_symbol r)) None
                           end) = latest st1).
      { destruct (current_symbol st1) as [s0|]; [|reflexivity].
        now destruct (String.eqb (q_symbol r) s0). }
      rewrite L1, Hs, L.
      destruct N as [-> | ->]; [|destruct (q_close r)]; cbn [bind]; eauto. }
    destruct X as [e X]. rewrite X. cbn [bind].
    now rewrite (scan_rows_raises rows _ e X).
  - intros F.
    destruct (scan_rows_total rows F (mkscan [] [] None None)) as [st ->].
    cbn [bind]. eauto.
Qed.

End ReadSideProperties.

Lemma sample_rows_sorted : StronglySorted row_before sample_rows.
Proof.
  unfold sample_rows.
  repeat (constructor; [|repeat (constructor; try (vm_compute; tauto))]).
  constructor.
Qed.

Lemma latest_is_first_row_witness :
  latest_spec sample_vol_text sample_rows "A-USD"
              (assoc_find "A-USD" [("A-USD", (float_of_Z 12, "M"));
                                   ("B-USD", (float_of_Z 5, "M"))])
  /\ (StronglySorted row_before sample_rows ->
      forall first r,
        find (has_symbol "A-USD") sample_rows = Some first ->
        In r sample_rows -> q_symbol r = "A-USD" ->
        String.leb (q_date r) (q_date first) = true).
Proof.
  apply (latest_is_first_row sample_vol_text sample_pct_change sample_rows
                             [("A-USD", (float_of_Z 12, "M"));
                              ("B-USD", (float_of_Z 5, "M"))]
                             [("A-USD", float_of_Z 12)] "A-USD").
  reflexivity.
Defined.

(** The change of the first symbol skips the day whose close is zero. *)
Lemma change_skips_zero_close_witness :
  changes_spec sample_pct_change sample_rows "A-USD"
               (assoc_find "A-USD" [("A-USD", float_of_Z 12)]).
Proof.
  apply (change_skips_zero_close sample_vol_text sample_pct_change sample_rows
                                 [("A-USD", (float_of_Z 12, "M"));
                                  ("B-USD", (float_of_Z 5, "M"))]
                                 [("A-USD", float_of_Z 12)] "A-USD").
  - exact sample_rows_sorted.
  - reflexivity.
Defined.

Lemma null_latest_row_raises_witness :
  load_latest_and_change_all
    sample_vol_text sample_pct_change
    (Ok (sample_rows ++ [mkqrow "C-USD" "2024-06-03" None (Some float_zero)]))
  = Raise TypeError.
Proof.
  apply (null_latest_row_raises
           sample_vol_text sample_pct_change
           (sample_rows ++ [mkqrow "C-USD" "2024-06-03" None (Some float_zero)])
           "C-USD" (mkqrow "C-USD" "2024-06-03" None (Some float_zero))).
  - reflexivity.
  - now left.
Defined.

(** ** The start of [update_data] *)

Lemma combine_fst_firstn {A B : Type} (a : list A) :
  forall b : list B,
    map fst (combine a b) = firstn (List.length (combine a b)) a.
Proof.
  induction a as [|x a IH]; intros [|y b]; cbn; try reflexivity.
  now rewrite IH.
Qed.

Lemma combine_snd_firstn {A B : Type} (a : list A) :
  forall b : list B,
    map snd (combine a b) = firstn (List.length (combine a b)) b.
Proof.
  induction a as [|x a IH]; intros [|y b]; cbn; try reflexivity.
  now rewrite IH.
Qed.

Lemma combine_nth_error {A B : Type} (a : list A) :
  forall (b : list B) (i : nat) (x : A) (y : B),
    nth_error (combine a b) i = Some (x, y)
    <-> nth_error a i = Some x /\ nth_error b i = Some y.
Proof.
  induction a as [|x0 a IH]; intros [|y0 b] [|i] x y; cbn;
    try (split; [discriminate|intros [? ?]; discriminate]).
  - split; [intros [= -> ->]; auto|intros [[= ->] [= ->]]; reflexivity].
  - apply IH.
Qed.

(** X30.  Whenever [update_data] gets as far as running the pool, the
    pool has at least one thread and no more threads than symbols, and
    the queue has a capacity of four times as many items, which is
    positive; and the tasks submitted are the rows of the plan, in
    order: the task of index [i] carries the symbol and the watermark of
    index [i] of the two columns, so that every symbol has its task,
    with its own watermark.  Whenever it raises before, the table was
    not touched if the plan is missing or has no [symbol] column; and
    the writer thread was started, and is left waiting, only when
    [workers] was given and is not positive. *)
Theorem pool_and_queue_sizes (float_repr : pyfloat -> string)
        (plan : option (result dataframe)) (workers : option Z)
        (cpu_count : option positive) :
  (forall events w m tasks,
      update_data_setup float_repr plan workers cpu_count
      = (events, PoolStarted w m tasks) ->
      1 <= w /\ m = 4 * w
      /\ events = [EnsureDb; WriterStarted m]
      /\ (exists frame column last_dates,
             plan = Some (Ok frame) /\ df_symbol frame = Some column
             /\ df_last_date frame = Some last_dates
             /\ w <= Z.of_nat (List.length column)
             /\ (forall i sym wm,
                    nth_error tasks i = Some (sym, wm)
                    <-> nth_error (map (py_str float_repr) column) i = Some sym
                        /\ nth_error last_dates i = Some wm)
             /\ List.length tasks
                = Nat.min (List.length column) (List.length last_dates)
             /\ (List.length last_dates = List.length column ->
                 map fst tasks = map (py_str float_repr) column
                 /\ map snd tasks = last_dates)))
  /\ (forall events e,
         update_data_setup float_repr plan workers cpu_count
         = (events, SetupRaise e) ->
         (In EnsureDb events ->
          exists frame, plan = Some (Ok frame) /\ df_symbol frame <> None)
         /\ forall m, In (WriterStarted m) events ->
                      e = Raised ValueError
                      /\ exists w, workers = Some w /\ w <= 0).
Proof.
  unfold update_data_setup.
  destruct plan as [[frame|e0]|].
  - destruct (df_symbol frame) as [column|] eqn:Sy.
    + destruct (df_last_date frame) as [last_dates|] eqn:Ld.
      * destruct (is_empty (map (py_str float_repr) column)) eqn:Em.
        -- split; [discriminate|]. intros events e [= <- <-].
        -- set (n := Z.of_nat (List.length (map (py_str float_repr) column))).
           assert (Hn : n = Z.of_nat (List.length column))
             by (unfold n; now rewrite length_map).
           assert (Hpos : 1 <= n).
           { unfold n. destruct (map (py_str float_repr) column);
               [discriminate|cbn [List.length]; lia]. }
           set (w0 := match workers with
                      | Some w => w
                      | None => match cpu_count with
                                | Some c => Z.pos c
                                | None => 4
                                end * 4
                      end).
           destruct (Z.leb_spec (Z.min w0 n) 0) as [Hw|Hw]; split.
           ++ discriminate.
           ++ intros events e [= <- <-]. split.
              ** intros _. exists frame. split; [reflexivity|congruence].
              ** intros m [H|[H|[]]]; [discriminate|]. split; [reflexivity|].
                 destruct workers as [w|]; [exists w; split; [reflexivity|]|];
                   unfold w0 in Hw; [lia|].
                 exfalso. destruct cpu_count as [c|]; lia.
           ++ intros events w m tasks [= <- <- <- <-].
              split; [lia|]. split; [lia|]. split; [reflexivity|].
              exists frame, column, last_dates.
              split; [reflexivity|]. split; [exact Sy|]. split; [exact Ld|].
              split; [lia|]. split; [intros i sym wm; apply combine_nth_error|].
              split; [now rewrite length_combine, length_map|].
              intros L. split.
              ** rewrite combine_fst_firstn, length_combine, length_map, L.
                 rewrite Nat.min_id, <- (length_map (py_str float_repr) column).
                 apply firstn_all.
              ** rewrite combine_snd_firstn, length_combine, length_map, L.
                 rewrite Nat.min_id, <- L. apply firstn_all.
           ++ discriminate.
      * split; [discriminate|]. intros events e [= <- <-]. split.
        -- intros _. exists frame. split; [reflexivity|congruence].
        -- intros m [H|[]]. discriminate.
    + split; [discriminate|]. intros events e [= <- <-].
      split; [intros []|intros m []].
  - split; [discriminate|]. intros events e [= <- <-].
    split; [intros []|intros m []].
  - split; [discriminate|]. intros events e [= <- <-].
    split; [intros []|intros m []].
Qed.

(** A plan of two symbols, the second without watermark, and fifty
    workers asked for: two threads, a queue of eight, and the two tasks
    of the plan. *)
Lemma pool_and_queue_sizes_witness :
  1 <= 2 /\ 8 = 4 * 2
  /\ [EnsureDb; WriterStarted 8] = [EnsureDb; WriterStarted 8]
  /\ (exists frame column last_dates,
         Some (Ok (mkframe (Some [CellStr "A-USD"; CellStr "B-USD"])
                           (Some [CellStr "2024-06-01"; CellFloat S754_nan])))
         = Some (Ok frame)
         /\ df_symbol frame = Some column
         /\ df_last_date frame = Some last_dates
         /\ 2 <= Z.of_nat (List.length column)
         /\ (forall i sym wm,
                nth_error [("A-USD", CellStr "2024-06-01");
                           ("B-USD", CellFloat S754_nan)] i = Some (sym, wm)
                <-> nth_error (map (py_str no_float_repr) column) i = Some sym
                    /\ nth_error last_dates i = Some wm)
         /\ List.length [("A-USD", CellStr "2024-06-01");
                         ("B-USD", CellFloat S754_nan)]
            = Nat.min (List.length column) (List.length last_dates)
         /\ (List.length last_dates = List.length column ->
             map fst [("A-USD", CellStr "2024-06-01"); ("B-USD", CellFloat S754_nan)]
             = map (py_str no_float_repr) column
             /\ map snd [("A-USD", CellStr "2024-06-01");
                         ("B-USD", CellFloat S754_nan)]
                = last_dates)).
Proof.
  apply (proj1 (pool_and_queue_sizes
                  no_float_repr
                  (Some (Ok (mkframe (Some [CellStr "A-USD"; CellStr "B-USD"])
                                     (Some [CellStr "2024-06-01";
                                            CellFloat S754_nan]))))
                  (Some 50) None)
               [EnsureDb; WriterStarted 8] 2 8
               [("A-USD", CellStr "2024-06-01"); ("B-USD", CellFloat S754_nan)]).
  reflexivity.
Defined.

(** ** The run from the start of the writer thread *)

Lemma cons_self {A : Type} (x : A) (l : list A) : l <> x :: l.
Proof.
  intros H. apply (f_equal (@List.length A)) in H. cbn in H. lia.
Qed.

Lemma cons_snoc {A : Type} (x y : A) (l : list A) : l <> x :: l ++ [y].
Proof.
  intros H. apply (f_equal (@List.length A)) in H.
  cbn in H. rewrite length_app in H. cbn in H. lia.
Qed.

Lemma with_pc_same (s : system) (p : main_pc) : pc s = p -> with_pc p s = s.
Proof. destruct s. unfold with_pc. cbn. now intros ->. Qed.

Section RunFromStartProperties.

Variable fault : nat -> bool.
Variable maxsize : nat.

(** Every step is of the writer, or leaves the writer as it is. *)
Lemma step_classify (s s' : system) :
  step fault maxsize s s' ->
  (writer_move s s' /\ ~ join_move s s')
  \/ (~ writer_move s s' /\ wr s' = wr s /\ received s' = received s).
Proof.
  intros Hs.
  destruct Hs as [s i r Hi | s i sym rows Hp Hi Hne Hlen | s i sym Hp Hi
                  | s i e Hp Hi | s Hp Hall Hlen | s item rest Hopen Hqueue
                  | s Hp Hcl]; unfold writer_move, join_move; cbn.
  - right. repeat split. intros [x H]. exact (cons_self _ _ H).
  - right. repeat split. intros [x H]. exact (cons_snoc _ _ _ H).
  - right. repeat split. intros [x H]. exact (cons_self _ _ H).
  - right. repeat split. intros [x H]. exact (cons_self _ _ H).
  - right. repeat split. intros [x H]. exact (cons_snoc _ _ _ H).
  - left. split; [now exists item|]. intros [A B]. congruence.
  - right. repeat split. intros [x H]. exact (cons_self _ _ H).
Qed.

Lemma step_xstep_looping (s s' : system) :
  step fault maxsize s s' -> xstep fault maxsize Looping s Looping s'.
Proof.
  intros Hs. destruct (step_classify s s' Hs) as [[W _]|[W _]].
  - now apply xstep_writer.
  - destruct (pc s) eqn:Ep.
    + apply xstep_pool; [exact Hs|exact W|]. intros [A _]. congruence.
    + destruct (pc s') eqn:Ep'.
      * apply xstep_pool; [exact Hs|exact W|]. intros [_ B]. congruence.
      * apply xstep_pool; [exact Hs|exact W|]. intros [_ B]. congruence.
      * apply xstep_join; [exact Hs|]. now split.
    + apply xstep_pool; [exact Hs|exact W|]. intros [A _]. congruence.
Qed.

(** A step of a task or of the main thread in the [with] block is open
    to every state of the writer thread. *)
Lemma step_xstep_pool (th : thread) (s s' : system) :
  step fault maxsize s s' ->
  (List.length (queue s) <= List.length (queue s'))%nat ->
  pc s' <> Returned ->
  xstep fault maxsize th s th s'.
Proof.
  intros Hs Hq Hp. apply xstep_pool; [exact Hs| |].
  - intros [x H]. rewrite H in Hq. cbn in Hq. lia.
  - intros [_ B]. congruence.
Qed.

Lemma reachable_xreachable (store : table) (n : nat) (s : system) :
  reachable fault maxsize store n s ->
  xreachable fault maxsize store n Looping s.
Proof.
  induction 1 as [|s s' _ IH Hs].
  - apply (xreach_step _ _ _ _ Starting Looping (initial store n));
      [apply xreach_initial|apply xstep_setup_ok].
  - exact (xreach_step _ _ _ _ _ _ _ _ IH (step_xstep_looping s s' Hs)).
Qed.

(** Past [join] only the writer could move. *)
Lemma returned_only_writer (store : table) (n : nat) (s s' : system) :
  reachable fault maxsize store n (with_pc Joining s) ->
  pc s = Returned ->
  step fault maxsize s s' ->
  writer_move s s'.
Proof.
  intros R Hp Hs.
  destruct (reachable_inv fault maxsize store n _ R) as (_ & Hf & _).
  assert (F : Forall collected_task (futures s)) by (apply Hf; discriminate).
  destruct Hs as [s i r Hi | s i sym rows Hp' Hi Hne Hlen | s i sym Hp' Hi
                  | s i e Hp' Hi | s Hp' Hall Hlen | s item rest Hopen Hqueue
                  | s Hp' Hcl]; try congruence.
  - exfalso. exact (Forall_nth_error _ _ _ _ F Hi).
  - now exists item.
Qed.

(** While the writer thread is not in its loop the writer is as at the
    start; and the state is one of a run with the thread in its loop,
    but for the return of [join] on a dead thread. *)
Lemma xreachable_inv (store : table) (n : nat) (th : thread) (s : system) :
  xreachable fault maxsize store n th s ->
  (th <> Looping ->
   wr s = mkwriter (connect store) 0 [] false /\ received s = [])
  /\ (reachable fault maxsize store n s
      \/ (th = Dead /\ pc s = Returned
          /\ reachable fault maxsize store n (with_pc Joining s))).
Proof.
  induction 1 as [|th th' s s' Hx [IH1 IH2] Hs].
  - split; [intros _; split; reflexivity|left; constructor].
  - destruct Hs as [s | s | th s s' Hs W J | s s' Hs W | th s s' Hs J | s Hp].
    + split; [congruence|]. destruct IH2 as [R|(E & _)]; [now left|discriminate].
    + split; [intros _; apply IH1; discriminate|].
      destruct IH2 as [R|(E & _)]; [now left|discriminate].
    + destruct (step_classify s s' Hs) as [[W' _]|(_ & E1 & E2)]; [contradiction|].
      split; [intros H; rewrite E1, E2; exact (IH1 H)|].
      destruct IH2 as [R|(E & Hp & R)].
      * left. exact (reach_step _ _ _ _ _ _ R Hs).
      * exfalso. exact (W (returned_only_writer store n s s' R Hp Hs)).
    + split; [congruence|].
      destruct IH2 as [R|(E & _)]; [|discriminate].
      left. exact (reach_step _ _ _ _ _ _ R Hs).
    + destruct (step_classify s s' Hs) as [[_ J']|(_ & E1 & E2)]; [contradiction|].
      split; [intros H; rewrite E1, E2; exact (IH1 H)|].
      destruct IH2 as [R|(E & Hp & R)].
      * left. exact (reach_step _ _ _ _ _ _ R Hs).
      * destruct J as [A _]. congruence.
    + split; [intros _; apply IH1; discriminate|].
      right. repeat split.
      destruct IH2 as [R|(E & Hp' & R)]; [|congruence].
      change (with_pc Joining (with_pc Returned s)) with (with_pc Joining s).
      now rewrite with_pc_same.
Qed.

(** The runs of [reachable] are the runs in which the set-up of the
    writer thread succeeded. *)
Lemma xreachable_looping (store : table) (n : nat) (s : system) :
  xreachable fault maxsize store n Looping s <-> reachable fault maxsize store n s.
Proof.
  split; [|apply reachable_xreachable].
  intros Hx. destruct (xreachable_inv store n Looping s Hx) as [_ [R|(E & _)]];
    [exact R|discriminate].
Qed.

(** X14.  A run from the start of the writer thread, with a queue of
    positive capacity, is stuck before the return of [join] in one case
    only: the writer thread died in its set-up, the main thread is still
    in the [with] block and the queue is full.  With the thread in its
    set-up or in its loop some thread can always take a step. *)
Theorem run_never_stuck (store : table) (n : nat) (th : thread) (s : system) :
  xreachable fault maxsize store n th s ->
  (0 < maxsize)%nat ->
  pc s <> Returned ->
  (exists th' s', xstep fault maxsize th s th' s')
  \/ (th = Dead /\ pc s = Collecting /\ List.length (queue s) = maxsize).
Proof.
  intros Hx Hm Hp.
  destruct (xreachable_inv store n th s Hx) as [I1 [R|(_ & E & _)]]; [|congruence].
  destruct th.
  - left. exists Looping, s. apply xstep_setup_ok.
  - left. destruct (looping_run_progress fault maxsize store n s R Hm Hp) as [s' Hs].
    exists Looping, s'. exact (step_xstep_looping s s' Hs).
  - pose proof (reachable_queue_bound fault maxsize store n s R) as B.
    destruct (pc s) eqn:Epc; [| |congruence].
    + destruct (futures_cases (futures s)) as [[i H]|[(i & r & H)|H]].
      * left. exists Dead. eexists.
        apply (step_xstep_pool Dead s _ (step_finish fault maxsize s i (Raise ValueError) H));
          cbn; [lia|congruence].
      * destruct r as [[sym [|r rows]]|e].
        -- left. exists Dead. eexists.
           apply (step_xstep_pool Dead s _ (step_collect_empty fault maxsize s i sym Epc H));
             cbn; [lia|discriminate].
        -- destruct (Nat.eq_dec (List.length (queue s)) maxsize) as [E|E];
             [right; now repeat split|].
           left. exists Dead. eexists.
           refine (step_xstep_pool Dead s _
                     (step_collect_rows fault maxsize s i sym (r :: rows) Epc H _ _) _ _);
             cbn; rewrite ?length_app; cbn; [discriminate|lia|lia|discriminate].
        -- left. exists Dead. eexists.
           apply (step_xstep_pool Dead s _ (step_collect_crash fault maxsize s i e Epc H));
             cbn; [lia|discriminate].
      * destruct (Nat.eq_dec (List.length (queue s)) maxsize) as [E|E];
          [right; now repeat split|].
        left. exists Dead. eexists.
        refine (step_xstep_pool Dead s _ (step_sentinel fault maxsize s Epc H _) _ _);
          cbn; rewrite ?length_app; cbn; [lia|lia|discriminate].
    + left. exists Dead, (with_pc Returned s). now apply xstep_join_dead.
Qed.

(** X17.  Once [join] has returned in a run from the start of the writer
    thread, the total of the closing line is the number of rows put on
    the queue, and the thread was in its loop or died in its set-up.  In
    its loop: the total that the writer printed is never above the total
    of the closing line, the two agree exactly when the writer printed no
    line for a failed batch, and the rows added to the table are never
    more than either.  Dead: the writer printed nothing and the table is
    as at the start, whatever the closing line says. *)
Theorem reported_totals (store : table) (n : nat) (th : thread) (s : system) :
  xreachable fault maxsize store n th s ->
  pc s = Returned ->
  total_rows s = Z.of_nat (List.length (List.concat (sent s)))
  /\ ((th = Looping
       /\ total_written (wr s) <= total_rows s
       /\ (total_written (wr s) = total_rows s
           <-> w_log (wr s) = [TotalWritten (total_rows s)])
       /\ Z.of_nat (List.length (stored (wr s)))
          <= Z.of_nat (List.length store) + total_written (wr s))
      \/ (th = Dead
          /\ stored (wr s) = store
          /\ w_log (wr s) = []
          /\ total_written (wr s) = 0
          /\ received s = [])).
Proof.
  intros Hx Hp.
  destruct (xreachable_inv store n th s Hx) as [I1 I2].
  assert (Hstart : th <> Looping -> reachable fault maxsize store n s -> False).
  { intros Hth R. destruct (I1 Hth) as [Hw _].
    destruct (reachable_inv fault maxsize store n s R) as (_ & _ & Hr & _).
    specialize (Hr Hp). rewrite Hw in Hr. discriminate. }
  destruct I2 as [R|(-> & _ & R)].
  - split; [exact (reachable_total_sent fault maxsize store n s R)|].
    destruct th; [exfalso; apply Hstart; [discriminate|exact R]|
                  |exfalso; apply Hstart; [discriminate|exact R]].
    left. split; [reflexivity|].
    exact (returned_totals fault maxsize store n s R Hp).
  - split; [exact (reachable_total_sent fault maxsize store n _ R)|].
    right. destruct I1 as [Hw Hr]; [discriminate|].
    rewrite Hw. now repeat split.
Qed.

End RunFromStartProperties.

Lemma blocked_run_reachable : xreachable no_fault 1 [] 1 Dead blocked_run.
Proof.
  pose (w0 := mkwriter (connect []) 0 [] false).
  pose (res := @Ok (string * list row) ("A-USD", [row_a1])).
  pose (s1 := mksystem [Finished res] Collecting [] w0 0 0 [] []).
  apply (xreach_step _ _ _ _ Dead Dead s1).
  - apply (xreach_step _ _ _ _ Dead Dead (initial [] 1)).
    + apply (xreach_step _ _ _ _ Starting Dead (initial [] 1));
        [apply xreach_initial|apply xstep_setup_raises].
    + apply (step_xstep_pool no_fault 1 Dead (initial [] 1) s1
               (step_finish _ _ (initial [] 1) 0 res eq_refl));
        cbn; [lia|discriminate].
  - refine (step_xstep_pool no_fault 1 Dead s1 blocked_run
              (step_collect_rows _ _ s1 0 "A-USD" [row_a1] eq_refl eq_refl _ _) _ _);
      cbn; [discriminate|lia|lia|discriminate].
Qed.

(** The run of [blocked_run] is stuck: with the writer thread dead and
    the queue full no thread can take a step, and [join] is never
    reached. *)
Example dead_writer_blocks :
  xreachable no_fault 1 [] 1 Dead blocked_run
  /\ pc blocked_run = Collecting
  /\ forall th' s', ~ xstep no_fault 1 Dead blocked_run th' s'.
Proof.
  split; [exact blocked_run_reachable|]. split; [reflexivity|].
  assert (N : forall s', step no_fault 1 blocked_run s' -> writer_move blocked_run s').
  { intros s' Hs. inversion Hs as [s i r Hi | s i sym rows Hp Hi Hne Hlen | s i sym Hp Hi
                        | s i e Hp Hi | s Hp Hall Hlen | s item rest Hopen Hqueue
                        | s Hp Hcl]; subst; cbn in *;
      try (destruct i as [|[|i]]; discriminate); try lia; try discriminate.
    now exists item. }
  intros th' s' Hx.
  inversion Hx as [s | s | th s s1 Hs W J | s s1 Hs W | th s s1 Hs J | s Hp]; subst.
  - exact (W (N s' Hs)).
  - destruct J as [A _]. discriminate.
  - discriminate.
Qed.

Lemma run_never_stuck_witness :
  (exists th' s', xstep no_fault 1 Dead blocked_run th' s')
  \/ (Dead = Dead /\ pc blocked_run = Collecting
      /\ List.length (queue blocked_run) = 1%nat).
Proof.
  apply (run_never_stuck no_fault 1 [] 1 Dead blocked_run blocked_run_reachable).
  - lia.
  - discriminate.
Defined.

Lemma reported_totals_witness :
  total_rows one_task_run = Z.of_nat (List.length (List.concat (sent one_task_run)))
  /\ ((Looping = Looping
       /\ total_written (wr one_task_run) <= total_rows one_task_run
       /\ (total_written (wr one_task_run) = total_rows one_task_run
           <-> w_log (wr one_task_run) = [TotalWritten (total_rows one_task_run)])
       /\ Z.of_nat (List.length (stored (wr one_task_run)))
          <= Z.of_nat (List.length (@nil row)) + total_written (wr one_task_run))
      \/ (Looping = Dead
          /\ stored (wr one_task_run) = []
          /\ w_log (wr one_task_run) = []
          /\ total_written (wr one_task_run) = 0
          /\ received one_task_run = [])).
Proof.
  apply (reported_totals no_fault 4 [] 1 Looping one_task_run).
  - exact (reachable_xreachable no_fault 4 [] 1 one_task_run one_task_run_reachable).
  - reflexivity.
Defined.
